(** * idlemudpy: a shallow embedding of [mud.py] and its verified properties

    The development follows the layout of the Python source: balancing
    constants, the [Player], [Enemy] and [Room] classes, the persistence
    functions [save_game] / [load_game], and the game operations of the
    [MudGameGUI] class (combat, healing, inventory, movement, automation).

    Modelling conventions:
    - Python integers are [Z]; strings are [string]; lists are [list].
    - Dictionaries looked up and updated by key ([rooms], [tasks],
      [CLASS_STATS], the JSON object of the save file) are [gmap string _];
      the read-only [exits] dictionary, whose order is displayed, is an
      association list.
    - The mutable program state (player, rooms, cursor of the automation
      policy, random generator, wall clock, text output, save file, widget
      flags) is one record [World]; operations are functions in a
      state-and-exception monad that keeps the mutated state when a Python
      exception is raised.
    - [random.randint] and [random.choice] read the next raw number of an
      explicit source and reduce it into the requested range.
    - [time.time()] reads the [clock] field; timestamps are integers. *)

From stdpp Require Import gmap strings list fin_maps.
From Equations Require Import Equations.
From Stdlib Require Import Ascii ZArith Lia.

Set Warnings "-register-all".
Local Open Scope Z_scope.

(** ** Game balancing constants *)

Record ClassStat := mkClassStat {
  cs_max_hp : Z;
  cs_base_attack : Z;
  cs_skill_name : string
}.

Definition CLASS_STATS : gmap string ClassStat :=
  <["warrior" := mkClassStat 120 8 "Power Strike"]>
  (<["mage" := mkClassStat 80 12 "Arcane Blast"]>
  (<["rogue" := mkClassStat 100 10 "Backstab"]> ∅)).

Definition HP_PER_LEVEL : Z := 10.
Definition ATTACK_PER_LEVEL : Z := 2.

Record EnemyTemplate := mkTemplate {
  t_name : string;
  t_hp : Z;
  t_attack_power : Z;
  t_exp : Z
}.

Definition ENEMY_POOL : list EnemyTemplate :=
  [ mkTemplate "Anti Claws" 100 12 50;
    mkTemplate "Shadow Beast" 80 8 30;
    mkTemplate "Angry Turkey" 60 6 20;
    mkTemplate "Goblin Raider" 70 7 25;
    mkTemplate "Mountain Troll" 120 10 60 ].

Definition RESPAWN_TIME : Z := 10.

(** ** class Player *)

Record Player := mkPlayer {
  name : string;
  player_class : string;
  level : Z;
  exp : Z;
  max_hp : Z;
  hp : Z;
  base_attack : Z;
  inventory : list string;
  location : string;
  tasks : gmap string bool;
  pomodoro_streak : Z
}.

Definition set_exp (p : Player) (v : Z) : Player :=
  mkPlayer (name p) (player_class p) (level p) v (max_hp p) (hp p)
           (base_attack p) (inventory p) (location p) (tasks p)
           (pomodoro_streak p).

Definition set_hp (p : Player) (v : Z) : Player :=
  mkPlayer (name p) (player_class p) (level p) (exp p) (max_hp p) v
           (base_attack p) (inventory p) (location p) (tasks p)
           (pomodoro_streak p).

Definition set_inventory (p : Player) (v : list string) : Player :=
  mkPlayer (name p) (player_class p) (level p) (exp p) (max_hp p) (hp p)
           (base_attack p) v (location p) (tasks p) (pomodoro_streak p).

Definition set_location (p : Player) (v : string) : Player :=
  mkPlayer (name p) (player_class p) (level p) (exp p) (max_hp p) (hp p)
           (base_attack p) (inventory p) v (tasks p) (pomodoro_streak p).

Definition set_tasks (p : Player) (v : gmap string bool) : Player :=
  mkPlayer (name p) (player_class p) (level p) (exp p) (max_hp p) (hp p)
           (base_attack p) (inventory p) (location p) v (pomodoro_streak p).

(** [str.lower()] on the ASCII range: the letters [A]..[Z] (codes 65..90)
    are moved to [a]..[z]; every other byte is kept. On strings of ASCII
    characters this is [str.lower()]; cased letters outside ASCII, which
    Python lower-cases too, are not covered, so statements about arbitrary
    class names are made for ASCII names ([is_ascii]). *)
Definition lower_ascii (c : ascii) : ascii :=
  let n := nat_of_ascii c in
  if ((65 <=? n) && (n <=? 90))%nat then ascii_of_nat (n + 32) else c.

Fixpoint lower (s : string) : string :=
  match s with
  | EmptyString => EmptyString
  | String c s' => String (lower_ascii c) (lower s')
  end.

Definition default_tasks : gmap string bool :=
  <["complete_daily_job" := false]>
  (<["drink_from_stream" := false]>
  (<["stun_opponent" := false]> ∅)).

(** [Player.__init__]. The optional arguments [inventory] and [tasks] are
    [None] when omitted (or when the save file holds [null]); an empty
    [tasks] dictionary is falsy and is replaced by the default one too. *)
Definition Player_init (name player_class : string)
    (level exp max_hp hp base_attack : Z)
    (inventory : option (list string)) (location : string)
    (tasks : option (gmap string bool)) (pomodoro_streak : Z) : Player :=
  mkPlayer name (lower player_class) level exp max_hp hp base_attack
    (match inventory with Some l => l | None => [] end)
    location
    (match tasks with
     | Some t => if decide (t = ∅) then default_tasks else t
     | None => default_tasks
     end)
    pomodoro_streak.

Definition calculate_attack (p : Player) : Z := base_attack p.

(** [Player.level_up]: the statements run in source order, so the restored
    [hp] is the already increased [max_hp]. *)
Definition level_up (p : Player) : Player :=
  mkPlayer (name p) (player_class p) (level p + 1) (exp p)
           (max_hp p + HP_PER_LEVEL) (max_hp p + HP_PER_LEVEL)
           (base_attack p + ATTACK_PER_LEVEL) (inventory p) (location p)
           (tasks p) (pomodoro_streak p).

(** One iteration of the [while] loop of [add_experience], entered with
    [required_exp = level * 100]: level up, then subtract the threshold that
    was computed before the level changed. *)
Definition level_loop_body (p : Player) : Player :=
  let required_exp := level p * 100 in
  let p1 := level_up p in
  set_exp p1 (exp p1 - required_exp).

(** Termination measure of the loop. For levels at least 1 it is the
    experience itself; the other summands cover non-positive levels, where
    the threshold is non-positive and the experience grows until level 1 is
    reached. *)
Definition loop_measure (p : Player) : nat :=
  (Z.to_nat (exp p + 50 * Z.min (level p) 0 * (Z.min (level p) 0 - 1))
   + Z.to_nat (1 - level p))%nat.

(** The [while self.exp >= required_exp] loop. [required_exp] always equals
    [level * 100] when the condition is tested (it is assigned so before the
    loop and at the end of each iteration), so it is recomputed here. *)
Equations level_loop (p : Player) : Player by wf (loop_measure p) lt :=
  level_loop p with Z_le_dec (level p * 100) (exp p) := {
    | left _ => level_loop (level_loop_body p)
    | right _ => p }.
Next Obligation.
  unfold loop_measure, level_loop_body, level_up, set_exp; simpl.
  destruct (Z_le_gt_dec (level p) (-1)) as [Hn | Hp].
  - rewrite (Z.min_l (level p) 0) by lia.
    rewrite (Z.min_l (level p + 1) 0) by lia. nia.
  - rewrite (Z.min_r (level p + 1) 0) by lia.
    destruct (Z.eq_dec (level p) 0) as [H0 | H0].
    + rewrite H0 in *. simpl. lia.
    + rewrite (Z.min_r (level p) 0) by lia. nia.
Qed.

(** [Player.add_experience]. *)
Definition add_experience (p : Player) (amount : Z) : Player :=
  level_loop (set_exp p (exp p + amount)).


(** ** class Enemy *)

Record Enemy := mkEnemy {
  e_name : string;
  e_hp : Z;
  attack_power : Z;
  exp_reward : Z;
  alive : bool
}.

Definition Enemy_init (name : string) (hp attack_power exp_reward : Z) : Enemy :=
  mkEnemy name hp attack_power exp_reward true.

Definition set_e_hp (e : Enemy) (v : Z) : Enemy :=
  mkEnemy (e_name e) v (attack_power e) (exp_reward e) (alive e).

Definition set_alive (e : Enemy) (v : bool) : Enemy :=
  mkEnemy (e_name e) (e_hp e) (attack_power e) (exp_reward e) v.

Definition is_alive (e : Enemy) : bool :=
  alive e && bool_decide (0 < e_hp e).

(** ** class Room *)

Record Room := mkRoom {
  r_name : string;
  description : string;
  exits : list (string * option string);
  items : list string;
  enemy : option Enemy;
  respawn_timer : Z
}.

Definition Room_init (name description : string)
    (exits : list (string * option string)) (items : list string) : Room :=
  mkRoom name description exits items None 0.

Definition set_items (r : Room) (v : list string) : Room :=
  mkRoom (r_name r) (description r) (exits r) v (enemy r) (respawn_timer r).

Definition set_enemy (r : Room) (v : option Enemy) : Room :=
  mkRoom (r_name r) (description r) (exits r) (items r) v (respawn_timer r).

Definition set_respawn_timer (r : Room) (v : Z) : Room :=
  mkRoom (r_name r) (description r) (exits r) (items r) (enemy r) v.

(** [room.enemy and room.enemy.is_alive()]: the enemy of the room when one
    is referenced and alive. *)
Definition live_enemy (r : Room) : option Enemy :=
  match enemy r with
  | Some e => if is_alive e then Some e else None
  | None => None
  end.

(** Lookup in the [exits] dictionary ([direction in room.exits], then
    [room.exits[direction]]). The keys of every [exits] literal of the
    source are distinct. *)
Fixpoint dict_get {V : Type} (d : list (string * V)) (k : string) : option V :=
  match d with
  | [] => None
  | (k', v) :: d' => if decide (k' = k) then Some v else dict_get d' k
  end.

(** [move_player]'s test: the direction is a key and its value is not
    [None]. *)
Definition exit_not_none (r : Room) (direction : string) : option string :=
  match dict_get (exits r) direction with
  | Some (Some dest) => Some dest
  | _ => None
  end.

(** [auto_move_and_attack]'s test [dir_ in directions and directions[dir_]]:
    the value must be truthy, so the empty string is rejected as well. *)
Definition exit_truthy (r : Room) (direction : string) : bool :=
  match dict_get (exits r) direction with
  | Some (Some dest) => negb (bool_decide (dest = ""))
  | _ => false
  end.

(** ** Text output

    One constructor per [write_line] call of the modelled operations; the
    arguments are the values interpolated into the printed line. *)
Inductive Msg :=
  | MsgWelcome (name player_class : string)
  | MsgNewWorld
  | MsgWelcomeBack (name player_class : string)
  | MsgNoSavedGame
  | MsgGameSaved
  | MsgLocation (room_name : string)
  | MsgDescription (text : string)
  | MsgItemsHeader
  | MsgItem (item : string)
  | MsgHostile (enemy_name : string) (enemy_hp : Z)
  | MsgExits (directions : list string)
  | MsgCantGo
  | MsgNothingToAttack
  | MsgLashOut (enemy_name : string) (player_damage enemy_hp : Z)
  | MsgDefeated (enemy_name : string)
  | MsgGainExp (amount : Z)
  | MsgTaskStunned
  | MsgCounter (enemy_name : string) (enemy_damage player_hp : Z)
  | MsgSuccumb
  | MsgFullHealth
  | MsgPatchUp (heal_amount player_hp : Z)
  | MsgItemNotHere
  | MsgPickUp (item : string)
  | MsgDontHaveItem
  | MsgDropped (item : string)
  | MsgNotInBag
  | MsgDrinkPotion (heal_amount player_hp : Z)
  | MsgCantUse
  | MsgNoEnemyForSkill
  | MsgUseSkill (skill_name : string) (dmg_boost enemy_hp : Z)
  | MsgRetaliates (enemy_name : string) (retal_damage player_hp : Z)
  | MsgGameOver
  | MsgStats (p : Player)
  | MsgTasks (complete_daily_job drink_from_stream stun_opponent : bool).

(** ** Save file contents: the value [json.dump] writes and [json.load]
    returns. Objects are dictionaries, as [json.load] builds them. *)
Inductive json :=
  | JNull
  | JBool (b : bool)
  | JInt (z : Z)
  | JStr (s : string)
  | JArr (l : list json)
  | JObj (m : gmap string json).

(** ** Widget and timer flags of the window that the operations change
    ([True] = enabled / running). *)
Record Gui := mkGui {
  btn_save : bool;
  command_entry : bool;
  btn_pomo_start : bool;
  btn_pomo_pause : bool;
  btn_pomo_stop : bool;
  pomodoro_running : bool;
  pomodoro_in_break : bool
}.

(** ** Program state *)

Record World := mkWorld {
  player : Player;                 (* self.player, once a game is started *)
  rooms : gmap string Room;        (* the global rooms dictionary *)
  auto_move_index : nat;           (* self.auto_move_index *)
  rand_src : nat -> Z;             (* raw numbers of the random generator *)
  rand_pos : nat;                  (* how many of them were consumed *)
  clock : Z;                       (* what time.time() returns *)
  output : list Msg;               (* lines written to the output area *)
  save_file : option json;         (* contents of SAVE_FILE, if it exists *)
  gui : Gui
}.

Definition set_player (w : World) (v : Player) : World :=
  mkWorld v (rooms w) (auto_move_index w) (rand_src w) (rand_pos w)
          (clock w) (output w) (save_file w) (gui w).

Definition set_rooms (w : World) (v : gmap string Room) : World :=
  mkWorld (player w) v (auto_move_index w) (rand_src w) (rand_pos w)
          (clock w) (output w) (save_file w) (gui w).

Definition set_auto_move_index (w : World) (v : nat) : World :=
  mkWorld (player w) (rooms w) v (rand_src w) (rand_pos w)
          (clock w) (output w) (save_file w) (gui w).

Definition set_rand_pos (w : World) (v : nat) : World :=
  mkWorld (player w) (rooms w) (auto_move_index w) (rand_src w) v
          (clock w) (output w) (save_file w) (gui w).

Definition set_clock (w : World) (v : Z) : World :=
  mkWorld (player w) (rooms w) (auto_move_index w) (rand_src w) (rand_pos w)
          v (output w) (save_file w) (gui w).

Definition set_output (w : World) (v : list Msg) : World :=
  mkWorld (player w) (rooms w) (auto_move_index w) (rand_src w) (rand_pos w)
          (clock w) v (save_file w) (gui w).

Definition set_save_file (w : World) (v : option json) : World :=
  mkWorld (player w) (rooms w) (auto_move_index w) (rand_src w) (rand_pos w)
          (clock w) (output w) v (gui w).

Definition set_gui (w : World) (v : Gui) : World :=
  mkWorld (player w) (rooms w) (auto_move_index w) (rand_src w) (rand_pos w)
          (clock w) (output w) (save_file w) v.

(** ** The monad of operations

    An operation maps the state to an outcome and the state it leaves. A
    raised exception keeps the state reached so far: Python does not undo
    the assignments made before the [raise]. *)

Inductive exn :=
  | KeyError (key : string)
  | ValueError
  | IndexError
  | AttributeError
  | TypeError.

Inductive outcome (A : Type) :=
  | Return (a : A)
  | Raise (e : exn).
Arguments Return {A} a.
Arguments Raise {A} e.

Definition M (A : Type) : Type := World -> outcome A * World.

Definition ret {A : Type} (a : A) : M A := fun w => (Return a, w).

Definition raise {A : Type} (e : exn) : M A := fun w => (Raise e, w).

Definition bind {A B : Type} (m : M A) (f : A -> M B) : M B :=
  fun w =>
    match m w with
    | (Return a, w') => f a w'
    | (Raise e, w') => (Raise e, w')
    end.

Declare Scope mud_scope.
Delimit Scope mud_scope with mud.
Notation "'let*' x := m 'in' k" := (bind m (fun x => k))
  (at level 10, x name, m at level 200, k at level 200,
   format "'[v' 'let*'  x  :=  m  'in' '/' k ']'") : mud_scope.
Local Open Scope mud_scope.

Definition get_player : M Player := fun w => (Return (player w), w).

Definition put_player (p : Player) : M unit :=
  fun w => (Return tt, set_player w p).

(** [rooms[key]] *)
Definition lookup_room (key : string) : M Room :=
  fun w =>
    match rooms w !! key with
    | Some r => (Return r, w)
    | None => (Raise (KeyError key), w)
    end.

(** Assignment to attributes of the room object stored under [key]. *)
Definition modify_room (key : string) (f : Room -> Room) : M unit :=
  fun w => (Return tt, set_rooms w (alter f key (rooms w))).

Definition write_line (m : Msg) : M unit :=
  fun w => (Return tt, set_output w (output w ++ [m])).

Fixpoint write_lines (ms : list Msg) : M unit :=
  match ms with
  | [] => ret tt
  | m :: ms' => let* _ := write_line m in write_lines ms'
  end.

Definition time_time : M Z := fun w => (Return (clock w), w).

Definition random_raw : M Z :=
  fun w => (Return (rand_src w (rand_pos w)), set_rand_pos w (S (rand_pos w))).

(** [random.randint(a, b)]: an integer of [a..b], [ValueError] on an empty
    range. *)
Definition randint (a b : Z) : M Z :=
  if decide (a <= b) then
    let* r := random_raw in ret (a + r mod (b - a + 1))
  else raise ValueError.

(** [random.choice(seq)]: [IndexError] on an empty sequence. *)
Definition choice {A : Type} (seq : list A) : M A :=
  match seq with
  | [] => raise IndexError
  | _ =>
      let* r := random_raw in
      match seq !! Z.to_nat (r mod Z.of_nat (length seq)) with
      | Some x => ret x
      | None => raise IndexError
      end
  end.

Definition get_auto_move_index : M nat :=
  fun w => (Return (auto_move_index w), w).

Definition put_auto_move_index (i : nat) : M unit :=
  fun w => (Return tt, set_auto_move_index w i).

Definition put_gui (g : Gui) : M unit :=
  fun w => (Return tt, set_gui w g).

Definition get_gui : M Gui := fun w => (Return (gui w), w).

Definition clear_output : M unit := fun w => (Return tt, set_output w []).

(** ** Room.spawn_enemy and the mob lifecycle *)

Definition spawn_enemy (key : string) : M unit :=
  let* room := lookup_room key in
  match live_enemy room with
  | Some _ => ret tt
  | None =>
      let* current_time := time_time in
      if decide (respawn_timer room <= current_time) then
        let* chosen := choice ENEMY_POOL in
        modify_room key (fun r =>
          set_enemy r (Some (Enemy_init (t_name chosen) (t_hp chosen)
                                        (t_attack_power chosen) (t_exp chosen))))
      else ret tt
  end.

Definition handle_mob_death (key : string) : M unit :=
  let* room := lookup_room key in
  match enemy room with
  | None => raise AttributeError
  | Some e =>
      let* _ := modify_room key (fun r => set_enemy r (Some (set_alive e false))) in
      let* _ := modify_room key (fun r => set_enemy r None) in
      let* now := time_time in
      modify_room key (fun r => set_respawn_timer r (now + RESPAWN_TIME))
  end.

Definition maybe_respawn_mob (key : string) : M unit := spawn_enemy key.

(** ** Commands of the game window *)

(** [[ex for ex, loc in room.exits.items() if loc]] *)
Definition visible_exits (r : Room) : list string :=
  omap (fun '(ex, loc) =>
          match loc with
          | Some dest => if decide (dest = "") then None else Some ex
          | None => None
          end) (exits r).

Definition look_around : M unit :=
  let* p := get_player in
  let* _ := lookup_room (location p) in
  let* _ := maybe_respawn_mob (location p) in
  let* room := lookup_room (location p) in
  let* _ := write_line (MsgLocation (r_name room)) in
  let* _ := write_line (MsgDescription (description room)) in
  let* _ := match items room with
            | [] => ret tt
            | _ => let* _ := write_line MsgItemsHeader in
                   write_lines (MsgItem <$> items room)
            end in
  let* _ := match live_enemy room with
            | Some e => write_line (MsgHostile (e_name e) (e_hp e))
            | None => ret tt
            end in
  write_line (MsgExits (visible_exits room)).

Definition move_player (direction : string) : M unit :=
  let* p := get_player in
  let* room := lookup_room (location p) in
  match exit_not_none room direction with
  | None => write_line MsgCantGo
  | Some new_room_id =>
      let* _ := put_player (set_location p new_room_id) in
      look_around
  end.

Definition heal_player : M unit :=
  let* p := get_player in
  if decide (max_hp p <= hp p) then write_line MsgFullHealth
  else
    let* heal_amount := randint 5 15 in
    let p1 := set_hp p (Z.min (hp p + heal_amount) (max_hp p)) in
    let* _ := put_player p1 in
    write_line (MsgPatchUp heal_amount (hp p1)).

Definition attack_enemy : M unit :=
  let* p := get_player in
  let* room := lookup_room (location p) in
  match live_enemy room with
  | None => write_line MsgNothingToAttack
  | Some enemy0 =>
      let* r := randint (calculate_attack p - 2) (calculate_attack p + 2) in
      let player_damage := if decide (r < 0) then 0 else r in
      let enemy := set_e_hp enemy0 (e_hp enemy0 - player_damage) in
      let* _ := modify_room (location p) (fun r => set_enemy r (Some enemy)) in
      let* _ := write_line (MsgLashOut (e_name enemy) player_damage (e_hp enemy)) in
      if decide (e_hp enemy <= 0) then
        let* _ := write_line (MsgDefeated (e_name enemy)) in
        let* _ := write_line (MsgGainExp (exp_reward enemy)) in
        let* _ := put_player (add_experience p (exp_reward enemy)) in
        let* p1 := get_player in
        match (tasks p1 !! "stun_opponent" : option bool) with
        | None => raise (KeyError "stun_opponent")
        | Some stunned =>
            let* _ := if negb stunned then
                        let* _ := put_player
                          (set_tasks p1 (<["stun_opponent" := true]> (tasks p1))) in
                        write_line MsgTaskStunned
                      else ret tt in
            handle_mob_death (location p)
        end
      else
        let* enemy_damage := randint 1 (attack_power enemy) in
        let p1 := set_hp p (hp p - enemy_damage) in
        let* _ := put_player p1 in
        let* _ := write_line (MsgCounter (e_name enemy) enemy_damage (hp p1)) in
        if decide (hp p1 <= 0) then
          let* _ := write_line MsgSuccumb in
          heal_player
        else ret tt
  end.

(** [list.remove(x)]: delete the first occurrence. *)
Fixpoint list_remove (x : string) (l : list string) : list string :=
  match l with
  | [] => []
  | y :: l' => if decide (y = x) then l' else y :: list_remove x l'
  end.

Definition pickup_item (item_name : string) : M unit :=
  let* p := get_player in
  let* room := lookup_room (location p) in
  if bool_decide (item_name ∈ items room) then
    let* _ := modify_room (location p)
                (fun r => set_items r (list_remove item_name (items r))) in
    let* _ := put_player (set_inventory p (inventory p ++ [item_name])) in
    write_line (MsgPickUp item_name)
  else write_line MsgItemNotHere.

Definition drop_item (item_name : string) : M unit :=
  let* p := get_player in
  if bool_decide (item_name ∈ inventory p) then
    let p1 := set_inventory p (list_remove item_name (inventory p)) in
    let* _ := put_player p1 in
    let* _ := lookup_room (location p1) in
    let* _ := modify_room (location p1)
                (fun r => set_items r (items r ++ [item_name])) in
    write_line (MsgDropped item_name)
  else write_line MsgDontHaveItem.

(** [sub in s] on strings. *)
Fixpoint str_contains (sub s : string) : bool :=
  String.prefix sub s ||
  match s with
  | EmptyString => false
  | String _ s' => str_contains sub s'
  end.

Definition use_item (item_name : string) : M unit :=
  let* p := get_player in
  if bool_decide (item_name ∈ inventory p) then
    if str_contains "healing_potion" item_name then
      let* heal_amount := randint 20 40 in
      let p1 := set_hp p (Z.min (hp p + heal_amount) (max_hp p)) in
      let* _ := put_player p1 in
      let* _ := write_line (MsgDrinkPotion heal_amount (hp p1)) in
      put_player (set_inventory p1 (list_remove item_name (inventory p1)))
    else write_line MsgCantUse
  else write_line MsgNotInBag.

(** [Player.get_class_skill_name] *)
Definition get_class_skill_name : M string :=
  let* p := get_player in
  match CLASS_STATS !! player_class p with
  | Some st => ret (cs_skill_name st)
  | None => raise (KeyError (player_class p))
  end.

(** The widget changes of the "Game Over" branch of [use_class_skill]. *)
Definition game_over_gui (g : Gui) : Gui :=
  mkGui false false false (btn_pomo_pause g) false false false.

Definition use_class_skill : M unit :=
  let* p := get_player in
  let* room := lookup_room (location p) in
  match live_enemy room with
  | None => write_line MsgNoEnemyForSkill
  | Some enemy0 =>
      let* skill_name := get_class_skill_name in
      let* dmg_boost := randint 10 15 in
      let enemy := set_e_hp enemy0 (e_hp enemy0 - dmg_boost) in
      let* _ := modify_room (location p) (fun r => set_enemy r (Some enemy)) in
      let* _ := write_line (MsgUseSkill skill_name dmg_boost (e_hp enemy)) in
      if decide (e_hp enemy <= 0) then
        let* _ := write_line (MsgDefeated (e_name enemy)) in
        let* _ := write_line (MsgGainExp (exp_reward enemy)) in
        let* _ := put_player (add_experience p (exp_reward enemy)) in
        let* p1 := get_player in
        match (tasks p1 !! "stun_opponent" : option bool) with
        | None => raise (KeyError "stun_opponent")
        | Some stunned =>
            let* _ := if negb stunned then
                        let* _ := put_player
                          (set_tasks p1 (<["stun_opponent" := true]> (tasks p1))) in
                        write_line MsgTaskStunned
                      else ret tt in
            handle_mob_death (location p)
        end
      else
        let* retal_damage := randint 1 (attack_power enemy) in
        let p1 := set_hp p (hp p - retal_damage) in
        let* _ := put_player p1 in
        let* _ := write_line (MsgRetaliates (e_name enemy) retal_damage (hp p1)) in
        if decide (hp p1 <= 0) then
          let* _ := write_line MsgGameOver in
          let* g := get_gui in
          put_gui (game_over_gui g)
        else ret tt
  end.

(** ** Automation policy *)

Definition auto_move_directions : list string :=
  ["north"; "west"; "east"; "south"].

Definition auto_attack_if_enemy : M unit :=
  let* p := get_player in
  let* room := lookup_room (location p) in
  match live_enemy room with
  | Some _ => attack_enemy
  | None => ret tt
  end.

(** The [for _ in range(len(self.auto_move_directions))] loop, with [n]
    iterations left; [current_room] is the room read before the loop. *)
Fixpoint probe_directions (n : nat) (current_room : Room) : M unit :=
  match n with
  | O => ret tt
  | S n' =>
      let* i := get_auto_move_index in
      match auto_move_directions !! i with
      | None => raise IndexError
      | Some dir_ =>
          let* _ := put_auto_move_index
                      ((i + 1) mod length auto_move_directions)%nat in
          if exit_truthy current_room dir_ then move_player dir_
          else probe_directions n' current_room
      end
  end.

Definition auto_move_and_attack : M unit :=
  let* p := get_player in
  let* current_room := lookup_room (location p) in
  match live_enemy current_room with
  | Some _ => auto_attack_if_enemy
  | None =>
      if decide (hp p < max_hp p) then heal_player
      else
        match exits current_room with
        | [] => ret tt
        | _ =>
            let* _ := probe_directions (length auto_move_directions)
                                       current_room in
            auto_attack_if_enemy
        end
  end.

(** ** Save and load *)

Definition put_save_file (f : option json) : M unit :=
  fun w => (Return tt, set_save_file w f).

Definition get_save_file : M (option json) :=
  fun w => (Return (save_file w), w).

(** The dictionary literal [data] of [save_game]. *)
Definition save_data (p : Player) : gmap string json :=
  list_to_map
    [ ("name", JStr (name p));
      ("player_class", JStr (player_class p));
      ("level", JInt (level p));
      ("exp", JInt (exp p));
      ("max_hp", JInt (max_hp p));
      ("hp", JInt (hp p));
      ("base_attack", JInt (base_attack p));
      ("inventory", JArr (JStr <$> inventory p));
      ("location", JStr (location p));
      ("tasks", JObj (JBool <$> tasks p));
      ("pomodoro_streak", JInt (pomodoro_streak p)) ].

(** [save_game]: [data] is written to [SAVE_FILE]. *)
Definition save_game (p : Player) : M unit :=
  put_save_file (Some (JObj (save_data p))).

(** [data[key]] *)
Definition json_get (data : json) (key : string) : M json :=
  match data with
  | JObj m =>
      match m !! key with
      | Some v => ret v
      | None => raise (KeyError key)
      end
  | _ => raise TypeError
  end.

(** Readers of the field values. Python stores whatever value the file
    holds; the typed [Player] record cannot, so a value of another JSON type
    is reported as [TypeError] here. *)
Definition as_str (v : json) : M string :=
  match v with JStr s => ret s | _ => raise TypeError end.

Definition as_int (v : json) : M Z :=
  match v with JInt z => ret z | _ => raise TypeError end.

Definition str_of (v : json) : option string :=
  match v with JStr s => Some s | _ => None end.

Definition bool_of (v : json) : option bool :=
  match v with JBool b => Some b | _ => None end.

Definition as_inventory (v : json) : M (option (list string)) :=
  match v with
  | JNull => ret None
  | JArr l =>
      match mapM str_of l with
      | Some l' => ret (Some l')
      | None => raise TypeError
      end
  | _ => raise TypeError
  end.

Definition as_tasks (v : json) : M (option (gmap string bool)) :=
  match v with
  | JNull => ret None
  | JObj m =>
      let t : gmap string bool := omap bool_of m in
      if decide (dom t = dom m) then ret (Some t) else raise TypeError
  | _ => raise TypeError
  end.

Definition load_game : M (option Player) :=
  let* f := get_save_file in
  match f with
  | None => ret None
  | Some data =>
      let* v := json_get data "name" in let* name := as_str v in
      let* v := json_get data "player_class" in let* player_class := as_str v in
      let* v := json_get data "level" in let* level := as_int v in
      let* v := json_get data "exp" in let* exp := as_int v in
      let* v := json_get data "max_hp" in let* max_hp := as_int v in
      let* v := json_get data "hp" in let* hp := as_int v in
      let* v := json_get data "base_attack" in let* base_attack := as_int v in
      let* v := json_get data "inventory" in let* inventory := as_inventory v in
      let* v := json_get data "location" in let* location := as_str v in
      let* v := json_get data "tasks" in let* tasks := as_tasks v in
      let* v := json_get data "pomodoro_streak" in let* pomodoro_streak := as_int v in
      ret (Some (Player_init name player_class level exp max_hp hp base_attack
                             inventory location tasks pomodoro_streak))
  end.

(** The four buttons enabled when a game starts. *)
Definition game_started_gui (g : Gui) : Gui :=
  mkGui true (command_entry g) true true true
        (pomodoro_running g) (pomodoro_in_break g).

(** [new_game]; the arguments are the answers of the two dialogs ([None]
    when a dialog is cancelled). *)
Definition new_game (name_answer class_answer : option string) : M unit :=
  let name :=
    match name_answer with
    | Some n => if decide (n = "") then "idleHero" else n
    | None => "idleHero"
    end in
  let class_choice :=
    match class_answer with
    | Some c =>
        if decide (c = "") then "warrior"
        else if decide (is_Some (CLASS_STATS !! lower c)) then c
        else "warrior"
    | None => "warrior"
    end in
  match CLASS_STATS !! lower class_choice with
  | None => raise (KeyError (lower class_choice))
  | Some base_stats =>
      let* _ := put_player
        (Player_init name (lower class_choice) 1 0
           (cs_max_hp base_stats) (cs_max_hp base_stats)
           (cs_base_attack base_stats) None "temple_of_stillness" None 0) in
      let* _ := clear_output in
      let* p := get_player in
      let* _ := write_line (MsgWelcome (name) (player_class p)) in
      let* _ := write_line MsgNewWorld in
      let* g := get_gui in
      let* _ := put_gui (game_started_gui g) in
      look_around
  end.

Definition load_game_action : M unit :=
  let* loaded_player := load_game in
  match loaded_player with
  | Some p =>
      let* _ := put_player p in
      let* _ := clear_output in
      let* _ := write_line (MsgWelcomeBack (name p) (player_class p)) in
      let* _ := look_around in
      let* g := get_gui in
      put_gui (game_started_gui g)
  | None => write_line MsgNoSavedGame
  end.

(** The [stats] command: [Player.stats_text] prints every attribute. *)
Definition show_stats : M unit :=
  let* p := get_player in
  write_line (MsgStats p).

(** [self.player.tasks[key]] *)
Definition task_flag (key : string) : M bool :=
  let* p := get_player in
  match tasks p !! key with
  | Some flag => ret flag
  | None => raise (KeyError key)
  end.

Definition show_tasks : M unit :=
  let* daily := task_flag "complete_daily_job" in
  let* stream := task_flag "drink_from_stream" in
  let* stun := task_flag "stun_opponent" in
  write_line (MsgTasks daily stream stun).

Definition save_game_action : M unit :=
  let* p := get_player in
  let* _ := save_game p in
  write_line MsgGameSaved.

(** ** Runs of the program

    A command is one callback of the window: a parsed text command, a
    button, or one tick of the focus timer ([help], [quit] and the timer
    buttons, which touch neither the player nor the rooms, are left out).
    Tk reports an exception raised by a callback and keeps running, so a
    run continues from the state the callback left. Between callbacks the
    clock moves. *)
Inductive Command :=
  | CmdLook
  | CmdMove (direction : string)
  | CmdAttack
  | CmdHeal
  | CmdPickup (item_name : string)
  | CmdDrop (item_name : string)
  | CmdUse (item_name : string)
  | CmdSkill
  | CmdTick
  | CmdNewGame (name_answer class_answer : option string)
  | CmdLoadGame
  | CmdSaveGame
  | CmdStats
  | CmdTaskList.

Definition execute (c : Command) : M unit :=
  match c with
  | CmdLook => look_around
  | CmdMove direction => move_player direction
  | CmdAttack => attack_enemy
  | CmdHeal => heal_player
  | CmdPickup item_name => pickup_item item_name
  | CmdDrop item_name => drop_item item_name
  | CmdUse item_name => use_item item_name
  | CmdSkill => use_class_skill
  | CmdTick => auto_move_and_attack
  | CmdNewGame name_answer class_answer => new_game name_answer class_answer
  | CmdLoadGame => load_game_action
  | CmdSaveGame => save_game_action
  | CmdStats => show_stats
  | CmdTaskList => show_tasks
  end.

(** The commands that reach [look_around], the only caller of
    [maybe_respawn_mob]. *)
Definition observes_room (c : Command) : bool :=
  match c with
  | CmdLook | CmdMove _ | CmdTick | CmdNewGame _ _ | CmdLoadGame => true
  | _ => false
  end.

(** One step of a run: the clock reads [t] when the command [c] runs. *)
Definition run_step (w : World) (s : Z * Command) : World :=
  snd (execute (snd s) (set_clock w (fst s))).

Definition run_steps (steps : list (Z * Command)) (w : World) : World :=
  fold_left run_step steps w.

(** ** Actions of the automation policy *)

Inductive Action :=
  | ActMove (direction : string)
  | ActAttack
  | ActHeal.

Definition perform (a : Action) : M unit :=
  match a with
  | ActMove direction => move_player direction
  | ActAttack => attack_enemy
  | ActHeal => heal_player
  end.

Fixpoint perform_all (acts : list Action) : M unit :=
  match acts with
  | [] => ret tt
  | a :: acts' => let* _ := perform a in perform_all acts'
  end.

Definition is_move (a : Action) : bool :=
  match a with ActMove _ => true | _ => false end.

Definition moves (acts : list Action) : nat :=
  length (filter (fun a => is_move a = true) acts).

Definition fights (acts : list Action) : nat :=
  length (filter (fun a => is_move a = false) acts).

(** ** The map: the [rooms] dictionary as the module creates it *)

Definition initial_rooms : gmap string Room :=
  list_to_map [
    ("temple_of_stillness",
     Room_init "Temple of Stillness in Gad's Landing"
       "This chamber is filled with hypnotic, shifting colors of light.
Walls, floor, and ceiling are crafted from timbers and wood.
A simple, unadorned jet-black altar sits at the far end."
       [("northwest", Some "downtown_gads_landing"); ("east", Some "outer_courtyard")]
       ["pair_of_red_fur_claws"; "pair_of_red_fur_claws"; "pair_of_red_fur_claws"]);
    ("outer_courtyard",
     Room_init "Outer Courtyard"
       "An open courtyard surrounded by tall stone walls. The ground is dusty
and scattered with training dummies. A path leads back west or east.
A massive gate to the north leads toward a looming castle."
       [("west", Some "temple_of_stillness"); ("east", Some "training_ground"); ("north", Some "castle_entrance")]
       ["training_dummy"]);
    ("training_ground",
     Room_init "Training Ground"
       "A broad training yard with weapon racks and straw targets. Trainees
practice their skills here. Exits lie to the west and southeast."
       [("west", Some "outer_courtyard"); ("southeast", Some "downtown_gads_landing")]
       ["wooden_sword"]);
    ("downtown_gads_landing",
     Room_init "Downtown Gad's Landing"
       "A large circular section of town with paths heading off in all directions.
Shade trees and flowers line the sides of various buildings."
       [("north", Some "gads_way_road"); ("south", Some "back_alley"); ("east", Some "outer_courtyard")]
       ["greeting_ranger"; "huge_portal"; "stone_statue"]);
    ("gads_way_road",
     Room_init "Gad's Way Road"
       "A dirt path lined with shade trees on both sides. Occasional wooden buildings
can be spotted through the leafy canopy. The path continues east or south
and branches north into farmland."
       [("east", Some "forest_path"); ("south", Some "downtown_gads_landing"); ("north", Some "farmland_1")]
       []);
    ("forest_path",
     Room_init "A path through the forest"
       "Leaves and wildflowers border this trail. Footprints of all shapes and sizes
suggest many have passed here. Birds chirp all around."
       [("west", Some "gads_way_road"); ("east", Some "ridge_fork")]
       ["blood_red_bird"]);
    ("ridge_fork",
     Room_init "A ridge splits the path (Level 22+ Recommended)"
       "Towering oaks line the wide path to the east and west. A large sign warns of
danger ahead. This is a fork in the road leading south and west."
       [("west", Some "forest_path"); ("south", Some "ridge_path")]
       ["warning_sign"]);
    ("ridge_path",
     Room_init "Following the ridge"
       "A semi-wide trail around the mountain ridge. Rocks lie scattered about. Stunted
trees and patchy grass cling to either side."
       [("north", Some "ridge_fork"); ("south", Some "ridge_path_2"); ("east", Some "mountain_pass_1")]
       []);
    ("ridge_path_2",
     Room_init "Following the ridge (continued)"
       "The path grows rockier as it skirts the mountainside. The forest thins out,
leaving heaps of jagged stones scattered all over."
       [("north", Some "ridge_path")]
       ["blood_red_bear"]);
    ("back_alley",
     Room_init "A shady back alley"
       "Dark and narrow, this alley reeks of garbage. You see flickers of movement
in the shadows. A path leads back north to the downtown.
An opening to the south leads into the city slums."
       [("north", Some "downtown_gads_landing"); ("south", Some "city_slums_1")]
       ["discarded_bottle"]);
    ("castle_entrance",
     Room_init "Castle Entrance"
       "Massive iron gates mark the entrance to an imposing castle. Torches flicker
on either side of the entrance. You can return south to the courtyard or
venture deeper north into the castle halls."
       [("south", Some "outer_courtyard"); ("north", Some "castle_hall_1")]
       ["rusted_shield"]);
    ("castle_hall_1",
     Room_init "Castle Hallway (Section 1)"
       "A grand hallway adorned with faded tapestries. The air is chill,
and your footsteps echo on the stone floor. Passage continues north."
       [("south", Some "castle_entrance"); ("north", Some "castle_hall_2")]
       ["torn_tapestry"]);
    ("castle_hall_2",
     Room_init "Castle Hallway (Section 2)"
       "More corridors branch off here, but most are barred or collapsed.
A spiral staircase leads further north into darkness."
       [("south", Some "castle_hall_1"); ("north", Some "castle_hall_3")]
       ["broken_lance"]);
    ("castle_hall_3",
     Room_init "Castle Hallway (Section 3)"
       "Cobwebs cover the corners, and old suits of armor stand like sentinels.
A faint draft from further north hints at a larger chamber ahead."
       [("south", Some "castle_hall_2"); ("north", Some "castle_hall_4")]
       ["dusty_armor"]);
    ("castle_hall_4",
     Room_init "Castle Great Hall"
       "An expansive hall opens up here, with a vaulted ceiling and a
long-abandoned throne at the far side. A massive chandelier lies
shattered on the floor. The only exit is back south."
       [("south", Some "castle_hall_3")]
       ["ancient_throne"; "shattered_chandelier"]);
    ("mountain_pass_1",
     Room_init "Mountain Pass (Entrance)"
       "A narrow path leads east along the mountainside. Sharp winds chill the air.
To the west, the ridge path can be seen disappearing behind rocky slopes."
       [("west", Some "ridge_path"); ("east", Some "mountain_pass_2")]
       ["stone_marker"]);
    ("mountain_pass_2",
     Room_init "Mountain Pass (Cliffside)"
       "The trail clings to the edge of a steep cliff. Pebbles occasionally
tumble off the side, vanishing into mist below. The path continues east."
       [("west", Some "mountain_pass_1"); ("east", Some "mountain_pass_3")]
       ["loose_rocks"]);
    ("mountain_pass_3",
     Room_init "Mountain Pass (Midway)"
       "High-altitude air stings your lungs. A frigid breeze sweeps by.
A narrow ledge stretches on to the east, while the safer route is west."
       [("west", Some "mountain_pass_2"); ("east", Some "mountain_pass_4")]
       ["weathered_sign"]);
    ("mountain_pass_4",
     Room_init "Mountain Pass (Nearing Summit)"
       "The path widens slightly here, offering a precarious view of the
valley below. Clouds swirl around the peaks. An icy slope climbs
further east toward the summit."
       [("west", Some "mountain_pass_3"); ("east", Some "mountain_pass_5")]
       ["broken_spike"]);
    ("mountain_pass_5",
     Room_init "Mountain Summit"
       "At last, the peak! A small plateau offers a panoramic view of the
lands below. Fierce winds batter this exposed location. You can only
go back west."
       [("west", Some "mountain_pass_4")]
       ["eagle_feather"]);
    ("city_slums_1",
     Room_init "City Slums (Entrance)"
       "Narrow shacks and ragged tents crowd this area. The smell is foul,
and wary eyes watch from every dark corner. You can go north
back to the alley or further south deeper into the slums."
       [("north", Some "back_alley"); ("south", Some "city_slums_2")]
       ["filthy_rag"]);
    ("city_slums_2",
     Room_init "City Slums (Row of Shacks)"
       "Leaning shacks line the alleyways, their walls patched with scrap wood.
Children dart around, curious yet cautious of strangers."
       [("north", Some "city_slums_1"); ("south", Some "city_slums_3")]
       ["ripped_blanket"]);
    ("city_slums_3",
     Room_init "City Slums (Market Corner)"
       "A makeshift market: old crates serving as stalls, selling dubious
food and second-hand trinkets. It's possible to continue south."
       [("north", Some "city_slums_2"); ("south", Some "city_slums_4")]
       ["moldy_bread"; "rusty_coin"]);
    ("city_slums_4",
     Room_init "City Slums (Cramped Passage)"
       "Barely wide enough for a single person, this crooked lane weaves
through the makeshift homes. The passage continues south."
       [("north", Some "city_slums_3"); ("south", Some "city_slums_5")]
       []);
    ("city_slums_5",
     Room_init "City Slums (Gathering Spot)"
       "A slightly open clearing where a few slum dwellers gather to chat,
cook, or trade. There's an air of desperation but also camaraderie."
       [("north", Some "city_slums_4"); ("south", Some "city_slums_6")]
       ["charcoal_fire"]);
    ("city_slums_6",
     Room_init "City Slums (Abandoned Cart)"
       "An old, broken cart sits here, half-looted. Pieces of cloth hang
off the sides, and you can see more rickety homes to the south."
       [("north", Some "city_slums_5"); ("south", Some "city_slums_7")]
       ["broken_wheel"]);
    ("city_slums_7",
     Room_init "City Slums (Deep Alley)"
       "The alley gets darker and narrower, the smell of garbage intensifies.
A few suspicious figures loiter here, keeping to the shadows."
       [("north", Some "city_slums_6"); ("south", Some "city_slums_8")]
       ["makeshift_knife"]);
    ("city_slums_8",
     Room_init "City Slums (Worn Stairway)"
       "A crumbling stairway descends slightly, leading to an even lower
section of the slums. The air is humid and stale."
       [("north", Some "city_slums_7"); ("south", Some "city_slums_9")]
       ["broken_stair"]);
    ("city_slums_9",
     Room_init "City Slums (Sunken Square)"
       "Here, the ground is below street level, forming a sunken courtyard.
Shack rooftops rise around you, blocking most light. Further south
there might be a way out."
       [("north", Some "city_slums_8"); ("south", Some "city_slums_10")]
       ["scrap_rope"]);
    ("city_slums_10",
     Room_init "City Slums (Dead End)"
       "The makeshift path ends abruptly at a collapsed building. There's
no way forward, so the only path is back north."
       [("north", Some "city_slums_9")]
       ["charred_debris"]);
    ("farmland_1",
     Room_init "Farmland (Near Road)"
       "Low wooden fences and tilled soil mark the start of open farmland.
The road is back south, and you can move further north to more fields."
       [("south", Some "gads_way_road"); ("north", Some "farmland_2")]
       ["scarecrow"]);
    ("farmland_2",
     Room_init "Farmland (Cornfield)"
       "Tall corn stalks rustle in the breeze, forming a rust-gold sea.
A narrow path continues north between the rows."
       [("south", Some "farmland_1"); ("north", Some "farmland_3")]
       ["bundle_of_corn"]);
    ("farmland_3",
     Room_init "Farmland (Barn)"
       "A weathered barn stands here, paint peeling from the siding. The
scent of hay drifts from inside. You can continue north or go back south."
       [("south", Some "farmland_2"); ("north", Some "farmland_4")]
       ["hay_bale"]);
    ("farmland_4",
     Room_init "Farmland (Wheat Fields)"
       "Rows of ripe wheat shimmer under the sun. You hear the chirp of crickets
and see a path heading north again."
       [("south", Some "farmland_3"); ("north", Some "farmland_5")]
       ["wheat_bundle"]);
    ("farmland_5",
     Room_init "Farmland (Orchard Edge)"
       "A small orchard of apple trees lines the fence. Fallen fruit litters
the ground. You can move further north."
       [("south", Some "farmland_4"); ("north", Some "farmland_6")]
       ["apple"]);
    ("farmland_6",
     Room_init "Farmland (Orchard Center)"
       "Deeper in the orchard, branches intertwine overhead. Baskets filled
with apples and pears lie about, some half-rotten."
       [("south", Some "farmland_5"); ("north", Some "farmland_7")]
       ["fruit_basket"]);
    ("farmland_7",
     Room_init "Farmland (Cattle Field)"
       "Wide grassy fields dotted with cows grazing lazily. A wooden gate to the
north leads to another part of the farm."
       [("south", Some "farmland_6"); ("north", Some "farmland_8")]
       ["cow_bell"]);
    ("farmland_8",
     Room_init "Farmland (Pond)"
       "A small pond reflects the sky. Ducks float on the surface, quacking occasionally.
You can head north or back south."
       [("south", Some "farmland_7"); ("north", Some "farmland_9")]
       ["duck_feather"]);
    ("farmland_9",
     Room_init "Farmland (Storeroom Shed)"
       "A wooden shed used to store tools and seeds. Its door creaks loudly.
You see a path north that leads to a grassy trail."
       [("south", Some "farmland_8"); ("north", Some "farmland_10")]
       ["bag_of_seeds"; "rusty_shovel"]);
    ("farmland_10",
     Room_init "Farmland (Grassy Trail)"
       "The farmland begins to merge with rolling hills. The wind is stronger
here, rustling the grass. You can only return south."
       [("south", Some "farmland_9")]
       ["tall_grass"]);
    ("cavern_1",
     Room_init "Cavern Entrance"
       "A small cave entrance yawns at the base of a hill. Cool air wafts
out from within. You can step inside north or go back south."
       [("south", Some "farmland_10"); ("north", Some "cavern_2")]
       ["damp_rocks"]);
    ("cavern_2",
     Room_init "Cavern (Twilight Zone)"
       "Dim light filters in from the entrance behind you. Stalactites hang
from above, and you hear dripping water. Passage continues north."
       [("south", Some "cavern_1"); ("north", Some "cavern_3")]
       ["small_stalactite"]);
    ("cavern_3",
     Room_init "Cavern (Shallow Pool)"
       "A shallow pool blocks part of the path, reflecting the ceiling.
You might wade through it, continuing north, or retreat south."
       [("south", Some "cavern_2"); ("north", Some "cavern_4")]
       ["glowing_moss"]);
    ("cavern_4",
     Room_init "Cavern (Crystal Vein)"
       "Sparkling crystals emerge from the cavern walls, refracting any
light into dazzling patterns. You can move further north."
       [("south", Some "cavern_3"); ("north", Some "cavern_5")]
       ["crystal_shard"]);
    ("cavern_5",
     Room_init "Cavern (Crossroad)"
       "Here the cave branches in multiple directions. A sign scratched
onto stone warns of danger ahead. Forward is north, or go back."
       [("south", Some "cavern_4"); ("north", Some "cavern_6")]
       ["worn_warning"]);
    ("cavern_6",
     Room_init "Cavern (Narrow Passage)"
       "The walls squeeze in, forcing you to sidestep around large boulders.
A faint echo suggests an opening further north."
       [("south", Some "cavern_5"); ("north", Some "cavern_7")]
       ["cave_spider_web"]);
    ("cavern_7",
     Room_init "Cavern (Underground River)"
       "A subterranean river flows here, rushing around smooth rocks.
A fragile plank bridge crosses to the north side."
       [("south", Some "cavern_6"); ("north", Some "cavern_8")]
       ["driftwood"]);
    ("cavern_8",
     Room_init "Cavern (Misty Hollow)"
       "A low-hanging fog gathers here, swirling around your ankles.
Stalagnates split the path, but a narrow route leads north."
       [("south", Some "cavern_7"); ("north", Some "cavern_9")]
       ["foggy_stone"]);
    ("cavern_9",
     Room_init "Cavern (Glowshroom Grove)"
       "Bioluminescent mushrooms cluster around a damp chamber, their soft
light revealing a faint path heading north."
       [("south", Some "cavern_8"); ("north", Some "cavern_10")]
       ["glow_shroom"]);
    ("cavern_10",
     Room_init "Cavern (Hidden Sanctuary)"
       "The deepest chamber opens into a hidden sanctuary with an
underground waterfall. It's serene, yet mysterious. Dead end here."
       [("south", Some "cavern_9")]
       ["underground_waterfall"]) ].

(** The window as [MudGameGUI.__init__] leaves it, with a player. *)
Definition initial_gui : Gui := mkGui false true false false false false false.

Definition initial_world (p : Player) (src : nat -> Z) (now : Z) : World :=
  mkWorld p initial_rooms 0 src 0 now [] None initial_gui.


(** ** Valid players

    The constraints the persistence schema puts on a player: a known class,
    a level of at least 1, non-negative experience, hit points between 0 and
    the maximum, and the three fixed task keys. *)
Definition valid_player (p : Player) : Prop :=
  is_Some (CLASS_STATS !! player_class p) /\
  1 <= level p /\
  0 <= exp p /\
  0 <= hp p <= max_hp p /\
  is_Some (tasks p !! "complete_daily_job") /\
  is_Some (tasks p !! "drink_from_stream") /\
  is_Some (tasks p !! "stun_opponent").

#[global] Instance valid_player_dec (p : Player) : Decision (valid_player p).
Proof. unfold valid_player. apply _. Defined.

(** The player [new_game] creates when both dialogs are cancelled. *)
Definition new_warrior : Player :=
  Player_init "idleHero" "warrior" 1 0 120 120 8 None
              "temple_of_stillness" None 0.

(** [sum(amounts)] *)
Definition sum_amounts (amounts : list Z) : Z := foldr Z.add 0 amounts.

(** Two players agree on the attributes that leveling changes. *)
Definition same_progress (q1 q2 : Player) : Prop :=
  level q1 = level q2 /\ exp q1 = exp q2 /\ max_hp q1 = max_hp q2 /\
  hp q1 = hp q2 /\ base_attack q1 = base_attack q2.


(** ** The values the operations draw

    [upcoming w n] is the raw number the [n]-th next draw will read, and
    [randint_value a b raw] the integer [randint] makes of it. *)
Definition upcoming (w : World) (n : nat) : Z := rand_src w (rand_pos w + n)%nat.

Definition randint_value (a b raw : Z) : Z := a + raw mod (b - a + 1).

(** [player_damage] of [attack_enemy] in state [w]: the first draw,
    clamped at zero. *)
Definition basic_damage (w : World) : Z :=
  let attack := calculate_attack (player w) in
  let r := randint_value (attack - 2) (attack + 2) (upcoming w 0) in
  if decide (r < 0) then 0 else r.

(** [dmg_boost] of [use_class_skill] in state [w]: the first draw. *)
Definition skill_damage (w : World) : Z := randint_value 10 15 (upcoming w 0).

(** The enemy's answer in either exchange: the second draw. *)
Definition retaliation_damage (w : World) (e : Enemy) : Z :=
  randint_value 1 (attack_power e) (upcoming w 1).

(** The state with [n] more random numbers consumed and the lines [ms]
    written. *)
Definition consumed (w : World) (n : nat) : World :=
  set_rand_pos w (rand_pos w + n)%nat.

Definition written (w : World) (ms : list Msg) : World :=
  set_output w (output w ++ ms).


(** ** States an exchange leads to *)

(** The player after a kill: experience awarded, task flag set. *)
Definition victor (p : Player) (e : Enemy) : Player :=
  set_tasks (add_experience p (exp_reward e))
            (<["stun_opponent" := true]> (tasks p)).

(** The room after [handle_mob_death] at time [now]. *)
Definition emptied_room (room : Room) (now : Z) : Room :=
  set_respawn_timer (set_enemy room None) (now + RESPAWN_TIME).

(** The room after a hit of [d] points on its enemy [e]. *)
Definition hit_room (room : Room) (e : Enemy) (d : Z) : Room :=
  set_enemy room (Some (set_e_hp e (e_hp e - d))).

(** The state after a killing blow: one number drawn, the player rewarded,
    the current room emptied, the lines [msgs] written. *)
Definition after_kill (w : World) (room : Room) (e : Enemy)
    (msgs : list Msg) : World :=
  written
    (set_rooms
       (set_player (consumed w 1) (victor (player w) e))
       (<[location (player w) := emptied_room room (clock w)]> (rooms w)))
    msgs.

(** The state after a hit of [d] points answered by [r] points: two numbers
    drawn, the enemy and the player damaged, the lines [msgs] written. *)
Definition after_counter (w : World) (room : Room) (e : Enemy) (d r : Z)
    (msgs : list Msg) : World :=
  written
    (set_rooms
       (set_player (consumed w 2) (set_hp (player w) (hp (player w) - r)))
       (<[location (player w) := hit_room room e d]> (rooms w)))
    msgs.

(** The state after a hit of [d] points when the answer cannot be drawn. *)
Definition after_hit (w : World) (room : Room) (e : Enemy) (d : Z)
    (msgs : list Msg) : World :=
  written
    (set_rooms (consumed w 1)
       (<[location (player w) := hit_room room e d]> (rooms w)))
    msgs.


(** ** Observations on states *)

(** The [i]-th line written while the state went from [w] to [w']. *)
Definition new_line (w w' : World) (i : nat) : option Msg :=
  output w' !! (length (output w) + i)%nat.

(** The enemy referenced by the room stored under [key]. *)
Definition enemy_at (w : World) (key : string) : option Enemy :=
  match rooms w !! key with
  | Some r => enemy r
  | None => None
  end.

(** ** Sample states *)

Definition anti_claws : Enemy := Enemy_init "Anti Claws" 100 12 50.

(** The map with the enemy [e] spawned in the room [key]. *)
Definition rooms_with_enemy (key : string) (e : Enemy) : gmap string Room :=
  alter (fun r => set_enemy r (Some e)) key initial_rooms.

(** A started game in which the player [p] faces the enemy [e]. *)
Definition duel_world (p : Player) (e : Enemy) (src : nat -> Z) : World :=
  mkWorld p (rooms_with_enemy (location p) e) 0 src 0 1000 [] None
          (game_started_gui initial_gui).

(** A started game on the map without enemies. *)
Definition quiet_world (p : Player) (src : nat -> Z) : World :=
  mkWorld p initial_rooms 0 src 0 1000 [] None (game_started_gui initial_gui).

(** A source of raw numbers given by its first values (0 afterwards). *)
Definition raw_numbers (l : list Z) : nat -> Z := fun n => nth n l 0.


(** The enemy of the kill scenario: 10 hit points, attack power 5. *)
Definition weak_enemy : Enemy := Enemy_init "Angry Turkey" 10 5 20.


(** The template [random.choice(ENEMY_POOL)] picks for the raw number
    [raw], as an enemy. *)
Definition spawned_enemy (raw : Z) : option Enemy :=
  match ENEMY_POOL !! Z.to_nat (raw mod Z.of_nat (length ENEMY_POOL)) with
  | Some chosen =>
      Some (Enemy_init (t_name chosen) (t_hp chosen)
                       (t_attack_power chosen) (t_exp chosen))
  | None => None
  end.

(** The lines [look_around] writes for a room. *)
Definition room_view (room : Room) : list Msg :=
  [MsgLocation (r_name room); MsgDescription (description room)]
  ++ match items room with
     | [] => []
     | _ => MsgItemsHeader :: (MsgItem <$> items room)
     end
  ++ match live_enemy room with
     | Some e => [MsgHostile (e_name e) (e_hp e)]
     | None => []
     end
  ++ [MsgExits (visible_exits room)].

(** The room stored under [key] has no enemy and the respawn deadline
    [deadline]: the condition [handle_mob_death] establishes. *)
Definition vacant_until (key : string) (deadline : Z) (w : World) : Prop :=
  exists room,
    rooms w !! key = Some room /\ enemy room = None /\
    respawn_timer room = deadline.


(** An operation that leaves the state as it found it, whatever it
    returns or raises. *)
Definition stateless {A : Type} (m : M A) : Prop :=
  forall w, snd (m w) = w.


#[global] Instance EnemyTemplate_eq_dec : EqDecision EnemyTemplate.
Proof. solve_decision. Defined.

(** The enemy [Room.spawn_enemy] builds from a template. *)
Definition instantiate (chosen : EnemyTemplate) : Enemy :=
  Enemy_init (t_name chosen) (t_hp chosen) (t_attack_power chosen)
             (t_exp chosen).


(** ** Further observations *)

(** The experience a player has gathered since level 1: the thresholds
    [100], [200], ... of the levels already passed, plus the current
    experience. *)
Definition total_experience (p : Player) : Z :=
  50 * level p * (level p - 1) + exp p.

(** How often [x] occurs in a list of item names. *)
Definition count_item (x : string) (l : list string) : nat :=
  length (filter (fun y => y = x) l).

(** The copies of [x] that the player carries or that lie in the current
    room. *)
Definition item_total (w : World) (x : string) : nat :=
  (count_item x (inventory (player w))
   + match rooms w !! location (player w) with
     | Some room => count_item x (items room)
     | None => 0
     end)%nat.

(** What [Player.__init__] makes of the attributes of [p]. *)
Definition reloaded (p : Player) : Player :=
  Player_init (name p) (player_class p) (level p) (exp p) (max_hp p) (hp p)
              (base_attack p) (Some (inventory p)) (location p)
              (Some (tasks p)) (pomodoro_streak p).

(** ** The order in which a tick tries the directions *)

(** The directions as the loop of [auto_move_and_attack] reads them when it
    starts with the cursor at [i]: from the [i]-th on, then from the
    start. *)
Definition scan_order (i : nat) : list string :=
  drop i auto_move_directions ++ take i auto_move_directions.

(** The first direction in that order that leads out of [room], with the
    number of directions tried before it. *)
Definition first_open_exit (room : Room) (i : nat) : option (nat * string) :=
  list_find (fun d => Is_true (exit_truthy room d)) (scan_order i).

(** ** States of a session

    The conditions that hold when the window has been created and a game
    has been started, and that every callback keeps. *)

(** The attributes of a room that no operation assigns. *)
Definition room_plan (r : Room)
    : string * string * list (string * option string) :=
  (r_name r, description r, exits r).

(** An enemy made from a template of [ENEMY_POOL], possibly hit since, but
    with hit points left. *)
Definition pool_enemy (e : Enemy) : Prop :=
  exists chosen,
    chosen ∈ ENEMY_POOL /\
    e_name e = t_name chosen /\
    attack_power e = t_attack_power chosen /\
    exp_reward e = t_exp chosen /\
    alive e = true /\
    0 < e_hp e <= t_hp chosen.

(** The rooms are those of the module, with their names, descriptions and
    exits, and the enemies they reference come from the pool. *)
Definition sound_rooms (rs : gmap string Room) : Prop :=
  room_plan <$> rs = room_plan <$> initial_rooms /\
  forall key room e,
    rs !! key = Some room -> enemy room = Some e -> pool_enemy e.

(** The player has a known class, the statistics of that class at the
    player's level, less experience than the next level needs, no more hit
    points than the maximum, the three task flags, and stands in a room of
    the map. *)
Definition sound_player (p : Player) : Prop :=
  exists st,
    CLASS_STATS !! player_class p = Some st /\
    1 <= level p /\
    0 <= exp p < level p * 100 /\
    max_hp p = cs_max_hp st + HP_PER_LEVEL * (level p - 1) /\
    base_attack p = cs_base_attack st + ATTACK_PER_LEVEL * (level p - 1) /\
    hp p <= max_hp p /\
    is_Some (tasks p !! "complete_daily_job") /\
    is_Some (tasks p !! "drink_from_stream") /\
    is_Some (tasks p !! "stun_opponent") /\
    is_Some (initial_rooms !! location p).

(** The save file, when there is one, was written by [save_game] for such
    a player. *)
Definition sound_save (f : option json) : Prop :=
  match f with
  | None => True
  | Some data => exists p, data = JObj (save_data p) /\ sound_player p
  end.

(** What the window provides before a game is started. *)
Definition sound_env (w : World) : Prop :=
  sound_rooms (rooms w) /\
  (auto_move_index w < length auto_move_directions)%nat /\
  sound_save (save_file w).

Definition sound (w : World) : Prop :=
  sound_player (player w) /\ sound_env w.

(** The operation [m] returns from the state [w] and leaves a sound
    state. *)
Definition returns_sound (m : M unit) (w : World) : Prop :=
  fst (m w) = Return tt /\ sound (snd (m w)).

(** The test that every exit of every room of the map leads to a room of
    the map. *)
Definition exits_closed (rs : gmap string Room) : bool :=
  forallb
    (fun kr : string * Room =>
       forallb
         (fun dx : string * option string =>
            match snd dx with
            | Some dest => bool_decide (is_Some (rs !! dest))
            | None => true
            end)
         (exits (snd kr)))
    (map_to_list rs).


(** ** The focus timer

    The timer callbacks of the window, for a started game. Besides the
    state of the game they use the countdown, the pause flag and the
    remembered countdown, the label of the timer, the callbacks registered
    with [after(1000, self.tick_pomodoro)] that have not run yet, the lines
    they write to the output area and the dialogs they show. *)

Definition POMODORO_FOCUS_TIME : Z := 60 * 25.
Definition POMODORO_BREAK_TIME : Z := 60 * 5.

Definition set_pomodoro_streak (p : Player) (v : Z) : Player :=
  mkPlayer (name p) (player_class p) (level p) (exp p) (max_hp p) (hp p)
           (base_attack p) (inventory p) (location p) (tasks p) v.

Definition set_pomodoro_running (g : Gui) (v : bool) : Gui :=
  mkGui (btn_save g) (command_entry g) (btn_pomo_start g) (btn_pomo_pause g)
        (btn_pomo_stop g) v (pomodoro_in_break g).

Definition set_pomodoro_in_break (g : Gui) (v : bool) : Gui :=
  mkGui (btn_save g) (command_entry g) (btn_pomo_start g) (btn_pomo_pause g)
        (btn_pomo_stop g) (pomodoro_running g) v.

(** The text of the timer label: "Pomodoro: Not Running", or the phase
    with the minutes and seconds left. *)
Inductive Label :=
  | LabelNotRunning
  | LabelLeft (in_break : bool) (minutes seconds : Z).

(** The lines the timer callbacks write. *)
Inductive TimerMsg :=
  | MsgAlreadyRunning
  | MsgNoSession
  | MsgFocusComplete (streak : Z)
  | MsgBreakOver.

Record Session := mkSession {
  world : World;
  pomodoro_seconds_left : Z;
  in_pause : bool;
  temp_pomodoro_seconds_left : Z;
  pomo_label : Label;
  (* callbacks registered with after() that have not run yet *)
  scheduled_ticks : nat;
  (* lines written by the timer, each with the number of lines the game
     had written to the output area before it *)
  timer_lines : list (nat * TimerMsg);
  (* messagebox.showinfo *)
  dialogs : list TimerMsg
}.

Definition set_world (s : Session) (v : World) : Session :=
  mkSession v (pomodoro_seconds_left s) (in_pause s)
            (temp_pomodoro_seconds_left s) (pomo_label s) (scheduled_ticks s)
            (timer_lines s) (dialogs s).

Definition set_pomodoro_seconds_left (s : Session) (v : Z) : Session :=
  mkSession (world s) v (in_pause s) (temp_pomodoro_seconds_left s)
            (pomo_label s) (scheduled_ticks s) (timer_lines s) (dialogs s).

Definition set_in_pause (s : Session) (v : bool) : Session :=
  mkSession (world s) (pomodoro_seconds_left s) v
            (temp_pomodoro_seconds_left s) (pomo_label s) (scheduled_ticks s)
            (timer_lines s) (dialogs s).

Definition set_temp_pomodoro_seconds_left (s : Session) (v : Z) : Session :=
  mkSession (world s) (pomodoro_seconds_left s) (in_pause s) v
            (pomo_label s) (scheduled_ticks s) (timer_lines s) (dialogs s).

Definition set_pomo_label (s : Session) (v : Label) : Session :=
  mkSession (world s) (pomodoro_seconds_left s) (in_pause s)
            (temp_pomodoro_seconds_left s) v (scheduled_ticks s)
            (timer_lines s) (dialogs s).

Definition set_scheduled_ticks (s : Session) (v : nat) : Session :=
  mkSession (world s) (pomodoro_seconds_left s) (in_pause s)
            (temp_pomodoro_seconds_left s) (pomo_label s) v
            (timer_lines s) (dialogs s).

Definition set_timer_lines (s : Session) (v : list (nat * TimerMsg))
    : Session :=
  mkSession (world s) (pomodoro_seconds_left s) (in_pause s)
            (temp_pomodoro_seconds_left s) (pomo_label s) (scheduled_ticks s)
            v (dialogs s).

Definition set_dialogs (s : Session) (v : list TimerMsg) : Session :=
  mkSession (world s) (pomodoro_seconds_left s) (in_pause s)
            (temp_pomodoro_seconds_left s) (pomo_label s) (scheduled_ticks s)
            (timer_lines s) v.

(** Operations on a session: as [M], over the larger state. *)
Definition T (A : Type) : Type := Session -> outcome A * Session.

Definition tret {A : Type} (a : A) : T A := fun s => (Return a, s).

Definition tbind {A B : Type} (m : T A) (f : A -> T B) : T B :=
  fun s =>
    match m s with
    | (Return a, s') => f a s'
    | (Raise e, s') => (Raise e, s')
    end.

Notation "'let+' x := m 'in' k" := (tbind m (fun x => k))
  (at level 10, x name, m at level 200, k at level 200,
   format "'[v' 'let+'  x  :=  m  'in' '/' k ']'") : mud_scope.

(** An operation of the game, run on the game state of the session. *)
Definition in_game {A : Type} (m : M A) : T A :=
  fun s => let (o, w') := m (world s) in (o, set_world s w').

Definition get_seconds_left : T Z :=
  fun s => (Return (pomodoro_seconds_left s), s).

Definition put_seconds_left (v : Z) : T unit :=
  fun s => (Return tt, set_pomodoro_seconds_left s v).

Definition get_in_pause : T bool := fun s => (Return (in_pause s), s).

Definition put_in_pause (v : bool) : T unit :=
  fun s => (Return tt, set_in_pause s v).

Definition get_temp_seconds_left : T Z :=
  fun s => (Return (temp_pomodoro_seconds_left s), s).

Definition put_temp_seconds_left (v : Z) : T unit :=
  fun s => (Return tt, set_temp_pomodoro_seconds_left s v).

Definition put_pomodoro_running (v : bool) : T unit :=
  let+ g := in_game get_gui in
  in_game (put_gui (set_pomodoro_running g v)).

Definition put_pomodoro_in_break (v : bool) : T unit :=
  let+ g := in_game get_gui in
  in_game (put_gui (set_pomodoro_in_break g v)).

(** [self.write_line] from a timer callback. *)
Definition timer_line (m : TimerMsg) : T unit :=
  fun s =>
    (Return tt,
     set_timer_lines s (timer_lines s ++ [(length (output (world s)), m)])).

(** [messagebox.showinfo] *)
Definition showinfo (m : TimerMsg) : T unit :=
  fun s => (Return tt, set_dialogs s (dialogs s ++ [m])).

(** [self.after(1000, self.tick_pomodoro)] *)
Definition after_tick : T unit :=
  fun s => (Return tt, set_scheduled_ticks s (S (scheduled_ticks s))).

Definition update_pomodoro_label : T unit :=
  let+ g := in_game get_gui in
  let+ paused := get_in_pause in
  fun s =>
    (Return tt,
     set_pomo_label s
       (if negb (pomodoro_running g) && negb paused then LabelNotRunning
        else LabelLeft (pomodoro_in_break g)
                       (pomodoro_seconds_left s / 60)
                       (pomodoro_seconds_left s mod 60))).

Definition tick_pomodoro : T unit :=
  let+ g := in_game get_gui in
  if negb (pomodoro_running g) then tret tt
  else
    let+ seconds_left := get_seconds_left in
    if decide (0 < seconds_left) then
      let+ _ := put_seconds_left (seconds_left - 1) in
      let+ _ := update_pomodoro_label in
      let+ g1 := in_game get_gui in
      let+ _ := if negb (pomodoro_in_break g1)
                then in_game auto_move_and_attack
                else tret tt in
      after_tick
    else if negb (pomodoro_in_break g) then
      let+ p := in_game get_player in
      let+ _ := in_game (put_player
                  (set_pomodoro_streak p (pomodoro_streak p + 1))) in
      let+ p1 := in_game get_player in
      let+ _ := timer_line (MsgFocusComplete (pomodoro_streak p1)) in
      let+ _ := showinfo (MsgFocusComplete (pomodoro_streak p1)) in
      let+ _ := put_pomodoro_in_break true in
      let+ _ := put_seconds_left POMODORO_BREAK_TIME in
      let+ _ := update_pomodoro_label in
      after_tick
    else
      let+ _ := timer_line MsgBreakOver in
      let+ _ := put_pomodoro_in_break false in
      let+ _ := put_seconds_left POMODORO_FOCUS_TIME in
      let+ _ := update_pomodoro_label in
      after_tick.

(** [start_pomodoro]. The state holds a player, so the first test of the
    source, for a missing player, does not arise. The first tick runs
    inside the callback. *)
Definition start_pomodoro : T unit :=
  let+ g := in_game get_gui in
  if pomodoro_running g then timer_line MsgAlreadyRunning
  else
    let+ _ := put_pomodoro_running true in
    let+ _ := put_pomodoro_in_break false in
    let+ paused := get_in_pause in
    let+ _ := if paused then
                let+ temp := get_temp_seconds_left in
                let+ _ := put_seconds_left temp in
                put_in_pause false
              else put_seconds_left POMODORO_FOCUS_TIME in
    let+ _ := update_pomodoro_label in
    tick_pomodoro.

Definition pause_pomodoro : T unit :=
  let+ g := in_game get_gui in
  if negb (pomodoro_running g) then timer_line MsgNoSession
  else
    let+ _ := put_pomodoro_running false in
    let+ _ := put_pomodoro_in_break false in
    let+ _ := put_in_pause true in
    let+ seconds_left := get_seconds_left in
    let+ _ := put_temp_seconds_left seconds_left in
    update_pomodoro_label.

Definition stop_pomodoro : T unit :=
  let+ g := in_game get_gui in
  if negb (pomodoro_running g) then timer_line MsgNoSession
  else
    let+ _ := put_pomodoro_running false in
    let+ _ := put_pomodoro_in_break false in
    update_pomodoro_label.

(** The main loop runs one of the registered callbacks, when the clock
    reads [t]; without a registered callback nothing runs. *)
Definition fire (t : Z) : T unit :=
  fun s =>
    match scheduled_ticks s with
    | O => (Return tt, s)
    | S n =>
        tick_pomodoro
          (set_world (set_scheduled_ticks s n) (set_clock (world s) t))
    end.

(** Callbacks run one after the other, at the clock readings [ts]; an
    exception raised by one of them is reported and the loop goes on. *)
Definition fires (ts : list Z) (s : Session) : Session :=
  fold_left (fun s t => snd (fire t s)) ts s.

(** The session as [MudGameGUI.__init__] leaves it, around a game
    state. *)
Definition initial_session (w : World) : Session :=
  mkSession w 0 false 0 LabelNotRunning 0 [] [].

(** The ticks of the automation, as steps of a run. *)
Definition tick_steps (ts : list Z) : list (Z * Command) :=
  (fun t => (t, CmdTick)) <$> ts.

(** An operation that leaves the widgets and timer flags alone. *)
Definition gui_kept {A : Type} (m : M A) : Prop :=
  forall w, gui (snd (m w)) = gui w.

(** The label [update_pomodoro_label] shows while the timer runs or is
    paused. *)
Definition running_label (in_break : bool) (seconds_left : Z) : Label :=
  LabelLeft in_break (seconds_left / 60) (seconds_left mod 60).

(** The session as [start_pomodoro] leaves it before its first tick, when
    the timer was not running: the flags set, the countdown taken from the
    pause or set to the focus time, the label updated. *)
Definition started (s : Session) : Session :=
  let seconds_left :=
    if in_pause s then temp_pomodoro_seconds_left s
    else POMODORO_FOCUS_TIME in
  mkSession
    (set_gui (world s)
       (set_pomodoro_in_break (set_pomodoro_running (gui (world s)) true)
                              false))
    seconds_left false (temp_pomodoro_seconds_left s)
    (running_label false seconds_left)
    (scheduled_ticks s) (timer_lines s) (dialogs s).

(** The session a running timer is left in by [pause_pomodoro]. *)
Definition paused (s : Session) : Session :=
  mkSession
    (set_gui (world s)
       (set_pomodoro_in_break (set_pomodoro_running (gui (world s)) false)
                              false))
    (pomodoro_seconds_left s) true (pomodoro_seconds_left s)
    (running_label false (pomodoro_seconds_left s))
    (scheduled_ticks s) (timer_lines s) (dialogs s).

(** The session a running timer is left in by [stop_pomodoro]. *)
Definition stopped (s : Session) : Session :=
  mkSession
    (set_gui (world s)
       (set_pomodoro_in_break (set_pomodoro_running (gui (world s)) false)
                              false))
    (pomodoro_seconds_left s) (in_pause s) (temp_pomodoro_seconds_left s)
    (if in_pause s then running_label false (pomodoro_seconds_left s)
     else LabelNotRunning)
    (scheduled_ticks s) (timer_lines s) (dialogs s).

(** The session after a timer callback has only written the line [m]. *)
Definition told (s : Session) (m : TimerMsg) : Session :=
  set_timer_lines s (timer_lines s ++ [(length (output (world s)), m)]).

(** An operation that leaves the player's streak at [n], whatever it
    returns or raises. *)
Definition keeps_streak (n : Z) {A : Type} (m : M A) : Prop :=
  forall w,
    pomodoro_streak (player w) = n ->
    pomodoro_streak (player (snd (m w))) = n.

(** The commands that replace the player. *)
Definition replaces_player (c : Command) : bool :=
  match c with
  | CmdNewGame _ _ | CmdLoadGame => true
  | _ => false
  end.

(** ** The lines that tell the calls of a tick apart

    [attack_enemy] on a live enemy writes one lash-out line, and
    [heal_player] writes exactly one of its two lines, so the lines written
    count the exchanges and the heals that took place. *)
Definition is_attack_line (m : Msg) : bool :=
  match m with
  | MsgLashOut _ _ _ => true
  | _ => false
  end.

Definition is_heal_line (m : Msg) : bool :=
  match m with
  | MsgPatchUp _ _ | MsgFullHealth => true
  | _ => false
  end.

Definition attack_lines (ms : list Msg) : nat :=
  length (filter (fun m => is_attack_line m = true) ms).

Definition heal_lines (ms : list Msg) : nat :=
  length (filter (fun m => is_heal_line m = true) ms).

(** What an operation may write: at most one exchange and at most one
    heal, the two together only around the line of the fallen player. *)
Definition bounded_lines (ms : list Msg) : Prop :=
  (attack_lines ms <= 1)%nat /\ (heal_lines ms <= 1)%nat /\
  (attack_lines ms = 1%nat -> heal_lines ms = 1%nat -> MsgSuccumb ∈ ms).

(** ** The room a command looks at

    [maybe_respawn_mob] is called by [look_around] only, on the room the
    player stands in at that moment. [respawn_target c w] is the room on
    which the command [c], run in the state [w], invokes it: the current
    room for look, the room entered for a move and for a tick that moves,
    the temple for a new game, the saved location for a loaded game. *)
Definition respawn_target (c : Command) (w : World) : option string :=
  match c with
  | CmdLook => Some (location (player w))
  | CmdMove direction =>
      match rooms w !! location (player w) with
      | Some room => exit_not_none room direction
      | None => None
      end
  | CmdTick =>
      match rooms w !! location (player w) with
      | Some room =>
          match live_enemy room with
          | Some _ => None
          | None =>
              if decide (hp (player w) < max_hp (player w)) then None
              else if decide (auto_move_index w
                              < length auto_move_directions)%nat then
                match first_open_exit room (auto_move_index w) with
                | Some (_, direction) => exit_not_none room direction
                | None => None
                end
              else None
          end
      | None => None
      end
  | CmdNewGame _ _ => Some "temple_of_stillness"
  | CmdLoadGame =>
      match fst (load_game w) with
      | Return (Some p) => Some (location p)
      | _ => None
      end
  | _ => None
  end.

(** Along the run [steps] from [w], no command invokes [maybe_respawn_mob]
    on the room [key] at or after [deadline]: each command runs before the
    deadline or invokes it on no room or on another one. *)
Fixpoint undisturbed (key : string) (deadline : Z)
    (steps : list (Z * Command)) (w : World) : Prop :=
  match steps with
  | [] => True
  | s :: rest =>
      (fst s < deadline \/
       respawn_target (snd s) (set_clock w (fst s)) <> Some key) /\
      undisturbed key deadline rest (run_step w s)
  end.

(** The strings on which [lower] is [str.lower()]: those made of ASCII
    characters (codes below 128). *)
Fixpoint is_ascii (s : string) : bool :=
  match s with
  | EmptyString => true
  | String c s' => (nat_of_ascii c <? 128)%nat && is_ascii s'
  end.

(** * Verified properties *)

(** ** Progression: [add_experience] and [level_up] *)

Section Progression.

Implicit Types p : Player.

Lemma level_loop_continue p :
  level p * 100 <= exp p -> level_loop p = level_loop (level_loop_body p).
Proof.
  intros H. rewrite level_loop_equation_1. simpl.
  destruct (Z_le_dec (level p * 100) (exp p)); [reflexivity | lia].
Qed.

Lemma level_loop_exit p :
  exp p < level p * 100 -> level_loop p = p.
Proof.
  intros H. rewrite level_loop_equation_1. simpl.
  destruct (Z_le_dec (level p * 100) (exp p)); [lia | reflexivity].
Qed.

(** Induction along the iterations of the loop. *)
Lemma level_loop_ind (P : Player -> Prop) :
  (forall p, exp p < level p * 100 -> P p) ->
  (forall p, level p * 100 <= exp p -> P (level_loop_body p) -> P p) ->
  forall p, P p.
Proof.
  intros Hexit Hstep p.
  induction p as [p IH] using (induction_ltof1 _ loop_measure).
  destruct (Z_le_dec (level p * 100) (exp p)) as [Hle | Hgt].
  - apply Hstep; [exact Hle |]. apply IH. unfold ltof.
    clear IH Hexit Hstep.
    unfold loop_measure, level_loop_body, level_up, set_exp; simpl.
    destruct (Z_le_gt_dec (level p) (-1)) as [Hn | Hp].
    + rewrite (Z.min_l (level p) 0) by lia.
      rewrite (Z.min_l (level p + 1) 0) by lia. nia.
    + rewrite (Z.min_r (level p + 1) 0) by lia.
      destruct (Z.eq_dec (level p) 0) as [H0 | H0].
      * rewrite H0 in *. simpl. lia.
      * rewrite (Z.min_r (level p) 0) by lia. nia.
  - apply Hexit. lia.
Qed.

Lemma level_loop_exp_nonneg p : 0 <= exp p -> 0 <= exp (level_loop p).
Proof.
  revert p. apply (level_loop_ind (fun p => 0 <= exp p -> 0 <= exp (level_loop p))).
  - intros p Hlt Hp. rewrite level_loop_exit by exact Hlt. exact Hp.
  - intros p Hle IH Hp. rewrite level_loop_continue by exact Hle.
    apply IH. unfold level_loop_body, level_up, set_exp; simpl. lia.
Qed.

Lemma level_loop_iterations p :
  exists n : nat,
    level_loop p = Nat.iter n level_loop_body p /\
    (forall i : nat, (i < n)%nat ->
       level (Nat.iter i level_loop_body p) * 100
       <= exp (Nat.iter i level_loop_body p)) /\
    exp (level_loop p) < level (level_loop p) * 100.
Proof.
  revert p. apply level_loop_ind.
  - intros p Hlt. exists 0%nat. rewrite level_loop_exit by exact Hlt.
    simpl. split; [reflexivity |]. split; [lia | exact Hlt].
  - intros p Hle (n & Heq & Hcond & Hfin). exists (S n).
    rewrite level_loop_continue by exact Hle.
    split; [| split].
    + rewrite Heq. symmetry. apply Nat.iter_succ_r.
    + intros [| i] Hi; [exact Hle |].
      rewrite Nat.iter_succ_r. apply Hcond. lia.
    + exact Hfin.
Qed.

Lemma level_loop_body_add p (a : Z) :
  level_loop_body (set_exp p (exp p + a))
  = set_exp (level_loop_body p) (exp (level_loop_body p) + a).
Proof.
  unfold level_loop_body, level_up, set_exp; simpl. f_equal. lia.
Qed.

Lemma set_exp_same p : set_exp p (exp p) = p.
Proof. destruct p; reflexivity. Qed.

(** Adding experience before the loop or after it leads to the same
    player: the iterations taken without the extra amount are taken with it
    too, and in the same order. *)
Lemma level_loop_add (a : Z) p :
  0 <= a ->
  level_loop (set_exp p (exp p + a))
  = level_loop (set_exp (level_loop p) (exp (level_loop p) + a)).
Proof.
  intros Ha. revert p. apply level_loop_ind.
  - intros p Hlt. rewrite (level_loop_exit p) by exact Hlt. reflexivity.
  - intros p Hle IH.
    rewrite (level_loop_continue p) by exact Hle. rewrite <- IH.
    rewrite <- level_loop_body_add. apply level_loop_continue.
    simpl. lia.
Qed.

Lemma add_experience_twice p (a b : Z) :
  0 <= b ->
  add_experience (add_experience p a) b = add_experience p (a + b).
Proof.
  intros Hb. unfold add_experience.
  rewrite <- (level_loop_add b) by exact Hb.
  f_equal. unfold set_exp; simpl. f_equal. lia.
Qed.

Lemma add_experience_fold p (a : Z) (amounts : list Z) :
  Forall (fun x => 0 <= x) amounts ->
  fold_left add_experience amounts (add_experience p a)
  = add_experience p (a + foldr Z.add 0 amounts).
Proof.
  intros H. revert a. induction H as [| b l Hb _ IH]; intros a; simpl.
  - f_equal. lia.
  - rewrite add_experience_twice by exact Hb. rewrite IH. f_equal. lia.
Qed.

End Progression.

(** C2. For a player with non-negative experience and a non-negative
    amount, [add_experience] returns with [0 <= exp < level * 100] for the
    new level. The returned player is reached by [n] iterations of the loop
    body from the player with the amount added; every iteration started
    from a player that satisfied the loop condition, raised the level by one
    and subtracted the threshold [level * 100] of the level it started from,
    so the level rises by [n], which may exceed 1. *)
Theorem add_experience_normalises (p : Player) (amount : Z) :
  0 <= exp p -> 0 <= amount ->
  let p0 := set_exp p (exp p + amount) in
  let q := add_experience p amount in
  0 <= exp q < level q * 100 /\
  exists n : nat,
    q = Nat.iter n level_loop_body p0 /\
    level q = level p + Z.of_nat n /\
    forall i : nat, (i < n)%nat ->
      let pi := Nat.iter i level_loop_body p0 in
      level pi * 100 <= exp pi /\
      level (level_loop_body pi) = level pi + 1 /\
      exp (level_loop_body pi) = exp pi - level pi * 100.
Proof.
  intros Hexp Hamount p0 q. subst q. unfold add_experience. fold p0.
  destruct (level_loop_iterations p0) as (n & Heq & Hcond & Hfin).
  split.
  - split; [| exact Hfin]. apply level_loop_exp_nonneg. subst p0. simpl. lia.
  - exists n. split; [exact Heq |]. split.
    + rewrite Heq. clear. induction n as [| n IH]; simpl; [lia |].
      rewrite IH. lia.
    + intros i Hi. cbv zeta. split; [apply Hcond; exact Hi |]. split; reflexivity.
Qed.

Lemma add_experience_normalises_witness :
  0 <= exp new_warrior /\ 0 <= 350 /\
  0 <= exp (add_experience new_warrior 350)
    < level (add_experience new_warrior 350) * 100 /\
  level (add_experience new_warrior 350) = 3.
Proof.
  split; [vm_compute; discriminate |]. split; [lia |].
  split.
  - apply (add_experience_normalises new_warrior 350);
      [vm_compute; discriminate | lia].
  - vm_compute. reflexivity.
Defined.

(** C3 (as amended). For every player and every sequence of non-negative
    amounts that is not empty, one [add_experience] call per amount, in
    order, leaves the same player (so the same level, experience, maximum
    and current hit points and base attack) as a single call with the sum;
    for the empty sequence this holds when the player's experience is
    already below [level * 100]. *)
Theorem add_experience_sequence (p : Player) (amounts : list Z) :
  Forall (fun a => 0 <= a) amounts ->
  amounts <> [] \/ exp p < level p * 100 ->
  let q1 := fold_left add_experience amounts p in
  let q2 := add_experience p (sum_amounts amounts) in
  q1 = q2 /\ same_progress q1 q2.
Proof.
  intros Hpos Hcase q1 q2.
  assert (Heq : q1 = q2).
  { subst q1 q2. destruct amounts as [| a l].
    - destruct Hcase as [Hne | Hnorm]; [congruence |].
      simpl. unfold add_experience. rewrite Z.add_0_r, set_exp_same.
      symmetry. apply level_loop_exit. exact Hnorm.
    - simpl. apply add_experience_fold.
      inversion Hpos; assumption. }
  split; [exact Heq |]. rewrite Heq. unfold same_progress. tauto.
Qed.

Lemma add_experience_sequence_witness :
  Forall (fun a => 0 <= a) [120; 30; 200] /\
  ([120; 30; 200] <> [] \/ exp new_warrior < level new_warrior * 100) /\
  fold_left add_experience [120; 30; 200] new_warrior
  = add_experience new_warrior (sum_amounts [120; 30; 200]).
Proof.
  assert (H : Forall (fun a => 0 <= a) [120; 30; 200]).
  { repeat constructor; lia. }
  split; [exact H |]. split; [left; discriminate |].
  apply (add_experience_sequence new_warrior [120; 30; 200] H).
  left; discriminate.
Defined.

(** C3 as stated fails for the empty sequence: a valid level-1 player whose
    experience already equals the threshold 100 stays at level 1 when no
    award is applied, while the single call with the sum 0 raises the level
    to 2. *)
Lemma add_experience_sequence_empty_counterexample :
  let p := mkPlayer "idleHero" "warrior" 1 100 120 120 8 []
                    "temple_of_stillness" default_tasks 0 in
  valid_player p /\
  Forall (fun a => 0 <= a) [] /\
  level (fold_left add_experience [] p) = 1 /\
  level (add_experience p (sum_amounts [])) = 2 /\
  ~ same_progress (fold_left add_experience [] p)
                  (add_experience p (sum_amounts [])).
Proof.
  intros p.
  split; [subst p; compute_done |].
  split; [constructor |].
  split; [reflexivity |].
  split; [vm_compute; reflexivity |].
  intros [Hlevel _]. vm_compute in Hlevel. discriminate.
Qed.

(** ** Persistence: [save_game] then [load_game] *)

Section Persistence.

Lemma mapM_str_of (l : list string) : mapM str_of (JStr <$> l) = Some l.
Proof.
  induction l as [| s l IH]; [reflexivity |].
  rewrite fmap_cons. cbn. rewrite IH. reflexivity.
Qed.

Lemma omap_bool_of (t : gmap string bool) : omap bool_of (JBool <$> t) = t.
Proof.
  apply map_eq. intros k. rewrite lookup_omap, lookup_fmap.
  destruct (t !! k); reflexivity.
Qed.

Lemma class_key_lower (c : string) :
  is_Some (CLASS_STATS !! c) -> lower c = c.
Proof.
  unfold CLASS_STATS. rewrite !lookup_insert_is_Some, lookup_empty.
  intros [<- | [_ [<- | [_ [<- | [_ H]]]]]]; try reflexivity.
  destruct H as [x Hx]. discriminate.
Qed.

Lemma as_tasks_save (t : gmap string bool) (w : World) :
  as_tasks (JObj (JBool <$> t)) w = (Return (Some t), w).
Proof.
  unfold as_tasks. rewrite omap_bool_of.
  destruct (decide (dom t = dom (JBool <$> t))) as [_ | Hne]; [reflexivity |].
  exfalso. apply Hne. rewrite dom_fmap_L. reflexivity.
Qed.

Lemma as_inventory_save (l : list string) (w : World) :
  as_inventory (JArr (JStr <$> l)) w = (Return (Some l), w).
Proof. unfold as_inventory. rewrite mapM_str_of. reflexivity. Qed.

Lemma save_data_lookups (p : Player) :
  save_data p !! "name" = Some (JStr (name p)) /\
  save_data p !! "player_class" = Some (JStr (player_class p)) /\
  save_data p !! "level" = Some (JInt (level p)) /\
  save_data p !! "exp" = Some (JInt (exp p)) /\
  save_data p !! "max_hp" = Some (JInt (max_hp p)) /\
  save_data p !! "hp" = Some (JInt (hp p)) /\
  save_data p !! "base_attack" = Some (JInt (base_attack p)) /\
  save_data p !! "inventory" = Some (JArr (JStr <$> inventory p)) /\
  save_data p !! "location" = Some (JStr (location p)) /\
  save_data p !! "tasks" = Some (JObj (JBool <$> tasks p)) /\
  save_data p !! "pomodoro_streak" = Some (JInt (pomodoro_streak p)).
Proof. repeat split; reflexivity. Qed.

(** Loading the dictionary that [save_game] writes calls [Player.__init__]
    with the attributes of the saved player. *)
Lemma load_game_of_save_data (p : Player) (w : World) :
  save_file w = Some (JObj (save_data p)) ->
  load_game w =
    (Return (Some (Player_init (name p) (player_class p) (level p) (exp p)
                     (max_hp p) (hp p) (base_attack p) (Some (inventory p))
                     (location p) (Some (tasks p)) (pomodoro_streak p))), w).
Proof.
  intros Hfile.
  destruct (save_data_lookups p)
    as (H1 & H2 & H3 & H4 & H5 & H6 & H7 & H8 & H9 & H10 & H11).
  unfold load_game, bind, get_save_file, json_get. rewrite Hfile.
  rewrite H1, H2, H3, H4, H5, H6, H7, H8, H9, H10, H11.
  cbv beta iota delta [ret as_str as_int].
  rewrite as_inventory_save. cbv beta iota.
  rewrite as_tasks_save. reflexivity.
Qed.

Lemma Player_init_of_valid (p : Player) :
  valid_player p ->
  Player_init (name p) (player_class p) (level p) (exp p) (max_hp p) (hp p)
    (base_attack p) (Some (inventory p)) (location p) (Some (tasks p))
    (pomodoro_streak p) = p.
Proof.
  intros (Hclass & _ & _ & _ & _ & _ & Hstun).
  unfold Player_init. rewrite (class_key_lower _ Hclass).
  destruct (decide (tasks p = ∅)) as [Hempty | _].
  - rewrite Hempty, lookup_empty in Hstun. destruct Hstun as [b Hb].
    discriminate.
  - destruct p; reflexivity.
Qed.

End Persistence.

(** C1. For every valid player, [load_game] applied to what [save_game]
    wrote returns a player equal to the saved one in every field: name,
    class, level, experience, maximum and current hit points, base attack,
    location, streak, the whole task mapping (flags never set included) and
    the inventory with its duplicates and its order. *)
Theorem load_save_roundtrip (p : Player) (w : World) :
  valid_player p ->
  let w1 := snd (save_game p w) in
  fst (save_game p w) = Return tt /\
  load_game w1 = (Return (Some p), w1).
Proof.
  intros Hvalid w1. split; [reflexivity |].
  rewrite (load_game_of_save_data p w1) by reflexivity.
  rewrite (Player_init_of_valid p Hvalid). reflexivity.
Qed.

Lemma load_save_roundtrip_witness :
  let p := set_inventory new_warrior ["sword"; "sword"] in
  let w := initial_world new_warrior (fun _ => 0) 0 in
  valid_player p /\
  load_game (snd (save_game p w)) = (Return (Some p), snd (save_game p w)) /\
  inventory p = ["sword"; "sword"] /\
  tasks p = default_tasks.
Proof.
  intros p w.
  assert (Hvalid : valid_player p) by (subst p; compute_done).
  split; [exact Hvalid |].
  split; [exact (proj2 (load_save_roundtrip p w Hvalid)) |].
  split; reflexivity.
Defined.


(** ** Stepping through operations *)

Lemma randint_value_range (a b raw : Z) :
  a <= b -> a <= randint_value a b raw <= b.
Proof.
  intros H. unfold randint_value.
  pose proof (Z.mod_pos_bound raw (b - a + 1)). lia.
Qed.

Lemma randint_run (a b : Z) (w : World) :
  a <= b ->
  randint a b w = (Return (randint_value a b (upcoming w 0)), consumed w 1).
Proof.
  intros H. unfold randint, bind, random_raw, ret, upcoming, consumed, randint_value.
  destruct (decide (a <= b)); [| lia].
  rewrite Nat.add_0_r, Nat.add_1_r. reflexivity.
Qed.

Lemma randint_empty (a b : Z) (w : World) :
  b < a -> randint a b w = (Raise ValueError, w).
Proof.
  intros H. unfold randint. destruct (decide (a <= b)); [lia | reflexivity].
Qed.

Lemma alter_lookup_Some (f : Room -> Room) (k : string) (r : Room)
    (rs : gmap string Room) :
  rs !! k = Some r -> alter f k rs = <[k := f r]> rs.
Proof.
  intros H. apply map_eq. intros j.
  destruct (decide (k = j)) as [<- | Hne].
  - rewrite lookup_alter_eq, lookup_insert_eq, H. reflexivity.
  - rewrite lookup_alter_ne, lookup_insert_ne by exact Hne. reflexivity.
Qed.

Arguments ret {A} a w /.
Arguments raise {A} e w /.
Arguments get_player w /.
Arguments put_player p w /.
Arguments modify_room key f w /.
Arguments write_line m w /.
Arguments time_time w /.
Arguments get_gui w /.
Arguments put_gui g w /.
Arguments get_auto_move_index w /.
Arguments put_auto_move_index i w /.
Arguments clear_output w /.
Arguments get_save_file w /.
Arguments put_save_file f w /.
Arguments task_flag key w /.

Ltac mstep :=
  unfold bind;
  cbn [ret raise get_player put_player lookup_room modify_room
       write_line time_time get_gui put_gui get_auto_move_index
       put_auto_move_index clear_output get_save_file put_save_file
       task_flag
       set_player set_rooms set_auto_move_index set_rand_pos set_clock
       set_output set_save_file set_gui consumed written
       player rooms auto_move_index rand_src rand_pos clock output
       save_file gui fst snd negb
       set_exp set_hp set_inventory set_location set_tasks
       name player_class level exp max_hp hp base_attack inventory
       location tasks pomodoro_streak
       set_e_hp set_alive e_name e_hp attack_power exp_reward alive
       set_items set_enemy set_respawn_timer
       r_name description exits items enemy respawn_timer].

Lemma world_ext (w1 w2 : World) :
  player w1 = player w2 ->
  rooms w1 = rooms w2 ->
  auto_move_index w1 = auto_move_index w2 ->
  rand_src w1 = rand_src w2 ->
  rand_pos w1 = rand_pos w2 ->
  clock w1 = clock w2 ->
  output w1 = output w2 ->
  save_file w1 = save_file w2 ->
  gui w1 = gui w2 ->
  w1 = w2.
Proof. destruct w1, w2; cbn. intros; subst; reflexivity. Qed.

Ltac world_eq :=
  try apply (f_equal (pair _));
  apply world_ext; mstep;
  first [ reflexivity
        | lia
        | rewrite <- ?app_assoc; reflexivity ].

Lemma level_loop_frame (p : Player) :
  let q := level_loop p in
  name q = name p /\ player_class q = player_class p /\
  inventory q = inventory p /\ location q = location p /\
  tasks q = tasks p /\ pomodoro_streak q = pomodoro_streak p.
Proof.
  revert p. apply level_loop_ind.
  - intros p H. rewrite level_loop_exit by exact H. cbv zeta. tauto.
  - intros p H IH. rewrite level_loop_continue by exact H. exact IH.
Qed.

Lemma add_experience_frame (p : Player) (amount : Z) :
  let q := add_experience p amount in
  name q = name p /\ player_class q = player_class p /\
  inventory q = inventory p /\ location q = location p /\
  tasks q = tasks p /\ pomodoro_streak q = pomodoro_streak p.
Proof. exact (level_loop_frame (set_exp p (exp p + amount))). Qed.

Lemma handle_mob_death_run (key : string) (room : Room) (e : Enemy) (w : World) :
  rooms w !! key = Some room ->
  enemy room = Some e ->
  handle_mob_death key w =
    (Return tt,
     set_rooms w (<[key := set_respawn_timer (set_enemy room None)
                             (clock w + RESPAWN_TIME)]> (rooms w))).
Proof.
  intros Hroom Henemy. unfold handle_mob_death. mstep.
  unfold lookup_room. rewrite Hroom. mstep. rewrite Henemy. mstep.
  f_equal. f_equal.
  apply map_eq. intros j. destruct (decide (key = j)) as [<- | Hne].
  - rewrite !lookup_alter_eq, lookup_insert_eq, Hroom. reflexivity.
  - rewrite !lookup_alter_ne, lookup_insert_ne by exact Hne. reflexivity.
Qed.

Lemma heal_player_full (w : World) :
  max_hp (player w) <= hp (player w) ->
  heal_player w = (Return tt, written w [MsgFullHealth]).
Proof.
  intros H. unfold heal_player. mstep.
  destruct (decide (max_hp (player w) <= hp (player w))); [reflexivity | lia].
Qed.

Lemma heal_player_run (w : World) :
  hp (player w) < max_hp (player w) ->
  let heal_amount := randint_value 5 15 (upcoming w 0) in
  let p1 := set_hp (player w)
              (Z.min (hp (player w) + heal_amount) (max_hp (player w))) in
  heal_player w =
    (Return tt,
     written (set_player (consumed w 1) p1) [MsgPatchUp heal_amount (hp p1)]).
Proof.
  intros H heal_amount p1. unfold heal_player. mstep.
  destruct (decide (max_hp (player w) <= hp (player w))); [lia |].
  mstep. rewrite randint_run by lia. mstep. reflexivity.
Qed.

Lemma live_enemy_Some (room : Room) (e : Enemy) :
  live_enemy room = Some e -> enemy room = Some e /\ is_alive e = true.
Proof.
  unfold live_enemy. destruct (enemy room) as [e' |]; [| discriminate].
  destruct (is_alive e') eqn:Halive; [| discriminate].
  intros [= <-]. split; [reflexivity | exact Halive].
Qed.

Lemma live_enemy_None (room : Room) :
  enemy room = None -> live_enemy room = None.
Proof. unfold live_enemy. intros ->. reflexivity. Qed.

Lemma set_tasks_same (p : Player) : set_tasks p (tasks p) = p.
Proof. destruct p; reflexivity. Qed.

(** ** Combat: one exchange against the live enemy of the current room *)

Section Exchange.

Variables (w : World) (room : Room) (e : Enemy).
Hypothesis Hroom : rooms w !! location (player w) = Some room.
Hypothesis Hlive : live_enemy room = Some e.

Ltac enter_exchange :=
  mstep; unfold lookup_room; rewrite Hroom; mstep; rewrite Hlive.

Ltac finish_kill Htasks Htask b d :=
  mstep; rewrite Htasks, Htask;
  unfold after_kill, victor, emptied_room;
  destruct b; mstep;
    (rewrite (handle_mob_death_run (location (player w))
                (set_enemy room (Some (set_e_hp e (e_hp e - d))))
                (set_e_hp e (e_hp e - d)))
       by (try apply lookup_insert_eq; reflexivity));
    mstep; rewrite insert_insert_eq;
    [ rewrite (insert_id (tasks (player w))) by exact Htask;
      rewrite <- Htasks, set_tasks_same; world_eq
    | world_eq ].

Lemma attack_enemy_kill (b : bool) :
  e_hp e - basic_damage w <= 0 ->
  tasks (player w) !! "stun_opponent" = Some b ->
  attack_enemy w =
    (Return tt,
     after_kill w room e
       ([MsgLashOut (e_name e) (basic_damage w) (e_hp e - basic_damage w);
         MsgDefeated (e_name e); MsgGainExp (exp_reward e)]
        ++ if b then [] else [MsgTaskStunned])).
Proof.
  intros Hdead Htask.
  destruct (add_experience_frame (player w) (exp_reward e))
    as (_ & _ & _ & _ & Htasks & _).
  unfold attack_enemy. enter_exchange.
  rewrite randint_run by (unfold calculate_attack; lia).
  mstep. fold (basic_damage w).
  destruct (decide (e_hp e - basic_damage w <= 0)) as [_ | Hn]; [| lia].
  rewrite (alter_lookup_Some _ _ room) by exact Hroom.
  finish_kill Htasks Htask b (basic_damage w).
Qed.

Lemma attack_enemy_counter :
  0 < e_hp e - basic_damage w ->
  1 <= attack_power e ->
  let d := basic_damage w in
  let r := retaliation_damage w e in
  let w1 := after_counter w room e d r
              [MsgLashOut (e_name e) d (e_hp e - d);
               MsgCounter (e_name e) r (hp (player w) - r)] in
  attack_enemy w =
    if decide (hp (player w) - r <= 0)
    then heal_player (written w1 [MsgSuccumb])
    else (Return tt, w1).
Proof.
  intros Hsurvives Hpower d r w1. subst d r w1.
  unfold attack_enemy. enter_exchange.
  rewrite randint_run by (unfold calculate_attack; lia).
  mstep. fold (basic_damage w).
  destruct (decide (e_hp e - basic_damage w <= 0)) as [Hn | _]; [lia |].
  rewrite (alter_lookup_Some _ _ room) by exact Hroom.
  mstep. rewrite randint_run by (mstep; lia).
  mstep.
  change (upcoming _ 0) with (rand_src w (rand_pos w + 1 + 0)%nat).
  replace (rand_src w (rand_pos w + 1 + 0)%nat) with (upcoming w 1)
    by (unfold upcoming; f_equal; lia).
  fold (retaliation_damage w e).
  destruct (decide (hp (player w) - retaliation_damage w e <= 0)).
  - mstep. f_equal. unfold after_counter, hit_room. world_eq.
  - unfold after_counter, hit_room. world_eq.
Qed.

Lemma attack_enemy_kill_no_task :
  e_hp e - basic_damage w <= 0 ->
  tasks (player w) !! "stun_opponent" = None ->
  attack_enemy w =
    (Raise (KeyError "stun_opponent"),
     set_player
       (after_hit w room e (basic_damage w)
          [MsgLashOut (e_name e) (basic_damage w) (e_hp e - basic_damage w);
           MsgDefeated (e_name e); MsgGainExp (exp_reward e)])
       (add_experience (player w) (exp_reward e))).
Proof.
  intros Hdead Htask.
  destruct (add_experience_frame (player w) (exp_reward e))
    as (_ & _ & _ & _ & Htasks & _).
  unfold attack_enemy. enter_exchange.
  rewrite randint_run by (unfold calculate_attack; lia).
  mstep. fold (basic_damage w).
  destruct (decide (e_hp e - basic_damage w <= 0)) as [_ | Hn]; [| lia].
  rewrite (alter_lookup_Some _ _ room) by exact Hroom.
  mstep. rewrite Htasks, Htask. mstep. f_equal.
  unfold after_hit, hit_room. world_eq.
Qed.

Lemma attack_enemy_counter_error :
  0 < e_hp e - basic_damage w ->
  attack_power e < 1 ->
  attack_enemy w =
    (Raise ValueError,
     after_hit w room e (basic_damage w)
       [MsgLashOut (e_name e) (basic_damage w) (e_hp e - basic_damage w)]).
Proof.
  intros Hsurvives Hpower.
  unfold attack_enemy. enter_exchange.
  rewrite randint_run by (unfold calculate_attack; lia).
  mstep. fold (basic_damage w).
  destruct (decide (e_hp e - basic_damage w <= 0)) as [Hn | _]; [lia |].
  rewrite (alter_lookup_Some _ _ room) by exact Hroom.
  mstep. rewrite randint_empty by (mstep; lia).
  f_equal.
Qed.

Section Skill.

Variable st : ClassStat.
Hypothesis Hclass : CLASS_STATS !! player_class (player w) = Some st.

Ltac enter_skill :=
  unfold use_class_skill; enter_exchange;
  unfold get_class_skill_name; mstep; rewrite Hclass; mstep;
  rewrite randint_run by lia; mstep; fold (skill_damage w);
  rewrite (alter_lookup_Some _ _ room) by exact Hroom.

Lemma use_class_skill_kill (b : bool) :
  e_hp e - skill_damage w <= 0 ->
  tasks (player w) !! "stun_opponent" = Some b ->
  use_class_skill w =
    (Return tt,
     after_kill w room e
       ([MsgUseSkill (cs_skill_name st) (skill_damage w)
                     (e_hp e - skill_damage w);
         MsgDefeated (e_name e); MsgGainExp (exp_reward e)]
        ++ if b then [] else [MsgTaskStunned])).
Proof.
  intros Hdead Htask.
  destruct (add_experience_frame (player w) (exp_reward e))
    as (_ & _ & _ & _ & Htasks & _).
  enter_skill.
  destruct (decide (e_hp e - skill_damage w <= 0)) as [_ | Hn]; [| lia].
  finish_kill Htasks Htask b (skill_damage w).
Qed.

Lemma use_class_skill_kill_no_task :
  e_hp e - skill_damage w <= 0 ->
  tasks (player w) !! "stun_opponent" = None ->
  use_class_skill w =
    (Raise (KeyError "stun_opponent"),
     set_player
       (after_hit w room e (skill_damage w)
          [MsgUseSkill (cs_skill_name st) (skill_damage w)
                       (e_hp e - skill_damage w);
           MsgDefeated (e_name e); MsgGainExp (exp_reward e)])
       (add_experience (player w) (exp_reward e))).
Proof.
  intros Hdead Htask.
  destruct (add_experience_frame (player w) (exp_reward e))
    as (_ & _ & _ & _ & Htasks & _).
  enter_skill.
  destruct (decide (e_hp e - skill_damage w <= 0)) as [_ | Hn]; [| lia].
  mstep. rewrite Htasks, Htask. mstep. f_equal.
  unfold after_hit, hit_room. world_eq.
Qed.

Lemma use_class_skill_counter :
  0 < e_hp e - skill_damage w ->
  1 <= attack_power e ->
  let d := skill_damage w in
  let r := retaliation_damage w e in
  let w1 := after_counter w room e d r
              [MsgUseSkill (cs_skill_name st) d (e_hp e - d);
               MsgRetaliates (e_name e) r (hp (player w) - r)] in
  use_class_skill w =
    if decide (hp (player w) - r <= 0)
    then (Return tt,
          set_gui (written w1 [MsgGameOver]) (game_over_gui (gui w)))
    else (Return tt, w1).
Proof.
  intros Hsurvives Hpower d r w1. subst d r w1.
  enter_skill.
  destruct (decide (e_hp e - skill_damage w <= 0)) as [Hn | _]; [lia |].
  mstep. rewrite randint_run by (mstep; lia).
  mstep.
  change (upcoming _ 0) with (rand_src w (rand_pos w + 1 + 0)%nat).
  replace (rand_src w (rand_pos w + 1 + 0)%nat) with (upcoming w 1)
    by (unfold upcoming; f_equal; lia).
  fold (retaliation_damage w e).
  destruct (decide (hp (player w) - retaliation_damage w e <= 0)).
  - mstep. f_equal. unfold after_counter, hit_room. world_eq.
  - unfold after_counter, hit_room. world_eq.
Qed.

Lemma use_class_skill_counter_error :
  0 < e_hp e - skill_damage w ->
  attack_power e < 1 ->
  use_class_skill w =
    (Raise ValueError,
     after_hit w room e (skill_damage w)
       [MsgUseSkill (cs_skill_name st) (skill_damage w)
                    (e_hp e - skill_damage w)]).
Proof.
  intros Hsurvives Hpower.
  enter_skill.
  destruct (decide (e_hp e - skill_damage w <= 0)) as [Hn | _]; [lia |].
  mstep. rewrite randint_empty by (mstep; lia).
  f_equal.
Qed.

End Skill.

Lemma use_class_skill_unknown_class :
  CLASS_STATS !! player_class (player w) = None ->
  use_class_skill w = (Raise (KeyError (player_class (player w))), w).
Proof.
  intros Hclass. unfold use_class_skill. enter_exchange.
  unfold get_class_skill_name. mstep. rewrite Hclass. reflexivity.
Qed.

End Exchange.

Lemma attack_enemy_none (w : World) (room : Room) :
  rooms w !! location (player w) = Some room ->
  live_enemy room = None ->
  attack_enemy w = (Return tt, written w [MsgNothingToAttack]).
Proof.
  intros Hroom Hnone. unfold attack_enemy. mstep.
  unfold lookup_room. rewrite Hroom. mstep. rewrite Hnone. reflexivity.
Qed.

Lemma use_class_skill_none (w : World) (room : Room) :
  rooms w !! location (player w) = Some room ->
  live_enemy room = None ->
  use_class_skill w = (Return tt, written w [MsgNoEnemyForSkill]).
Proof.
  intros Hroom Hnone. unfold use_class_skill. mstep.
  unfold lookup_room. rewrite Hroom. mstep. rewrite Hnone. reflexivity.
Qed.

Lemma no_room_raises (w : World) :
  rooms w !! location (player w) = None ->
  attack_enemy w = (Raise (KeyError (location (player w))), w) /\
  use_class_skill w = (Raise (KeyError (location (player w))), w).
Proof.
  intros Hnone. unfold attack_enemy, use_class_skill. mstep.
  unfold lookup_room. rewrite Hnone. split; reflexivity.
Qed.

Lemma new_line_app (w w' : World) (msgs : list Msg) (i : nat) (m : Msg) :
  output w' = output w ++ msgs -> msgs !! i = Some m ->
  new_line w w' i = Some m.
Proof.
  intros Hout Hm. unfold new_line. rewrite Hout.
  rewrite lookup_app_r by lia. rewrite <- Hm. f_equal. lia.
Qed.

Lemma heal_player_effect (w : World) :
  exists msgs,
    output (snd (heal_player w)) = output w ++ msgs /\
    rooms (snd (heal_player w)) = rooms w /\
    gui (snd (heal_player w)) = gui w /\
    fst (heal_player w) = Return tt.
Proof.
  destruct (Z_lt_le_dec (hp (player w)) (max_hp (player w))) as [Hlt | Hge].
  - rewrite (heal_player_run w Hlt). eexists. repeat split; reflexivity.
  - rewrite (heal_player_full w Hge). eexists. repeat split; reflexivity.
Qed.

Lemma basic_damage_range (w : World) :
  -2 <= base_attack (player w) ->
  Z.max 0 (base_attack (player w) - 2) <= basic_damage w
    <= base_attack (player w) + 2.
Proof.
  intros H. unfold basic_damage, calculate_attack.
  pose proof (randint_value_range (base_attack (player w) - 2)
                (base_attack (player w) + 2) (upcoming w 0)) as Hr.
  destruct (decide (_ < 0)); lia.
Qed.

Lemma enemy_at_insert (w : World) (key : string) (r : Room)
    (rs : gmap string Room) (oe : option Enemy) :
  rooms w = <[key := r]> rs -> enemy r = oe -> enemy_at w key = oe.
Proof.
  intros H <-. unfold enemy_at. rewrite H, lookup_insert_eq. reflexivity.
Qed.

(** ** The lines and the damage of an exchange *)

Section ExchangeFacts.

Variables (w : World) (room : Room) (e : Enemy).
Hypothesis Hroom : rooms w !! location (player w) = Some room.
Hypothesis Hlive : live_enemy room = Some e.

Lemma attack_enemy_output :
  let d := basic_damage w in
  let r := retaliation_damage w e in
  exists rest,
    output (snd (attack_enemy w))
    = output w ++ MsgLashOut (e_name e) d (e_hp e - d) :: rest /\
    (0 < e_hp e - d -> 1 <= attack_power e ->
     exists rest',
       rest = MsgCounter (e_name e) r (hp (player w) - r) :: rest').
Proof.
  intros d r. subst d r.
  destruct (Z_le_gt_dec (e_hp e - basic_damage w) 0) as [Hdead | Hsurv].
  - destruct (tasks (player w) !! "stun_opponent") as [b |] eqn:Htask.
    + rewrite (attack_enemy_kill w room e Hroom Hlive b Hdead Htask).
      eexists. split; [reflexivity | lia].
    + rewrite (attack_enemy_kill_no_task w room e Hroom Hlive Hdead Htask).
      eexists. split; [reflexivity | lia].
  - assert (Hsurv' : 0 < e_hp e - basic_damage w) by lia.
    destruct (Z_le_gt_dec 1 (attack_power e)) as [Hpow | Hpow].
    + rewrite (attack_enemy_counter w room e Hroom Hlive Hsurv' Hpow).
      destruct (decide (hp (player w) - retaliation_damage w e <= 0)).
      * match goal with
        | |- context [heal_player ?w1] =>
            destruct (heal_player_effect w1) as (msgs & Hout & _)
        end.
        rewrite Hout.
        exists (MsgCounter (e_name e) (retaliation_damage w e)
                  (hp (player w) - retaliation_damage w e)
                :: MsgSuccumb :: msgs).
        split; [| intros _ _; eexists; reflexivity].
        cbn [written after_counter set_output output set_rooms set_player
             consumed set_rand_pos].
        rewrite <- !app_assoc. reflexivity.
      * eexists. split; [reflexivity |]. intros _ _. eexists. reflexivity.
    + rewrite (attack_enemy_counter_error w room e Hroom Hlive Hsurv')
        by lia.
      eexists. split; [reflexivity | lia].
Qed.

Lemma attack_enemy_survivor :
  let d := basic_damage w in
  0 < e_hp e - d ->
  enemy_at (snd (attack_enemy w)) (location (player w))
  = Some (set_e_hp e (e_hp e - d)).
Proof.
  intros d Hsurv. subst d.
  destruct (Z_le_gt_dec 1 (attack_power e)) as [Hpow | Hpow].
  - rewrite (attack_enemy_counter w room e Hroom Hlive Hsurv Hpow).
    destruct (decide (hp (player w) - retaliation_damage w e <= 0)).
    + match goal with
      | |- context [heal_player ?w1] =>
          destruct (heal_player_effect w1) as (msgs & _ & Hrooms & _)
      end.
      eapply enemy_at_insert; [rewrite Hrooms; reflexivity | reflexivity].
    + eapply enemy_at_insert; reflexivity.
  - rewrite (attack_enemy_counter_error w room e Hroom Hlive Hsurv) by lia.
    eapply enemy_at_insert; reflexivity.
Qed.

Lemma attack_enemy_player_hp :
  let r := retaliation_damage w e in
  0 < e_hp e - basic_damage w -> 1 <= attack_power e ->
  0 < hp (player w) - r ->
  hp (player (snd (attack_enemy w))) = hp (player w) - r.
Proof.
  intros r Hsurv Hpow Hstand. subst r.
  rewrite (attack_enemy_counter w room e Hroom Hlive Hsurv Hpow).
  destruct (decide (hp (player w) - retaliation_damage w e <= 0)); [lia |].
  reflexivity.
Qed.

Variable st : ClassStat.
Hypothesis Hclass : CLASS_STATS !! player_class (player w) = Some st.

Lemma use_class_skill_output :
  let s := skill_damage w in
  let r := retaliation_damage w e in
  exists rest,
    output (snd (use_class_skill w))
    = output w ++ MsgUseSkill (cs_skill_name st) s (e_hp e - s) :: rest /\
    (0 < e_hp e - s -> 1 <= attack_power e ->
     exists rest',
       rest = MsgRetaliates (e_name e) r (hp (player w) - r) :: rest').
Proof.
  intros s r. subst s r.
  destruct (Z_le_gt_dec (e_hp e - skill_damage w) 0) as [Hdead | Hsurv].
  - destruct (tasks (player w) !! "stun_opponent") as [b |] eqn:Htask.
    + rewrite (use_class_skill_kill w room e Hroom Hlive st Hclass b
                 Hdead Htask).
      eexists. split; [reflexivity | lia].
    + rewrite (use_class_skill_kill_no_task w room e Hroom Hlive st Hclass
                 Hdead Htask).
      eexists. split; [reflexivity | lia].
  - assert (Hsurv' : 0 < e_hp e - skill_damage w) by lia.
    destruct (Z_le_gt_dec 1 (attack_power e)) as [Hpow | Hpow].
    + rewrite (use_class_skill_counter w room e Hroom Hlive st Hclass
                 Hsurv' Hpow).
      destruct (decide (hp (player w) - retaliation_damage w e <= 0)).
      * exists [MsgRetaliates (e_name e) (retaliation_damage w e)
                  (hp (player w) - retaliation_damage w e); MsgGameOver].
        split; [| intros _ _; eexists; reflexivity].
        cbn [snd written after_counter set_output output set_rooms
             set_player consumed set_rand_pos set_gui].
        rewrite <- !app_assoc. reflexivity.
      * eexists. split; [reflexivity |]. intros _ _. eexists. reflexivity.
    + rewrite (use_class_skill_counter_error w room e Hroom Hlive st Hclass
                 Hsurv') by lia.
      eexists. split; [reflexivity | lia].
Qed.

Lemma use_class_skill_survivor :
  let s := skill_damage w in
  0 < e_hp e - s ->
  enemy_at (snd (use_class_skill w)) (location (player w))
  = Some (set_e_hp e (e_hp e - s)) /\
  (1 <= attack_power e ->
   hp (player (snd (use_class_skill w)))
   = hp (player w) - retaliation_damage w e).
Proof.
  intros s Hsurv. subst s.
  destruct (Z_le_gt_dec 1 (attack_power e)) as [Hpow | Hpow].
  - rewrite (use_class_skill_counter w room e Hroom Hlive st Hclass
               Hsurv Hpow).
    destruct (decide (hp (player w) - retaliation_damage w e <= 0));
      (split; [eapply enemy_at_insert; reflexivity | intros _; reflexivity]).
  - rewrite (use_class_skill_counter_error w room e Hroom Hlive st Hclass
               Hsurv) by lia.
    split; [eapply enemy_at_insert; reflexivity | lia].
Qed.

End ExchangeFacts.

(** C4. In an exchange against the live enemy [e] of the current room:
    - a basic attack subtracts [basic_damage w], which lies between
      [max 0 (base_attack - 2)] and [base_attack + 2] (for a base attack of
      at least -2, so for every non-negative one): the line written first
      reports it with the enemy's remaining hit points, and a surviving
      enemy is left with exactly that many;
    - a skill attack (of a player with a known class) subtracts
      [skill_damage w], which lies between 10 and 15, in the same way;
    - when the enemy survives and can answer ([attack_power >= 1]), the
      answer [retaliation_damage w e] lies between 1 and [attack_power]:
      the line written second reports it with the player's hit points after
      the subtraction, which are the player's hit points after the exchange
      unless the player fell in a basic attack. *)
Theorem exchange_damage_ranges (w : World) (room : Room) (e : Enemy) :
  rooms w !! location (player w) = Some room ->
  live_enemy room = Some e ->
  -2 <= base_attack (player w) ->
  let key := location (player w) in
  let d := basic_damage w in
  let s := skill_damage w in
  let r := retaliation_damage w e in
  let wa := snd (attack_enemy w) in
  let ws := snd (use_class_skill w) in
  (Z.max 0 (base_attack (player w) - 2) <= d <= base_attack (player w) + 2 /\
   new_line w wa 0 = Some (MsgLashOut (e_name e) d (e_hp e - d)) /\
   (0 < e_hp e - d -> enemy_at wa key = Some (set_e_hp e (e_hp e - d)))) /\
  (forall st, CLASS_STATS !! player_class (player w) = Some st ->
   10 <= s <= 15 /\
   new_line w ws 0 = Some (MsgUseSkill (cs_skill_name st) s (e_hp e - s)) /\
   (0 < e_hp e - s -> enemy_at ws key = Some (set_e_hp e (e_hp e - s)))) /\
  (1 <= attack_power e ->
   1 <= r <= attack_power e /\
   (0 < e_hp e - d ->
    new_line w wa 1 = Some (MsgCounter (e_name e) r (hp (player w) - r)) /\
    (0 < hp (player w) - r -> hp (player wa) = hp (player w) - r)) /\
   (forall st, CLASS_STATS !! player_class (player w) = Some st ->
    0 < e_hp e - s ->
    new_line w ws 1 = Some (MsgRetaliates (e_name e) r (hp (player w) - r)) /\
    hp (player ws) = hp (player w) - r)).
Proof.
  intros Hroom Hlive Hattack key d s r wa ws.
  destruct (attack_enemy_output w room e Hroom Hlive)
    as (rest & Hout & Hcounter).
  split; [| split].
  - split; [apply basic_damage_range; exact Hattack |].
    split.
    + apply (new_line_app w wa _ 0 _ Hout). reflexivity.
    + apply (attack_enemy_survivor w room e Hroom Hlive).
  - intros st Hclass.
    destruct (use_class_skill_output w room e Hroom Hlive st Hclass)
      as (rest_s & Hout_s & _).
    split; [apply randint_value_range; lia |].
    split.
    + apply (new_line_app w ws _ 0 _ Hout_s). reflexivity.
    + apply (use_class_skill_survivor w room e Hroom Hlive st Hclass).
  - intros Hpow.
    split; [apply randint_value_range; exact Hpow |]. split.
    + intros Hsurv. destruct (Hcounter Hsurv Hpow) as (rest' & ->).
      split.
      * apply (new_line_app w wa _ 1 _ Hout). reflexivity.
      * apply (attack_enemy_player_hp w room e Hroom Hlive Hsurv Hpow).
    + intros st Hclass Hsurv.
      destruct (use_class_skill_output w room e Hroom Hlive st Hclass)
        as (rest_s & Hout_s & Hcounter_s).
      destruct (Hcounter_s Hsurv Hpow) as (rest' & ->).
      split.
      * apply (new_line_app w ws _ 1 _ Hout_s). reflexivity.
      * apply (use_class_skill_survivor w room e Hroom Hlive st Hclass Hsurv).
        exact Hpow.
Qed.

Lemma exchange_damage_ranges_witness :
  let w := duel_world new_warrior anti_claws (raw_numbers [2; 11]) in
  exists room,
    rooms w !! location (player w) = Some room /\
    live_enemy room = Some anti_claws /\
    -2 <= base_attack (player w) /\
    (Z.max 0 (base_attack (player w) - 2) <= basic_damage w
       <= base_attack (player w) + 2 /\
     new_line w (snd (attack_enemy w)) 0
     = Some (MsgLashOut (e_name anti_claws) (basic_damage w)
                        (e_hp anti_claws - basic_damage w)) /\
     (0 < e_hp anti_claws - basic_damage w ->
      enemy_at (snd (attack_enemy w)) (location (player w))
      = Some (set_e_hp anti_claws (e_hp anti_claws - basic_damage w)))).
Proof.
  intros w. eexists.
  split; [vm_compute; reflexivity |].
  split; [vm_compute; reflexivity |].
  split; [vm_compute; discriminate |].
  refine (proj1 (exchange_damage_ranges w _ anti_claws _ _ _)).
  - vm_compute. reflexivity.
  - vm_compute. reflexivity.
  - vm_compute. discriminate.
Defined.





(** C6 (as amended). When the enemy survives a basic attack and its answer
    brings the player's hit points to zero or below, the exchange ends with
    one [heal_player] call, not with a game over: the call returns, the
    widgets and timer flags are untouched, and (for a positive maximum) the
    hit points after the exchange are the hit points after the answer plus a
    random amount between 5 and 15, capped at the maximum. They are
    therefore at most 15, and equal the maximum only when the maximum is
    that small. *)
Theorem fallen_player_heals (w : World) (room : Room) (e : Enemy) :
  rooms w !! location (player w) = Some room ->
  live_enemy room = Some e ->
  0 < e_hp e - basic_damage w ->
  1 <= attack_power e ->
  hp (player w) - retaliation_damage w e <= 0 ->
  0 < max_hp (player w) ->
  let d := basic_damage w in
  let r := retaliation_damage w e in
  let heal_amount := randint_value 5 15 (upcoming w 2) in
  let w' := snd (attack_enemy w) in
  fst (attack_enemy w) = Return tt /\
  5 <= heal_amount <= 15 /\
  hp (player w')
  = Z.min (hp (player w) - r + heal_amount) (max_hp (player w)) /\
  hp (player w') <= 15 /\
  max_hp (player w') = max_hp (player w) /\
  gui w' = gui w /\
  output w'
  = output w ++
    [MsgLashOut (e_name e) d (e_hp e - d);
     MsgCounter (e_name e) r (hp (player w) - r);
     MsgSuccumb;
     MsgPatchUp heal_amount (hp (player w'))].
Proof.
  intros Hroom Hlive Hsurv Hpow Hfall Hmax d r heal_amount w'.
  assert (Hheal : 5 <= heal_amount <= 15)
    by (apply randint_value_range; lia).
  subst w'.
  rewrite (attack_enemy_counter w room e Hroom Hlive Hsurv Hpow).
  destruct (decide (hp (player w) - retaliation_damage w e <= 0)) as [_ | Hn];
    [| lia].
  rewrite heal_player_run by (cbn [written after_counter set_output player
                                   set_rooms set_player hp max_hp set_hp]; lia).
  cbn [fst snd written after_counter set_output set_rooms set_player
       consumed set_rand_pos player hp max_hp set_hp gui output rand_pos
       rand_src upcoming].
  replace (rand_src w (rand_pos w + 2 + 0)%nat) with (upcoming w 2)
    by (unfold upcoming; f_equal; lia).
  fold heal_amount. fold r. fold d.
  split; [reflexivity |]. split; [exact Hheal |]. split; [reflexivity |].
  split; [subst r; lia |]. split; [reflexivity |]. split; [reflexivity |].
  rewrite <- !app_assoc. reflexivity.
Qed.

Lemma fallen_player_heals_witness :
  let w := duel_world (set_hp new_warrior 5) anti_claws
                      (raw_numbers [2; 11; 10]) in
  let w' := snd (attack_enemy w) in
  exists room,
    rooms w !! location (player w) = Some room /\
    live_enemy room = Some anti_claws /\
    0 < e_hp anti_claws - basic_damage w /\
    1 <= attack_power anti_claws /\
    hp (player w) - retaliation_damage w anti_claws <= 0 /\
    0 < max_hp (player w) /\
    fst (attack_enemy w) = Return tt /\
    hp (player w') <= 15 /\
    gui w' = gui w.
Proof.
  intros w w'. eexists.
  split; [vm_compute; reflexivity |].
  match goal with
  | |- live_enemy ?room = _ /\ _ =>
      assert (Hroom : rooms w !! location (player w) = Some room)
        by (vm_compute; reflexivity);
      assert (Hlive : live_enemy room = Some anti_claws)
        by (vm_compute; reflexivity);
      pose proof (fallen_player_heals w room anti_claws Hroom Hlive) as H
  end.
  assert (Hsurv : 0 < e_hp anti_claws - basic_damage w)
    by (vm_compute; reflexivity).
  assert (Hpow : 1 <= attack_power anti_claws)
    by (vm_compute; discriminate).
  assert (Hfall : hp (player w) - retaliation_damage w anti_claws <= 0)
    by (vm_compute; discriminate).
  assert (Hmax : 0 < max_hp (player w)) by (vm_compute; reflexivity).
  destruct (H Hsurv Hpow Hfall Hmax) as (Hret & _ & _ & Hhp & _ & Hgui & _).
  exact (conj Hlive (conj Hsurv (conj Hpow (conj Hfall (conj Hmax
           (conj Hret (conj Hhp Hgui))))))).
Defined.

(** C6 as stated fails: a level-1 warrior with 5 of 120 hit points attacks
    an Anti Claws (100 hit points, attack power 12). The blow deals 8, the
    enemy survives and answers with 12, the player drops to -7, and the
    heal of 15 leaves 8 hit points, not the maximum 120. *)
Lemma fallen_player_not_restored :
  let w := duel_world (set_hp new_warrior 5) anti_claws
                      (raw_numbers [2; 11; 10]) in
  let w' := snd (attack_enemy w) in
  valid_player (player w) /\
  enemy_at w (location (player w)) = Some anti_claws /\
  is_alive anti_claws = true /\
  basic_damage w = 8 /\
  enemy_at w' (location (player w)) = Some (set_e_hp anti_claws 92) /\
  retaliation_damage w anti_claws = 12 /\
  hp (player w) - retaliation_damage w anti_claws = -7 /\
  fst (attack_enemy w) = Return tt /\
  hp (player w') = 8 /\
  max_hp (player w') = 120 /\
  hp (player w') <> max_hp (player w').
Proof.
  intros w w'.
  split; [subst w; compute_done |].
  repeat split; try (vm_compute; reflexivity).
  vm_compute. discriminate.
Qed.

(** ** Movement and inventory *)

Lemma move_player_no_exit (w : World) (room : Room) (direction : string) :
  rooms w !! location (player w) = Some room ->
  exit_not_none room direction = None ->
  move_player direction w = (Return tt, written w [MsgCantGo]).
Proof.
  intros Hroom Hexit. unfold move_player. mstep.
  unfold lookup_room. rewrite Hroom. mstep. rewrite Hexit. reflexivity.
Qed.

Lemma pickup_item_absent (w : World) (room : Room) (item_name : string) :
  rooms w !! location (player w) = Some room ->
  item_name ∉ items room ->
  pickup_item item_name w = (Return tt, written w [MsgItemNotHere]).
Proof.
  intros Hroom Habsent. unfold pickup_item. mstep.
  unfold lookup_room. rewrite Hroom. mstep.
  rewrite bool_decide_eq_false_2 by exact Habsent. reflexivity.
Qed.

Lemma drop_item_absent (w : World) (item_name : string) :
  item_name ∉ inventory (player w) ->
  drop_item item_name w = (Return tt, written w [MsgDontHaveItem]).
Proof.
  intros Habsent. unfold drop_item. mstep.
  rewrite bool_decide_eq_false_2 by exact Habsent. reflexivity.
Qed.

Lemma use_item_absent (w : World) (item_name : string) :
  item_name ∉ inventory (player w) ->
  use_item item_name w = (Return tt, written w [MsgNotInBag]).
Proof.
  intros Habsent. unfold use_item. mstep.
  rewrite bool_decide_eq_false_2 by exact Habsent. reflexivity.
Qed.

Lemma use_item_useless (w : World) (item_name : string) :
  item_name ∈ inventory (player w) ->
  str_contains "healing_potion" item_name = false ->
  use_item item_name w = (Return tt, written w [MsgCantUse]).
Proof.
  intros Hheld Hname. unfold use_item. mstep.
  rewrite bool_decide_eq_true_2 by exact Hheld. rewrite Hname. reflexivity.
Qed.

Lemma use_item_potion (w : World) (item_name : string) :
  item_name ∈ inventory (player w) ->
  str_contains "healing_potion" item_name = true ->
  let heal_amount := randint_value 20 40 (upcoming w 0) in
  let new_hp := Z.min (hp (player w) + heal_amount) (max_hp (player w)) in
  use_item item_name w =
    (Return tt,
     set_player
       (written (consumed w 1) [MsgDrinkPotion heal_amount new_hp])
       (set_inventory (set_hp (player w) new_hp)
                      (list_remove item_name (inventory (player w))))).
Proof.
  intros Hheld Hname heal_amount new_hp. unfold use_item. mstep.
  rewrite bool_decide_eq_true_2 by exact Hheld. rewrite Hname.
  rewrite randint_run by lia. mstep. reflexivity.
Qed.

(** [list.remove] deletes the first occurrence and nothing else. *)
Lemma list_remove_first (x : string) (l : list string) :
  x ∈ l ->
  exists l1 l2,
    l = l1 ++ x :: l2 /\ (x ∉ l1) /\ list_remove x l = l1 ++ l2.
Proof.
  induction l as [| y l IH]; intros Hin.
  - inversion Hin.
  - simpl. destruct (decide (y = x)) as [-> | Hne].
    + exists [], l. repeat split. apply not_elem_of_nil.
    + apply elem_of_cons in Hin. destruct Hin as [-> | Hin]; [congruence |].
      destruct (IH Hin) as (l1 & l2 & Hl & Hnot & Hrem).
      exists (y :: l1), l2. rewrite Hl at 1. rewrite Hrem.
      repeat split. rewrite not_elem_of_cons. split; [congruence | exact Hnot].
Qed.

(** C9. When the precondition of an operation fails, the operation returns
    after writing one line and the state is the one before with that line
    appended: [attack_enemy] and [use_class_skill] without a live enemy in
    the current room, [move_player] towards a direction that is no key of
    the room's exits or whose value is [None], [pickup_item] of an item that
    is not in the room, [drop_item] and [use_item] of an item that is not
    in the inventory. Appending lines changes no other component: the
    player with inventory and tasks, every room with its items and enemy,
    the random generator, the clock, the save file and the widgets are the
    same. *)
Theorem failed_precondition_only_reports (w : World) (room : Room) :
  rooms w !! location (player w) = Some room ->
  (live_enemy room = None ->
   attack_enemy w = (Return tt, written w [MsgNothingToAttack]) /\
   use_class_skill w = (Return tt, written w [MsgNoEnemyForSkill])) /\
  (forall direction,
     dict_get (exits room) direction = None \/
     dict_get (exits room) direction = Some None ->
     move_player direction w = (Return tt, written w [MsgCantGo])) /\
  (forall item_name,
     item_name ∉ items room ->
     pickup_item item_name w = (Return tt, written w [MsgItemNotHere])) /\
  (forall item_name,
     item_name ∉ inventory (player w) ->
     drop_item item_name w = (Return tt, written w [MsgDontHaveItem]) /\
     use_item item_name w = (Return tt, written w [MsgNotInBag])) /\
  (forall msgs,
     let w' := written w msgs in
     player w' = player w /\ rooms w' = rooms w /\
     auto_move_index w' = auto_move_index w /\
     rand_src w' = rand_src w /\ rand_pos w' = rand_pos w /\
     clock w' = clock w /\ save_file w' = save_file w /\ gui w' = gui w /\
     output w' = output w ++ msgs).
Proof.
  intros Hroom. split; [| split; [| split; [| split]]].
  - intros Hnone. split.
    + apply (attack_enemy_none w room Hroom Hnone).
    + apply (use_class_skill_none w room Hroom Hnone).
  - intros direction Hexit. apply (move_player_no_exit w room direction Hroom).
    unfold exit_not_none. destruct Hexit as [-> | ->]; reflexivity.
  - intros item_name Habsent.
    apply (pickup_item_absent w room item_name Hroom Habsent).
  - intros item_name Habsent. split.
    + apply drop_item_absent. exact Habsent.
    + apply use_item_absent. exact Habsent.
  - intros msgs w'. repeat split.
Qed.

Lemma failed_precondition_only_reports_witness :
  let w := quiet_world new_warrior (raw_numbers []) in
  exists room,
    rooms w !! location (player w) = Some room /\
    attack_enemy w = (Return tt, written w [MsgNothingToAttack]) /\
    move_player "north" w = (Return tt, written w [MsgCantGo]) /\
    pickup_item "sword" w = (Return tt, written w [MsgItemNotHere]) /\
    drop_item "sword" w = (Return tt, written w [MsgDontHaveItem]).
Proof.
  intros w.
  pose (room := default (Room_init "" "" [] [])
                        (rooms w !! location (player w))).
  assert (Hroom : rooms w !! location (player w) = Some room)
    by (vm_compute; reflexivity).
  exists room. split; [exact Hroom |].
  destruct (failed_precondition_only_reports w room Hroom)
    as (Hfight & Hmove & Hpick & Hdrop & _).
  split; [apply Hfight; vm_compute; reflexivity |].
  split; [apply Hmove; left; vm_compute; reflexivity |].
  split; [apply Hpick; compute_done |].
  apply Hdrop. compute_done.
Defined.

(** C10. [use_item] on a held item:
    - when the name does not contain ["healing_potion"], the call returns
      after writing one line and nothing else changes: the item stays in the
      inventory, and the player's hit points, level, tasks and location and
      every room (items and enemy) are the same;
    - when the name contains ["healing_potion"], the hit points become
      [min (hp + heal_amount) max_hp] for an integer [heal_amount] between
      20 and 40, and the inventory loses exactly the first occurrence of the
      item; level, tasks, location and the rooms are the same. *)
Theorem use_item_effects (w : World) (item_name : string) :
  item_name ∈ inventory (player w) ->
  let w' := snd (use_item item_name w) in
  fst (use_item item_name w) = Return tt /\
  (str_contains "healing_potion" item_name = false ->
   w' = written w [MsgCantUse] /\
   player w' = player w /\ rooms w' = rooms w /\
   item_name ∈ inventory (player w')) /\
  (str_contains "healing_potion" item_name = true ->
   exists heal_amount : Z,
     20 <= heal_amount <= 40 /\
     hp (player w')
     = Z.min (hp (player w) + heal_amount) (max_hp (player w)) /\
     (exists l1 l2,
        inventory (player w) = l1 ++ item_name :: l2 /\
        (item_name ∉ l1) /\
        inventory (player w') = l1 ++ l2) /\
     max_hp (player w') = max_hp (player w) /\
     level (player w') = level (player w) /\
     exp (player w') = exp (player w) /\
     tasks (player w') = tasks (player w) /\
     location (player w') = location (player w) /\
     rooms w' = rooms w).
Proof.
  intros Hheld w'. subst w'.
  destruct (str_contains "healing_potion" item_name) eqn:Hname.
  - rewrite (use_item_potion w item_name Hheld Hname).
    split; [reflexivity |]. split; [discriminate |]. intros _.
    exists (randint_value 20 40 (upcoming w 0)).
    split; [apply randint_value_range; lia |].
    split; [reflexivity |].
    split; [| repeat split].
    destruct (list_remove_first item_name (inventory (player w)) Hheld)
      as (l1 & l2 & Hl & Hnot & Hrem).
    exists l1, l2. split; [exact Hl |]. split; [exact Hnot |].
    cbn [snd set_player player set_inventory inventory]. exact Hrem.
  - rewrite (use_item_useless w item_name Hheld Hname).
    split; [reflexivity |]. split; [| discriminate]. intros _.
    repeat split. exact Hheld.
Qed.

Lemma use_item_effects_witness :
  let p := set_inventory (set_hp new_warrior 50)
             ["wooden_sword"; "healing_potion"; "healing_potion"] in
  let w := quiet_world p (raw_numbers [7]) in
  "healing_potion" ∈ inventory (player w) /\
  "wooden_sword" ∈ inventory (player w) /\
  fst (use_item "healing_potion" w) = Return tt /\
  fst (use_item "wooden_sword" w) = Return tt /\
  snd (use_item "wooden_sword" w) = written w [MsgCantUse] /\
  hp (player (snd (use_item "healing_potion" w))) = 77 /\
  inventory (player (snd (use_item "healing_potion" w)))
  = ["wooden_sword"; "healing_potion"].
Proof.
  intros p w.
  assert (H1 : "healing_potion" ∈ inventory (player w)) by compute_done.
  assert (H2 : "wooden_sword" ∈ inventory (player w)) by compute_done.
  split; [exact H1 |]. split; [exact H2 |].
  split; [exact (proj1 (use_item_effects w "healing_potion" H1)) |].
  destruct (use_item_effects w "wooden_sword" H2) as (Hret & Huseless & _).
  split; [exact Hret |].
  split; [exact (proj1 (Huseless eq_refl)) |].
  split; vm_compute; reflexivity.
Defined.

(** ** Enemy lifecycle and looking around *)

Lemma spawned_enemy_is_Some (raw : Z) : is_Some (spawned_enemy raw).
Proof.
  unfold spawned_enemy.
  destruct (ENEMY_POOL !! Z.to_nat (raw mod Z.of_nat (length ENEMY_POOL)))
    as [t |] eqn:Hlookup; [eexists; reflexivity |].
  apply lookup_ge_None in Hlookup. cbn [ENEMY_POOL length] in Hlookup.
  pose proof (Z.mod_pos_bound raw 5). lia.
Qed.

Lemma choice_pool_run (w : World) :
  choice ENEMY_POOL w =
    match ENEMY_POOL !! Z.to_nat (upcoming w 0 mod Z.of_nat (length ENEMY_POOL)) with
    | Some chosen => (Return chosen, consumed w 1)
    | None => (Raise IndexError, consumed w 1)
    end.
Proof.
  unfold choice, random_raw, upcoming, consumed. cbn [ENEMY_POOL]. mstep.
  rewrite Nat.add_0_r, Nat.add_1_r.
  destruct (_ !! _); reflexivity.
Qed.

Lemma spawn_enemy_run (key : string) (room : Room) (w : World) :
  rooms w !! key = Some room ->
  spawn_enemy key w =
    match live_enemy room with
    | Some _ => (Return tt, w)
    | None =>
        if decide (respawn_timer room <= clock w) then
          (Return tt,
           set_rooms (consumed w 1)
             (<[key := set_enemy room (spawned_enemy (upcoming w 0))]>
                (rooms w)))
        else (Return tt, w)
    end.
Proof.
  intros Hroom. unfold spawn_enemy. mstep.
  unfold lookup_room. rewrite Hroom. mstep.
  destruct (live_enemy room); [reflexivity |].
  destruct (decide (respawn_timer room <= clock w)); [| reflexivity].
  rewrite choice_pool_run.
  destruct (spawned_enemy_is_Some (upcoming w 0)) as [e He].
  unfold spawned_enemy in *.
  destruct (ENEMY_POOL !! _) as [t |]; [| discriminate].
  mstep. rewrite (alter_lookup_Some _ _ room) by exact Hroom.
  reflexivity.
Qed.

Lemma written_nil (w : World) : written w [] = w.
Proof. unfold written. rewrite app_nil_r. destruct w; reflexivity. Qed.

Lemma written_written (w : World) (ms1 ms2 : list Msg) :
  written (written w ms1) ms2 = written w (ms1 ++ ms2).
Proof. unfold written. cbn [set_output output]. rewrite app_assoc. reflexivity. Qed.

Lemma write_line_run (m : Msg) (w : World) :
  write_line m w = (Return tt, written w [m]).
Proof. reflexivity. Qed.

Lemma write_lines_run (ms : list Msg) (w : World) :
  write_lines ms w = (Return tt, written w ms).
Proof.
  revert w. induction ms as [| m ms IH]; intros w.
  - rewrite written_nil. reflexivity.
  - cbn [write_lines]. unfold bind. rewrite write_line_run, IH.
    rewrite written_written. reflexivity.
Qed.

(** The lines of [look_around], once the room is read. *)
Lemma describe_room_run (room : Room) (w : World) :
  (let* _ := write_line (MsgLocation (r_name room)) in
   let* _ := write_line (MsgDescription (description room)) in
   let* _ := match items room with
             | [] => ret tt
             | _ => let* _ := write_line MsgItemsHeader in
                    write_lines (MsgItem <$> items room)
             end in
   let* _ := match live_enemy room with
             | Some e => write_line (MsgHostile (e_name e) (e_hp e))
             | None => ret tt
             end in
   write_line (MsgExits (visible_exits room))) w
  = (Return tt, written w (room_view room)).
Proof.
  unfold room_view, bind. rewrite !write_line_run.
  destruct (items room) as [| i l];
    destruct (live_enemy room) as [e |];
    cbn [ret]; rewrite ?write_line_run, ?write_lines_run, ?write_line_run,
                       ?written_written; reflexivity.
Qed.

Lemma look_around_run (w : World) (room : Room) :
  rooms w !! location (player w) = Some room ->
  exists room1,
    let w1 := snd (spawn_enemy (location (player w)) w) in
    rooms w1 !! location (player w) = Some room1 /\
    look_around w = (Return tt, written w1 (room_view room1)).
Proof.
  intros Hroom. unfold look_around, maybe_respawn_mob.
  unfold bind at 1. cbn [get_player].
  unfold bind at 1. unfold lookup_room at 1. rewrite Hroom.
  unfold bind at 1.
  assert (Hsp : exists room1 w1,
            spawn_enemy (location (player w)) w = (Return tt, w1) /\
            rooms w1 !! location (player w) = Some room1).
  { rewrite (spawn_enemy_run _ room w Hroom).
    destruct (live_enemy room); [exists room, w; split; [reflexivity | exact Hroom] |].
    destruct (decide (respawn_timer room <= clock w)).
    - eexists. eexists. split; [reflexivity |]. apply lookup_insert_eq.
    - exists room, w. split; [reflexivity | exact Hroom]. }
  destruct Hsp as (room1 & w1 & Hspawn & Hroom1).
  rewrite Hspawn. cbn [snd].
  unfold bind at 1. unfold lookup_room. rewrite Hroom1.
  exists room1. split; [reflexivity |].
  apply describe_room_run.
Qed.
(** ** What an exchange leaves untouched *)

Lemma heal_player_frame (w : World) :
  let w' := snd (heal_player w) in
  fst (heal_player w) = Return tt /\
  rooms w' = rooms w /\
  location (player w') = location (player w) /\
  max_hp (player w') = max_hp (player w) /\
  auto_move_index w' = auto_move_index w /\
  clock w' = clock w.
Proof.
  destruct (Z_lt_le_dec (hp (player w)) (max_hp (player w))) as [Hlt | Hge].
  - rewrite (heal_player_run w Hlt). repeat split.
  - rewrite (heal_player_full w Hge). repeat split.
Qed.

Ltac exchange_frame :=
  cbn [fst snd after_kill after_counter after_hit written consumed victor
       set_player set_rooms set_rand_pos set_output set_gui
       player rooms auto_move_index clock
       set_tasks set_hp location];
  repeat split;
  try (intros; rewrite lookup_insert_ne by congruence; reflexivity);
  try (apply add_experience_frame).

Lemma attack_enemy_frame (w : World) :
  let w' := snd (attack_enemy w) in
  location (player w') = location (player w) /\
  (forall k, k <> location (player w) -> rooms w' !! k = rooms w !! k) /\
  auto_move_index w' = auto_move_index w /\
  clock w' = clock w.
Proof.
  destruct (rooms w !! location (player w)) as [room |] eqn:Hroom;
    [| rewrite (proj1 (no_room_raises w Hroom)); repeat split].
  destruct (live_enemy room) as [e |] eqn:Hlive;
    [| rewrite (attack_enemy_none w room Hroom Hlive); repeat split].
  destruct (Z_le_gt_dec (e_hp e - basic_damage w) 0) as [Hdead | Hsurv].
  - destruct (tasks (player w) !! "stun_opponent") as [b |] eqn:Htask.
    + rewrite (attack_enemy_kill w room e Hroom Hlive b Hdead Htask).
      exchange_frame.
    + rewrite (attack_enemy_kill_no_task w room e Hroom Hlive Hdead Htask).
      exchange_frame.
  - assert (Hsurv' : 0 < e_hp e - basic_damage w) by lia.
    destruct (Z_le_gt_dec 1 (attack_power e)) as [Hpow | Hpow].
    + rewrite (attack_enemy_counter w room e Hroom Hlive Hsurv' Hpow).
      destruct (decide (hp (player w) - retaliation_damage w e <= 0)).
      * match goal with
        | |- context [heal_player ?w1] =>
            destruct (heal_player_frame w1) as (_ & Hr & Hl & _ & Hi & Hc)
        end.
        cbv zeta. rewrite Hr, Hl, Hi, Hc. exchange_frame.
      * exchange_frame.
    + rewrite (attack_enemy_counter_error w room e Hroom Hlive Hsurv')
        by lia.
      exchange_frame.
Qed.

Lemma use_class_skill_frame (w : World) :
  let w' := snd (use_class_skill w) in
  location (player w') = location (player w) /\
  (forall k, k <> location (player w) -> rooms w' !! k = rooms w !! k) /\
  auto_move_index w' = auto_move_index w /\
  clock w' = clock w.
Proof.
  destruct (rooms w !! location (player w)) as [room |] eqn:Hroom;
    [| rewrite (proj2 (no_room_raises w Hroom)); repeat split].
  destruct (live_enemy room) as [e |] eqn:Hlive;
    [| rewrite (use_class_skill_none w room Hroom Hlive); repeat split].
  destruct (CLASS_STATS !! player_class (player w)) as [st |] eqn:Hclass;
    [| rewrite (use_class_skill_unknown_class w room e Hroom Hlive Hclass);
       repeat split].
  destruct (Z_le_gt_dec (e_hp e - skill_damage w) 0) as [Hdead | Hsurv].
  - destruct (tasks (player w) !! "stun_opponent") as [b |] eqn:Htask.
    + rewrite (use_class_skill_kill w room e Hroom Hlive st Hclass b
                 Hdead Htask).
      exchange_frame.
    + rewrite (use_class_skill_kill_no_task w room e Hroom Hlive st Hclass
                 Hdead Htask).
      exchange_frame.
  - assert (Hsurv' : 0 < e_hp e - skill_damage w) by lia.
    destruct (Z_le_gt_dec 1 (attack_power e)) as [Hpow | Hpow].
    + rewrite (use_class_skill_counter w room e Hroom Hlive st Hclass
                 Hsurv' Hpow).
      destruct (decide (hp (player w) - retaliation_damage w e <= 0));
        exchange_frame.
    + rewrite (use_class_skill_counter_error w room e Hroom Hlive st Hclass
                 Hsurv') by lia.
      exchange_frame.
Qed.

(** ** Frames of the lifecycle and of movement *)

Lemma spawn_enemy_frame (key : string) (w : World) :
  let w' := snd (spawn_enemy key w) in
  player w' = player w /\
  auto_move_index w' = auto_move_index w /\
  clock w' = clock w /\
  (forall k, k <> key -> rooms w' !! k = rooms w !! k) /\
  (forall room, rooms w !! key = Some room ->
     (live_enemy room <> None \/ clock w < respawn_timer room) -> w' = w).
Proof.
  destruct (rooms w !! key) as [room |] eqn:Hroom.
  - rewrite (spawn_enemy_run key room w Hroom).
    destruct (live_enemy room) eqn:Hlive.
    + repeat split.
    + destruct (decide (respawn_timer room <= clock w)).
      * cbn [snd set_rooms consumed set_rand_pos player auto_move_index
             clock rooms].
        repeat split.
        -- intros k Hk. rewrite lookup_insert_ne by congruence. reflexivity.
        -- intros room' [= <-] [Hl | Hc]; [congruence | lia].
      * repeat split.
  - unfold spawn_enemy, bind, lookup_room. rewrite Hroom. repeat split.
Qed.

Lemma look_around_no_room (w : World) :
  rooms w !! location (player w) = None ->
  look_around w = (Raise (KeyError (location (player w))), w).
Proof.
  intros Hnone. unfold look_around. mstep. unfold lookup_room.
  rewrite Hnone. reflexivity.
Qed.

Lemma look_around_frame (w : World) :
  let w' := snd (look_around w) in
  player w' = player w /\
  auto_move_index w' = auto_move_index w /\
  clock w' = clock w /\
  rooms w' = rooms (snd (spawn_enemy (location (player w)) w)) /\
  (fst (look_around w) = Return tt ->
   is_Some (rooms w' !! location (player w'))).
Proof.
  destruct (spawn_enemy_frame (location (player w)) w)
    as (Hp & Hi & Hc & _ & _).
  destruct (rooms w !! location (player w)) as [room |] eqn:Hroom.
  - destruct (look_around_run w room Hroom) as (room1 & Hroom1 & ->).
    cbn [fst snd written set_output player auto_move_index clock rooms].
    rewrite Hp. repeat split; try assumption.
    intros _. eexists. exact Hroom1.
  - rewrite (look_around_no_room w Hroom).
    cbn [fst snd]. repeat split; try discriminate.
    unfold spawn_enemy, bind, lookup_room. rewrite Hroom. reflexivity.
Qed.

Lemma move_player_run (w : World) (room : Room) (direction dest : string) :
  rooms w !! location (player w) = Some room ->
  exit_not_none room direction = Some dest ->
  move_player direction w
  = look_around (set_player w (set_location (player w) dest)).
Proof.
  intros Hroom Hexit. unfold move_player. mstep.
  unfold lookup_room. rewrite Hroom. mstep. rewrite Hexit. reflexivity.
Qed.

Lemma move_player_no_room (w : World) (direction : string) :
  rooms w !! location (player w) = None ->
  move_player direction w = (Raise (KeyError (location (player w))), w).
Proof.
  intros Hnone. unfold move_player. mstep. unfold lookup_room.
  rewrite Hnone. reflexivity.
Qed.

Lemma move_player_returns (direction : string) (w : World) :
  fst (move_player direction w) = Return tt ->
  is_Some (rooms (snd (move_player direction w))
           !! location (player (snd (move_player direction w)))).
Proof.
  destruct (rooms w !! location (player w)) as [room |] eqn:Hroom.
  - destruct (exit_not_none room direction) as [dest |] eqn:Hexit.
    + rewrite (move_player_run w room direction dest Hroom Hexit).
      apply look_around_frame.
    + rewrite (move_player_no_exit w room direction Hroom Hexit).
      intros _. exists room. exact Hroom.
  - rewrite (move_player_no_room w direction Hroom). discriminate.
Qed.

Lemma move_player_frame (direction : string) (w : World) :
  let w' := snd (move_player direction w) in
  auto_move_index w' = auto_move_index w /\ clock w' = clock w.
Proof.
  destruct (rooms w !! location (player w)) as [room |] eqn:Hroom.
  - destruct (exit_not_none room direction) as [dest |] eqn:Hexit.
    + rewrite (move_player_run w room direction dest Hroom Hexit).
      destruct (look_around_frame
                  (set_player w (set_location (player w) dest)))
        as (_ & Hi & Hc & _).
      split; assumption.
    + rewrite (move_player_no_exit w room direction Hroom Hexit).
      split; reflexivity.
  - rewrite (move_player_no_room w direction Hroom). split; reflexivity.
Qed.

(** ** The automation policy *)

Lemma bind_ret_tt (m : M unit) (w : World) :
  (let* _ := m in ret tt) w = m w.
Proof. unfold bind. destruct (m w) as [[[] | e] w']; reflexivity. Qed.

Lemma set_auto_move_index_same (w : World) :
  set_auto_move_index w (auto_move_index w) = w.
Proof. destruct w; reflexivity. Qed.

Lemma auto_attack_if_enemy_run (w : World) (room : Room) :
  rooms w !! location (player w) = Some room ->
  auto_attack_if_enemy w =
    match live_enemy room with
    | Some _ => attack_enemy w
    | None => (Return tt, w)
    end.
Proof.
  intros Hroom. unfold auto_attack_if_enemy. mstep.
  unfold lookup_room. rewrite Hroom. mstep.
  destruct (live_enemy room); reflexivity.
Qed.

Lemma exit_truthy_not_none (room : Room) (direction : string) :
  exit_truthy room direction = true ->
  exists dest, exit_not_none room direction = Some dest.
Proof.
  unfold exit_truthy, exit_not_none.
  destruct (dict_get (exits room) direction) as [[dest |] |];
    try discriminate.
  intros _. exists dest. reflexivity.
Qed.

Lemma probe_directions_in_range (n : nat) (room : Room) (w : World) :
  (auto_move_index w < length auto_move_directions)%nat ->
  (exists j, probe_directions n room w
             = (Return tt, set_auto_move_index w j)) \/
  (exists j direction,
     exit_truthy room direction = true /\
     probe_directions n room w
     = move_player direction (set_auto_move_index w j)).
Proof.
  revert w. induction n as [| n IH]; intros w Hidx.
  - left. exists (auto_move_index w).
    rewrite set_auto_move_index_same. reflexivity.
  - cbn [probe_directions]. mstep.
    destruct (auto_move_directions !! auto_move_index w) as [dir_ |] eqn:Hdir.
    + mstep.
      destruct (exit_truthy room dir_) eqn:Htruthy.
      * right. eexists. exists dir_. split; [exact Htruthy | reflexivity].
      * match goal with
        | |- context [probe_directions n room ?w1] =>
            destruct (IH w1) as [(j & Hj) | (j & d & Hd & Hj)]
        end.
        -- cbn [set_auto_move_index auto_move_index].
           apply Nat.mod_upper_bound. discriminate.
        -- left. exists j. rewrite Hj. reflexivity.
        -- right. exists j, d. split; [exact Hd |]. rewrite Hj. reflexivity.
    + apply lookup_ge_None in Hdir. lia.
Qed.

Lemma probe_directions_out_of_range (n : nat) (room : Room) (w : World) :
  (length auto_move_directions <= auto_move_index w)%nat ->
  snd (probe_directions n room w) = w.
Proof.
  intros Hidx. destruct n as [| n]; [reflexivity |].
  cbn [probe_directions]. mstep.
  rewrite (proj2 (lookup_ge_None auto_move_directions (auto_move_index w)))
    by exact Hidx.
  reflexivity.
Qed.

(** The policy performs one of five sequences of actions, after moving
    its cursor. *)
Lemma auto_move_and_attack_actions (w : World) (room : Room) :
  rooms w !! location (player w) = Some room ->
  (auto_move_index w < length auto_move_directions)%nat ->
  exists (idx : nat) (acts : list Action),
    auto_move_and_attack w = perform_all acts (set_auto_move_index w idx) /\
    ((is_Some (live_enemy room) /\ acts = [ActAttack]) \/
     (live_enemy room = None /\ hp (player w) < max_hp (player w) /\
      acts = [ActHeal]) \/
     (live_enemy room = None /\ max_hp (player w) <= hp (player w) /\
      (acts = [] /\ snd (auto_move_and_attack w) = set_auto_move_index w idx \/
       exists direction,
         exit_truthy room direction = true /\
         (acts = [ActMove direction] \/
          acts = [ActMove direction; ActAttack])))).
Proof.
  intros Hroom Hidx. unfold auto_move_and_attack. mstep.
  unfold lookup_room. rewrite Hroom. mstep.
  destruct (live_enemy room) as [e |] eqn:Hlive.
  - exists (auto_move_index w), [ActAttack].
    rewrite set_auto_move_index_same. cbn [perform_all perform].
    rewrite bind_ret_tt, (auto_attack_if_enemy_run w room Hroom), Hlive.
    split; [reflexivity |]. left. split; [eexists |]; reflexivity.
  - destruct (decide (hp (player w) < max_hp (player w))) as [Hlow | Hfull].
    + exists (auto_move_index w), [ActHeal].
      rewrite set_auto_move_index_same. cbn [perform_all perform].
      rewrite bind_ret_tt. split; [reflexivity |].
      right. left. repeat split; assumption.
    + assert (Hfull' : max_hp (player w) <= hp (player w)) by lia.
      destruct (exits room) as [| x xs] eqn:Hexits.
      * exists (auto_move_index w), [].
        rewrite set_auto_move_index_same. split; [reflexivity |].
        right. right. split; [reflexivity |]. split; [exact Hfull' |].
        left. split; reflexivity.
      * destruct (probe_directions_in_range
                    (length auto_move_directions) room w Hidx)
          as [(j & Hj) | (j & d & Hd & Hj)].
        -- exists j, []. rewrite Hj.
           rewrite (auto_attack_if_enemy_run _ room) by exact Hroom.
           rewrite Hlive. split; [reflexivity |].
           right. right. split; [reflexivity |]. split; [exact Hfull' |].
           left. split; reflexivity.
        -- rewrite Hj.
           destruct (move_player d (set_auto_move_index w j))
             as [[[] | err] w2] eqn:Hmove.
           ++ pose proof (move_player_returns d (set_auto_move_index w j))
                as Hsome.
              rewrite Hmove in Hsome. cbn [fst snd] in Hsome.
              destruct (Hsome eq_refl) as [room2 Hroom2].
              rewrite (auto_attack_if_enemy_run w2 room2 Hroom2).
              destruct (live_enemy room2) eqn:Hlive2.
              ** exists j, [ActMove d; ActAttack].
                 cbn [perform_all perform]. unfold bind at 1.
                 rewrite Hmove, bind_ret_tt. split; [reflexivity |].
                 right. right. split; [reflexivity |].
                 split; [exact Hfull' |]. right. exists d.
                 split; [exact Hd |]. right. reflexivity.
              ** exists j, [ActMove d].
                 cbn [perform_all perform]. rewrite bind_ret_tt, Hmove.
                 split; [reflexivity |].
                 right. right. split; [reflexivity |].
                 split; [exact Hfull' |]. right. exists d.
                 split; [exact Hd |]. left. reflexivity.
           ++ exists j, [ActMove d].
              cbn [perform_all perform]. rewrite bind_ret_tt, Hmove.
              split; [reflexivity |].
              right. right. split; [reflexivity |].
              split; [exact Hfull' |]. right. exists d.
              split; [exact Hd |]. left. reflexivity.
Qed.

(** ** The exchanges and the heals of a tick, by the lines written *)

Lemma attack_lines_app (ms1 ms2 : list Msg) :
  attack_lines (ms1 ++ ms2) = (attack_lines ms1 + attack_lines ms2)%nat.
Proof. unfold attack_lines. rewrite filter_app, length_app. reflexivity. Qed.

Lemma heal_lines_app (ms1 ms2 : list Msg) :
  heal_lines (ms1 ++ ms2) = (heal_lines ms1 + heal_lines ms2)%nat.
Proof. unfold heal_lines. rewrite filter_app, length_app. reflexivity. Qed.

Lemma attack_lines_cons (m : Msg) (ms : list Msg) :
  attack_lines (m :: ms)
  = ((if is_attack_line m then 1 else 0) + attack_lines ms)%nat.
Proof.
  unfold attack_lines. rewrite filter_cons.
  destruct (is_attack_line m); destruct (decide _); try congruence;
    reflexivity.
Qed.

Lemma heal_lines_cons (m : Msg) (ms : list Msg) :
  heal_lines (m :: ms)
  = ((if is_heal_line m then 1 else 0) + heal_lines ms)%nat.
Proof.
  unfold heal_lines. rewrite filter_cons.
  destruct (is_heal_line m); destruct (decide _); try congruence;
    reflexivity.
Qed.

Ltac count_lines :=
  rewrite ?attack_lines_app, ?heal_lines_app, ?attack_lines_cons,
          ?heal_lines_cons;
  change (attack_lines []) with 0%nat;
  change (heal_lines []) with 0%nat;
  cbn [is_attack_line is_heal_line Nat.add].

Ltac lines_done :=
  unfold bounded_lines; count_lines;
  split; [lia | split; [lia | intros; lia]].

Lemma item_lines (l : list string) :
  attack_lines (MsgItem <$> l) = 0%nat /\ heal_lines (MsgItem <$> l) = 0%nat.
Proof.
  induction l as [| x l [IHa IHh]]; [split; reflexivity |].
  split; [exact IHa | exact IHh].
Qed.

Lemma room_view_lines (room : Room) :
  attack_lines (room_view room) = 0%nat /\
  heal_lines (room_view room) = 0%nat.
Proof.
  assert (Hitems :
    attack_lines (match items room with
                  | [] => []
                  | _ => MsgItemsHeader :: (MsgItem <$> items room)
                  end) = 0%nat /\
    heal_lines (match items room with
                | [] => []
                | _ => MsgItemsHeader :: (MsgItem <$> items room)
                end) = 0%nat).
  { destruct (items room) as [| i l]; [split; reflexivity |].
    destruct (item_lines (i :: l)) as [Ha Hh].
    change (MsgItemsHeader :: (MsgItem <$> i :: l))
      with ([MsgItemsHeader] ++ (MsgItem <$> i :: l)).
    rewrite attack_lines_app, heal_lines_app, Ha, Hh. split; reflexivity. }
  destruct Hitems as [Ha Hh].
  unfold room_view. rewrite !attack_lines_app, !heal_lines_app, Ha, Hh.
  destruct (live_enemy room) as [e |]; split; reflexivity.
Qed.

(** [heal_player] writes one line, a heal line. *)
Lemma heal_player_lines (w : World) :
  exists m,
    output (snd (heal_player w)) = output w ++ [m] /\
    is_heal_line m = true.
Proof.
  destruct (Z_lt_le_dec (hp (player w)) (max_hp (player w))) as [Hlt | Hge].
  - rewrite (heal_player_run w Hlt). eexists. split; reflexivity.
  - rewrite (heal_player_full w Hge). eexists. split; reflexivity.
Qed.

Lemma heal_line_not_attack (m : Msg) :
  is_heal_line m = true -> is_attack_line m = false.
Proof. destruct m; try discriminate; reflexivity. Qed.

Lemma heal_line_counts (m : Msg) :
  is_heal_line m = true ->
  attack_lines [m] = 0%nat /\ heal_lines [m] = 1%nat.
Proof. destruct m; try discriminate; intros _; split; reflexivity. Qed.

(** [attack_enemy] writes at most one lash-out line and at most one heal
    line; the heal line comes after the line of the fallen player. *)
Lemma attack_enemy_lines (w : World) :
  exists ms,
    output (snd (attack_enemy w)) = output w ++ ms /\ bounded_lines ms.
Proof.
  destruct (rooms w !! location (player w)) as [room |] eqn:Hroom.
  2: { rewrite (proj1 (no_room_raises w Hroom)). exists [].
       rewrite app_nil_r. split; [reflexivity | lines_done]. }
  destruct (live_enemy room) as [e |] eqn:Hlive.
  2: { rewrite (attack_enemy_none w room Hroom Hlive). eexists.
       split; [reflexivity | lines_done]. }
  destruct (Z_le_gt_dec (e_hp e - basic_damage w) 0) as [Hdead | Hsurv].
  - destruct (tasks (player w) !! "stun_opponent") as [b |] eqn:Htask.
    + rewrite (attack_enemy_kill w room e Hroom Hlive b Hdead Htask).
      eexists. split; [reflexivity |]. destruct b; lines_done.
    + rewrite (attack_enemy_kill_no_task w room e Hroom Hlive Hdead Htask).
      eexists. split; [reflexivity | lines_done].
  - assert (Hsurv' : 0 < e_hp e - basic_damage w) by lia.
    destruct (Z_le_gt_dec 1 (attack_power e)) as [Hpow | Hpow].
    + rewrite (attack_enemy_counter w room e Hroom Hlive Hsurv' Hpow).
      cbv zeta.
      destruct (decide (hp (player w) - retaliation_damage w e <= 0)).
      * match goal with
        | |- context [heal_player ?w1] =>
            destruct (heal_player_lines w1) as (m & -> & Hm)
        end.
        cbn [written after_counter set_output output].
        eexists. split; [rewrite <- !app_assoc; reflexivity |].
        unfold bounded_lines. count_lines.
        rewrite Hm, (heal_line_not_attack m Hm).
        split; [lia | split; [lia |]]. intros _ _. cbn [app].
        do 2 apply list_elem_of_further. apply list_elem_of_here.
      * eexists. split; [reflexivity | lines_done].
    + rewrite (attack_enemy_counter_error w room e Hroom Hlive Hsurv')
        by lia.
      eexists. split; [reflexivity | lines_done].
Qed.

Lemma spawn_enemy_output (key : string) (w : World) :
  output (snd (spawn_enemy key w)) = output w.
Proof.
  destruct (rooms w !! key) as [room |] eqn:Hroom.
  - rewrite (spawn_enemy_run key room w Hroom).
    destruct (live_enemy room); [reflexivity |].
    destruct (decide (respawn_timer room <= clock w)); reflexivity.
  - unfold spawn_enemy, bind, lookup_room. rewrite Hroom. reflexivity.
Qed.

(** [move_player] writes neither a lash-out line nor a heal line. *)
Lemma move_player_lines (direction : string) (w : World) :
  exists ms,
    output (snd (move_player direction w)) = output w ++ ms /\
    attack_lines ms = 0%nat /\ heal_lines ms = 0%nat.
Proof.
  destruct (rooms w !! location (player w)) as [room |] eqn:Hroom.
  2: { rewrite (move_player_no_room w direction Hroom). exists [].
       rewrite app_nil_r. repeat split. }
  destruct (exit_not_none room direction) as [dest |] eqn:Hexit.
  2: { rewrite (move_player_no_exit w room direction Hroom Hexit). eexists.
       split; [reflexivity |]. split; reflexivity. }
  rewrite (move_player_run w room direction dest Hroom Hexit).
  set (w0 := set_player w (set_location (player w) dest)).
  destruct (rooms w0 !! location (player w0)) as [room0 |] eqn:Hroom0.
  - destruct (look_around_run w0 room0 Hroom0) as (room1 & _ & ->).
    cbn [snd written set_output output]. rewrite spawn_enemy_output.
    exists (room_view room1). split; [reflexivity |].
    apply room_view_lines.
  - rewrite (look_around_no_room w0 Hroom0). exists [].
    rewrite app_nil_r. repeat split.
Qed.

Lemma bounded_lines_quiet (ms : list Msg) :
  attack_lines ms = 0%nat -> heal_lines ms = 0%nat -> bounded_lines ms.
Proof. intros Ha Hh. unfold bounded_lines. rewrite Ha, Hh. repeat split; lia. Qed.

Lemma bounded_lines_after_quiet (ms1 ms2 : list Msg) :
  attack_lines ms1 = 0%nat -> heal_lines ms1 = 0%nat ->
  bounded_lines ms2 -> bounded_lines (ms1 ++ ms2).
Proof.
  intros Ha Hh (Hb1 & Hb2 & Hb3). unfold bounded_lines.
  rewrite attack_lines_app, heal_lines_app, Ha, Hh. cbn [Nat.add].
  split; [exact Hb1 |]. split; [exact Hb2 |].
  intros H1 H2. apply elem_of_app. right. apply Hb3; assumption.
Qed.

(** The lines of a performance of actions of one of the five shapes of a
    tick. *)
Lemma perform_all_lines (acts : list Action) (w : World) :
  (acts = [ActAttack] \/ acts = [ActHeal] \/ acts = [] \/
   exists direction,
     acts = [ActMove direction] \/ acts = [ActMove direction; ActAttack]) ->
  exists ms,
    output (snd (perform_all acts w)) = output w ++ ms /\ bounded_lines ms.
Proof.
  intros [-> | [-> | [-> | (d & [-> | ->])]]]; cbn [perform_all perform].
  - rewrite bind_ret_tt. apply attack_enemy_lines.
  - rewrite bind_ret_tt. destruct (heal_player_lines w) as (m & -> & Hm).
    destruct (heal_line_counts m Hm) as [Ha Hh].
    exists [m]. split; [reflexivity |]. unfold bounded_lines.
    rewrite Ha, Hh. repeat split; lia.
  - exists []. rewrite app_nil_r. split; [reflexivity |].
    apply bounded_lines_quiet; reflexivity.
  - rewrite bind_ret_tt. destruct (move_player_lines d w) as (ms & -> & Ha & Hh).
    exists ms. split; [reflexivity |]. apply bounded_lines_quiet; assumption.
  - destruct (move_player_lines d w) as (ms1 & Hout & Ha & Hh).
    unfold bind at 1.
    destruct (move_player d w) as [[[] | err] w1]; cbn [snd] in *.
    + rewrite bind_ret_tt.
      destruct (attack_enemy_lines w1) as (ms2 & -> & Hb).
      exists (ms1 ++ ms2). rewrite Hout, app_assoc. split; [reflexivity |].
      apply bounded_lines_after_quiet; assumption.
    + exists ms1. split; [exact Hout |].
      apply bounded_lines_quiet; assumption.
Qed.

(** C8 (as amended). One invocation of the automation policy, for a player
    whose hit points do not exceed the maximum, in an existing current room
    and with the direction cursor inside its list:
    - the player's location changes only if the current room holds no live
      enemy and the hit points equal the maximum;
    - the policy itself performs, after the cursor has moved, a list of
      [move_player], [attack_enemy] and [heal_player] calls with at most
      one move and at most one attack or heal;
    - an [attack_enemy] call heals too: when the enemy survives and its
      answer brings the hit points to zero or below, the call ends with
      one [heal_player] call, after the line of the fallen player. So the
      tick as a whole writes at most one lash-out line and at most one
      heal line, that is, holds at most one exchange and at most one heal,
      and it holds both only with the line of the fallen player between
      them. *)
Theorem tick_moves_only_when_safe (w : World) (room : Room) :
  rooms w !! location (player w) = Some room ->
  hp (player w) <= max_hp (player w) ->
  (auto_move_index w < length auto_move_directions)%nat ->
  let w' := snd (auto_move_and_attack w) in
  (location (player w') <> location (player w) ->
   live_enemy room = None /\ hp (player w) = max_hp (player w)) /\
  (exists (idx : nat) (acts : list Action),
    auto_move_and_attack w = perform_all acts (set_auto_move_index w idx) /\
    (moves acts <= 1)%nat /\ (fights acts <= 1)%nat) /\
  (exists ms,
     output w' = output w ++ ms /\
     (attack_lines ms <= 1)%nat /\ (heal_lines ms <= 1)%nat /\
     (attack_lines ms = 1%nat -> heal_lines ms = 1%nat -> MsgSuccumb ∈ ms)) /\
  (forall (w0 : World) (room0 : Room) (e : Enemy),
     rooms w0 !! location (player w0) = Some room0 ->
     live_enemy room0 = Some e ->
     0 < e_hp e - basic_damage w0 ->
     1 <= attack_power e ->
     let d := basic_damage w0 in
     let r := retaliation_damage w0 e in
     let w1 := after_counter w0 room0 e d r
                 [MsgLashOut (e_name e) d (e_hp e - d);
                  MsgCounter (e_name e) r (hp (player w0) - r)] in
     attack_enemy w0 =
       if decide (hp (player w0) - r <= 0)
       then heal_player (written w1 [MsgSuccumb])
       else (Return tt, w1)).
Proof.
  intros Hroom Hhp Hidx w'. subst w'.
  destruct (auto_move_and_attack_actions w room Hroom Hidx)
    as (idx & acts & Heq & Hshape).
  split; [| split; [| split]].
  - rewrite Heq.
    destruct Hshape as [(_ & ->) | [(_ & _ & ->) | (Hnone & Hfull & Hrest)]].
    + cbn [perform_all perform]. rewrite bind_ret_tt.
      rewrite (proj1 (attack_enemy_frame (set_auto_move_index w idx))).
      intros H. exfalso. apply H. reflexivity.
    + cbn [perform_all perform]. rewrite bind_ret_tt.
      destruct (heal_player_frame (set_auto_move_index w idx))
        as (_ & _ & Hloc & _).
      rewrite Hloc. intros H. exfalso. apply H. reflexivity.
    + intros _. split; [exact Hnone | lia].
  - exists idx, acts. split; [exact Heq |].
    destruct Hshape
      as [(_ & ->) | [(_ & _ & ->) | (_ & _ & [(-> & _) | (d & _ & [-> | ->])])]];
      vm_compute; lia.
  - rewrite Heq.
    apply (perform_all_lines acts (set_auto_move_index w idx)).
    destruct Hshape
      as [(_ & ->) | [(_ & _ & ->) | (_ & _ & [(-> & _) | (d & _ & [-> | ->])])]];
      [left | right; left | right; right; left
       | right; right; right; exists d; left
       | right; right; right; exists d; right]; reflexivity.
  - intros w0 room0 e Hroom0 Hlive Hsurv Hpow.
    apply (attack_enemy_counter w0 room0 e Hroom0 Hlive Hsurv Hpow).
Qed.

Lemma tick_moves_only_when_safe_witness :
  let w := quiet_world new_warrior (raw_numbers []) in
  let w' := snd (auto_move_and_attack w) in
  exists room,
    rooms w !! location (player w) = Some room /\
    hp (player w) <= max_hp (player w) /\
    (auto_move_index w < length auto_move_directions)%nat /\
    location (player w) = "temple_of_stillness" /\
    location (player w') = "outer_courtyard" /\
    (location (player w') <> location (player w) ->
     live_enemy room = None /\ hp (player w) = max_hp (player w)).
Proof.
  intros w w'. eexists.
  split; [vm_compute; reflexivity |].
  split; [vm_compute; discriminate |].
  split; [vm_compute; lia |].
  split; [reflexivity |].
  split; [vm_compute; reflexivity |].
  refine (proj1 (tick_moves_only_when_safe w _ _ _ _)).
  - vm_compute. reflexivity.
  - vm_compute. discriminate.
  - vm_compute. lia.
Defined.

(** C8 as stated fails: a level-1 warrior with 5 of 120 hit points stands
    before an Anti Claws (100 hit points, attack power 12) when the tick
    comes. The policy attacks; the blow deals 8, the enemy answers with 12,
    the player falls to -7 and [attack_enemy] calls [heal_player], which
    restores 15. The one tick holds an attack and a heal. *)
Lemma tick_attacks_and_heals :
  let w := duel_world (set_hp new_warrior 5) anti_claws
                      (raw_numbers [2; 11; 10]) in
  let w' := snd (auto_move_and_attack w) in
  let ms := [MsgLashOut "Anti Claws" 8 92; MsgCounter "Anti Claws" 12 (-7);
             MsgSuccumb; MsgPatchUp 15 8] in
  valid_player (player w) /\
  enemy_at w (location (player w)) = Some anti_claws /\
  (auto_move_index w < length auto_move_directions)%nat /\
  fst (auto_move_and_attack w) = Return tt /\
  output w' = output w ++ ms /\
  attack_lines ms = 1%nat /\ heal_lines ms = 1%nat /\
  enemy_at w' (location (player w)) = Some (set_e_hp anti_claws 92) /\
  hp (player w') = 8 /\
  (attack_lines ms + heal_lines ms > 1)%nat.
Proof.
  intros w w' ms.
  split; [subst w; compute_done |].
  repeat split; try (vm_compute; reflexivity); vm_compute; lia.
Qed.

(** ** Successful inventory operations *)

Lemma pickup_item_run (w : World) (room : Room) (item_name : string) :
  rooms w !! location (player w) = Some room ->
  item_name ∈ items room ->
  pickup_item item_name w =
    (Return tt,
     written
       (set_player
          (set_rooms w
             (<[location (player w) :=
                  set_items room (list_remove item_name (items room))]>
                (rooms w)))
          (set_inventory (player w) (inventory (player w) ++ [item_name])))
       [MsgPickUp item_name]).
Proof.
  intros Hroom Hin. unfold pickup_item. mstep.
  unfold lookup_room. rewrite Hroom. mstep.
  rewrite bool_decide_eq_true_2 by exact Hin. mstep.
  rewrite (alter_lookup_Some _ _ room) by exact Hroom. reflexivity.
Qed.

Lemma drop_item_run (w : World) (item_name : string) :
  item_name ∈ inventory (player w) ->
  let p1 := set_inventory (player w)
              (list_remove item_name (inventory (player w))) in
  drop_item item_name w =
    match rooms w !! location (player w) with
    | Some room =>
        (Return tt,
         written
           (set_rooms (set_player w p1)
              (<[location (player w) :=
                   set_items room (items room ++ [item_name])]> (rooms w)))
           [MsgDropped item_name])
    | None => (Raise (KeyError (location (player w))), set_player w p1)
    end.
Proof.
  intros Hin p1. unfold drop_item. mstep.
  rewrite bool_decide_eq_true_2 by exact Hin. mstep.
  unfold lookup_room. cbn [set_player rooms].
  destruct (rooms w !! location (player w)) as [room |] eqn:Hroom;
    [| reflexivity].
  mstep. rewrite (alter_lookup_Some _ _ room) by exact Hroom. reflexivity.
Qed.

(** ** Loading reads the file and changes nothing *)

Lemma stateless_bind {A B : Type} (m : M A) (f : A -> M B) :
  stateless m -> (forall a, stateless (f a)) -> stateless (bind m f).
Proof.
  intros Hm Hf w. unfold bind. specialize (Hm w).
  destruct (m w) as [[a | e] w1]; cbn [snd] in *; subst w1.
  - apply Hf.
  - reflexivity.
Qed.

Lemma stateless_json_get (data : json) (key : string) :
  stateless (json_get data key).
Proof.
  intros w. unfold json_get. destruct data; try reflexivity.
  destruct (m !! key); reflexivity.
Qed.

Lemma stateless_as_str (v : json) : stateless (as_str v).
Proof. intros w. destruct v; reflexivity. Qed.

Lemma stateless_as_int (v : json) : stateless (as_int v).
Proof. intros w. destruct v; reflexivity. Qed.

Lemma stateless_as_inventory (v : json) : stateless (as_inventory v).
Proof.
  intros w. destruct v; try reflexivity.
  unfold as_inventory. destruct (mapM str_of l); reflexivity.
Qed.

Lemma stateless_as_tasks (v : json) : stateless (as_tasks v).
Proof.
  intros w. destruct v; try reflexivity.
  unfold as_tasks. destruct (decide _); reflexivity.
Qed.

Lemma stateless_load_game : stateless load_game.
Proof.
  unfold load_game.
  apply stateless_bind; [intros w; reflexivity |].
  intros [data |]; [| intros w; reflexivity].
  repeat (apply stateless_bind;
          [first [ apply stateless_json_get | apply stateless_as_str
                 | apply stateless_as_int | apply stateless_as_inventory
                 | apply stateless_as_tasks ]
          | intros ?]).
  intros w. reflexivity.
Qed.

(** ** A killed enemy stays away until the room is observed after the
    deadline *)

Section Vacancy.

Variables (key : string) (deadline : Z).

Abbreviation vacant := (vacant_until key deadline).

Lemma vacant_same_lookup (w w' : World) :
  rooms w' !! key = rooms w !! key -> vacant w -> vacant w'.
Proof.
  intros Heq (room & Hroom & Henemy & Htimer). exists room.
  rewrite Heq. repeat split; assumption.
Qed.

Lemma vacant_same_rooms (w w' : World) :
  rooms w' = rooms w -> vacant w -> vacant w'.
Proof. intros Heq. apply vacant_same_lookup. rewrite Heq. reflexivity. Qed.

(** Replacing a room by one with the same enemy and deadline. *)
Lemma vacant_insert (w w' : World) (k : string) (room room' : Room) :
  rooms w !! k = Some room ->
  rooms w' = <[k := room']> (rooms w) ->
  enemy room' = enemy room ->
  respawn_timer room' = respawn_timer room ->
  vacant w -> vacant w'.
Proof.
  intros Hroom Heq Henemy Htimer (r & Hr & He & Ht).
  destruct (decide (k = key)) as [-> | Hne].
  - exists room'. rewrite Heq, lookup_insert_eq.
    assert (r = room) as -> by congruence.
    repeat split; congruence.
  - apply (vacant_same_lookup w); [| exists r; repeat split; assumption].
    rewrite Heq. apply lookup_insert_ne. exact Hne.
Qed.

Lemma attack_enemy_keeps_vacant (w : World) :
  vacant w -> vacant (snd (attack_enemy w)).
Proof.
  intros Hvac. destruct (decide (location (player w) = key)) as [Hloc | Hne].
  - destruct Hvac as (room & Hroom & Henemy & Htimer).
    rewrite (attack_enemy_none w room); [| rewrite Hloc; exact Hroom
                                         | apply live_enemy_None; exact Henemy].
    exists room. repeat split; assumption.
  - apply (vacant_same_lookup w); [| exact Hvac].
    apply attack_enemy_frame. congruence.
Qed.

Lemma use_class_skill_keeps_vacant (w : World) :
  vacant w -> vacant (snd (use_class_skill w)).
Proof.
  intros Hvac. destruct (decide (location (player w) = key)) as [Hloc | Hne].
  - destruct Hvac as (room & Hroom & Henemy & Htimer).
    rewrite (use_class_skill_none w room);
      [| rewrite Hloc; exact Hroom | apply live_enemy_None; exact Henemy].
    exists room. repeat split; assumption.
  - apply (vacant_same_lookup w); [| exact Hvac].
    apply use_class_skill_frame. congruence.
Qed.

Lemma heal_player_keeps_vacant (w : World) :
  vacant w -> vacant (snd (heal_player w)).
Proof. apply vacant_same_rooms. apply heal_player_frame. Qed.

Lemma pickup_item_keeps_vacant (item_name : string) (w : World) :
  vacant w -> vacant (snd (pickup_item item_name w)).
Proof.
  intros Hvac.
  destruct (rooms w !! location (player w)) as [room |] eqn:Hroom.
  - destruct (decide (item_name ∈ items room)) as [Hin | Hout].
    + rewrite (pickup_item_run w room item_name Hroom Hin).
      eapply (vacant_insert w _ _ room); try exact Hvac; try exact Hroom;
        reflexivity.
    + rewrite (pickup_item_absent w room item_name Hroom Hout). exact Hvac.
  - unfold pickup_item. mstep. unfold lookup_room. rewrite Hroom. exact Hvac.
Qed.

Lemma drop_item_keeps_vacant (item_name : string) (w : World) :
  vacant w -> vacant (snd (drop_item item_name w)).
Proof.
  intros Hvac.
  destruct (decide (item_name ∈ inventory (player w))) as [Hin | Hout].
  - rewrite (drop_item_run w item_name Hin).
    destruct (rooms w !! location (player w)) as [room |] eqn:Hroom.
    + eapply (vacant_insert w _ _ room); try exact Hvac; try exact Hroom;
        reflexivity.
    + exact Hvac.
  - rewrite (drop_item_absent w item_name Hout). exact Hvac.
Qed.

Lemma use_item_keeps_vacant (item_name : string) (w : World) :
  vacant w -> vacant (snd (use_item item_name w)).
Proof.
  intros Hvac.
  destruct (decide (item_name ∈ inventory (player w))) as [Hin | Hout].
  - destruct (str_contains "healing_potion" item_name) eqn:Hname.
    + rewrite (use_item_potion w item_name Hin Hname). exact Hvac.
    + rewrite (use_item_useless w item_name Hin Hname). exact Hvac.
  - rewrite (use_item_absent w item_name Hout). exact Hvac.
Qed.

Lemma spawn_enemy_keeps_vacant (k : string) (w : World) :
  vacant w -> clock w < deadline -> vacant (snd (spawn_enemy k w)).
Proof.
  intros Hvac Hclock.
  destruct (spawn_enemy_frame k w) as (_ & _ & _ & Hother & Hsame).
  destruct (decide (k = key)) as [-> | Hne].
  - destruct Hvac as (room & Hroom & Henemy & Htimer).
    rewrite (Hsame room Hroom) by (right; lia).
    exists room. repeat split; assumption.
  - apply (vacant_same_lookup w); [| exact Hvac]. apply Hother. congruence.
Qed.

Lemma look_around_keeps_vacant (w : World) :
  vacant w -> clock w < deadline -> vacant (snd (look_around w)).
Proof.
  intros Hvac Hclock.
  destruct (look_around_frame w) as (_ & _ & _ & Hrooms & _).
  apply (vacant_same_rooms (snd (spawn_enemy (location (player w)) w)));
    [exact Hrooms |].
  apply spawn_enemy_keeps_vacant; assumption.
Qed.

Lemma move_player_keeps_vacant (direction : string) (w : World) :
  vacant w -> clock w < deadline ->
  vacant (snd (move_player direction w)).
Proof.
  intros Hvac Hclock.
  destruct (rooms w !! location (player w)) as [room |] eqn:Hroom.
  - destruct (exit_not_none room direction) as [dest |] eqn:Hexit.
    + rewrite (move_player_run w room direction dest Hroom Hexit).
      apply look_around_keeps_vacant; assumption.
    + rewrite (move_player_no_exit w room direction Hroom Hexit). exact Hvac.
  - rewrite (move_player_no_room w direction Hroom). exact Hvac.
Qed.

Lemma auto_attack_if_enemy_keeps_vacant (w : World) :
  vacant w -> vacant (snd (auto_attack_if_enemy w)).
Proof.
  intros Hvac.
  destruct (rooms w !! location (player w)) as [room |] eqn:Hroom.
  - rewrite (auto_attack_if_enemy_run w room Hroom).
    destruct (live_enemy room); [| exact Hvac].
    apply attack_enemy_keeps_vacant. exact Hvac.
  - unfold auto_attack_if_enemy. mstep. unfold lookup_room.
    rewrite Hroom. exact Hvac.
Qed.

Lemma auto_move_and_attack_keeps_vacant (w : World) :
  vacant w -> clock w < deadline ->
  vacant (snd (auto_move_and_attack w)).
Proof.
  intros Hvac Hclock. unfold auto_move_and_attack. mstep.
  unfold lookup_room.
  destruct (rooms w !! location (player w)) as [room |] eqn:Hroom;
    [| exact Hvac].
  mstep. destruct (live_enemy room) eqn:Hlive.
  - apply auto_attack_if_enemy_keeps_vacant. exact Hvac.
  - destruct (decide (hp (player w) < max_hp (player w))).
    + apply heal_player_keeps_vacant. exact Hvac.
    + destruct (exits room); [exact Hvac |].
      assert (Hprobe :
        vacant (snd (probe_directions (length auto_move_directions) room w))).
      { destruct (Nat.lt_ge_cases (auto_move_index w)
                    (length auto_move_directions)) as [Hidx | Hidx].
        - destruct (probe_directions_in_range
                      (length auto_move_directions) room w Hidx)
            as [(j & ->) | (j & d & _ & ->)].
          + exact Hvac.
          + apply move_player_keeps_vacant; assumption.
        - rewrite probe_directions_out_of_range by exact Hidx. exact Hvac. }
      destruct (probe_directions (length auto_move_directions) room w)
        as [[[] | err] w1]; cbn [snd] in Hprobe.
      * apply auto_attack_if_enemy_keeps_vacant. exact Hprobe.
      * exact Hprobe.
Qed.

Lemma new_game_keeps_vacant (name_answer class_answer : option string)
    (w : World) :
  vacant w -> clock w < deadline ->
  vacant (snd (new_game name_answer class_answer w)).
Proof.
  intros Hvac Hclock. unfold new_game.
  destruct (CLASS_STATS !! _) as [base_stats |]; [| exact Hvac].
  mstep. apply look_around_keeps_vacant; [exact Hvac | exact Hclock].
Qed.

Lemma load_game_action_keeps_vacant (w : World) :
  vacant w -> clock w < deadline -> vacant (snd (load_game_action w)).
Proof.
  intros Hvac Hclock. unfold load_game_action. unfold bind at 1.
  pose proof (stateless_load_game w) as Hpure.
  destruct (load_game w) as [[[p |] | err] w1]; cbn [snd] in Hpure; subst w1.
  - mstep.
    match goal with
    | |- context [look_around ?w1] =>
        pose proof (look_around_keeps_vacant w1 Hvac Hclock) as Hlook;
        destruct (look_around w1) as [[[] | err] w2]
    end; cbn [snd] in Hlook; exact Hlook.
  - exact Hvac.
  - exact Hvac.
Qed.

Lemma execute_keeps_vacant (c : Command) (w : World) :
  vacant w ->
  clock w < deadline \/ observes_room c = false ->
  vacant (snd (execute c w)).
Proof.
  intros Hvac Hcond.
  destruct c; cbn [execute observes_room] in *;
    try (destruct Hcond as [Hclock | Hobs]; [| discriminate]).
  - apply look_around_keeps_vacant; assumption.
  - apply move_player_keeps_vacant; assumption.
  - apply attack_enemy_keeps_vacant; assumption.
  - apply heal_player_keeps_vacant; assumption.
  - apply pickup_item_keeps_vacant; assumption.
  - apply drop_item_keeps_vacant; assumption.
  - apply use_item_keeps_vacant; assumption.
  - apply use_class_skill_keeps_vacant; assumption.
  - apply auto_move_and_attack_keeps_vacant; assumption.
  - apply new_game_keeps_vacant; assumption.
  - apply load_game_action_keeps_vacant; assumption.
  - exact Hvac.
  - exact Hvac.
  - apply (vacant_same_rooms w); [| exact Hvac].
    unfold show_tasks, task_flag. mstep.
    repeat (destruct (tasks (player w) !! _); [mstep | reflexivity]).
    reflexivity.
Qed.

Lemma run_steps_keeps_vacant (steps : list (Z * Command)) (w : World) :
  vacant w ->
  Forall (fun s => fst s < deadline \/ observes_room (snd s) = false) steps ->
  vacant (run_steps steps w).
Proof.
  intros Hvac Hsteps. revert w Hvac.
  induction Hsteps as [| [t c] steps Hcond _ IH]; intros w Hvac.
  - exact Hvac.
  - cbn [run_steps fold_left]. apply IH. unfold run_step.
    apply execute_keeps_vacant; [exact Hvac | exact Hcond].
Qed.

End Vacancy.

Lemma handle_mob_death_vacant (key : string) (room : Room) (e : Enemy)
    (w : World) :
  rooms w !! key = Some room ->
  enemy room = Some e ->
  vacant_until key (clock w + RESPAWN_TIME) (snd (handle_mob_death key w)).
Proof.
  intros Hroom Henemy. rewrite (handle_mob_death_run key room e w Hroom Henemy).
  eexists. split; [apply lookup_insert_eq |]. split; reflexivity.
Qed.

Lemma after_kill_vacant (w : World) (room : Room) (e : Enemy)
    (msgs : list Msg) :
  vacant_until (location (player w)) (clock w + RESPAWN_TIME)
               (after_kill w room e msgs).
Proof.
  eexists. split; [apply lookup_insert_eq |]. split; reflexivity.
Qed.

Lemma spawned_enemy_template (i : nat) (chosen : EnemyTemplate) :
  ENEMY_POOL !! i = Some chosen ->
  spawned_enemy (Z.of_nat i) = Some (instantiate chosen).
Proof.
  intros Hi. pose proof (lookup_lt_Some _ _ _ Hi) as Hlt.
  unfold spawned_enemy.
  change (length ENEMY_POOL) with 5%nat in *.
  rewrite Z.mod_small by lia. rewrite Nat2Z.id, Hi. reflexivity.
Qed.

Lemma spawned_enemy_from_pool (raw : Z) :
  exists chosen,
    chosen ∈ ENEMY_POOL /\
    ENEMY_POOL !! Z.to_nat (raw mod 5) = Some chosen /\
    spawned_enemy raw = Some (instantiate chosen).
Proof.
  destruct (spawned_enemy_is_Some raw) as [e He].
  unfold spawned_enemy in *.
  change (Z.of_nat (length ENEMY_POOL)) with 5 in *.
  destruct (ENEMY_POOL !! Z.to_nat (raw mod 5)) as [chosen |] eqn:Hlookup;
    [| discriminate].
  exists chosen. split; [| split; reflexivity].
  apply list_elem_of_lookup. exists (Z.to_nat (raw mod 5)). exact Hlookup.
Qed.


(** * Further properties of the code *)

(** ** Leveling *)

Lemma level_loop_growth (p : Player) :
  let q := level_loop p in
  total_experience q = total_experience p /\
  level p <= level q /\
  max_hp q = max_hp p + HP_PER_LEVEL * (level q - level p) /\
  base_attack q = base_attack p + ATTACK_PER_LEVEL * (level q - level p) /\
  (level q = level p -> q = p) /\
  (level p < level q -> hp q = max_hp q).
Proof.
  revert p. apply level_loop_ind.
  - intros p Hlt. rewrite level_loop_exit by exact Hlt. cbv zeta.
    unfold HP_PER_LEVEL, ATTACK_PER_LEVEL. repeat split; lia.
  - intros p Hle IH. rewrite level_loop_continue by exact Hle.
    cbv zeta in *. destruct IH as (Ht & Hl & Hm & Ha & Hsame & Hup).
    assert (Hbody : level (level_loop_body p) = level p + 1) by reflexivity.
    assert (Hmax : max_hp (level_loop_body p) = max_hp p + HP_PER_LEVEL)
      by reflexivity.
    assert (Hatt : base_attack (level_loop_body p)
                   = base_attack p + ATTACK_PER_LEVEL) by reflexivity.
    assert (Hhp : hp (level_loop_body p) = max_hp (level_loop_body p))
      by reflexivity.
    assert (Htot : total_experience (level_loop_body p) = total_experience p).
    { unfold total_experience, level_loop_body, level_up, set_exp. simpl. lia. }
    unfold HP_PER_LEVEL, ATTACK_PER_LEVEL in *.
    split; [lia |]. split; [lia |]. split; [lia |]. split; [lia |].
    split; [lia |]. intros _.
    destruct (Z.eq_dec (level (level_loop (level_loop_body p)))
                       (level (level_loop_body p))) as [Heq | Hne].
    + rewrite (Hsame Heq). exact Hhp.
    + apply Hup. lia.
Qed.

(** X1. [add_experience] conserves experience: the total gathered since
    level 1 (the thresholds of the levels passed plus the current
    experience) grows by exactly the amount awarded, for every player and
    every amount. *)
Theorem add_experience_conserves_total (p : Player) (amount : Z) :
  total_experience (add_experience p amount) = total_experience p + amount.
Proof.
  unfold add_experience.
  rewrite (proj1 (level_loop_growth (set_exp p (exp p + amount)))).
  unfold total_experience, set_exp. simpl. lia.
Qed.

(** X2. [add_experience] never lowers the level; the maximum hit points
    and the base attack grow by 10 and by 2 for each level gained; the
    current hit points are untouched when no level is gained and equal the
    new maximum otherwise, so they stay at or below the maximum if they
    were. *)
Theorem add_experience_growth (p : Player) (amount : Z) :
  let q := add_experience p amount in
  level p <= level q /\
  max_hp q = max_hp p + 10 * (level q - level p) /\
  base_attack q = base_attack p + 2 * (level q - level p) /\
  (level q = level p -> hp q = hp p /\ exp q = exp p + amount) /\
  (level p < level q -> hp q = max_hp q) /\
  (hp p <= max_hp p -> hp q <= max_hp q).
Proof.
  intros q. subst q. unfold add_experience.
  destruct (level_loop_growth (set_exp p (exp p + amount)))
    as (_ & Hl & Hm & Ha & Hsame & Hup).
  cbn [level max_hp base_attack set_exp] in *.
  unfold HP_PER_LEVEL, ATTACK_PER_LEVEL in *.
  split; [exact Hl |]. split; [exact Hm |]. split; [exact Ha |].
  split; [| split].
  - intros Heq. rewrite (Hsame Heq). split; reflexivity.
  - exact Hup.
  - intros Hhp.
    destruct (Z.eq_dec (level (level_loop (set_exp p (exp p + amount))))
                       (level p)) as [Heq | Hne].
    + rewrite (Hsame Heq). exact Hhp.
    + rewrite Hup by lia. lia.
Qed.

(** ** Saving and loading *)

(** X3. For every player whose class name is made of ASCII characters,
    valid or not, [load_game] after [save_game] returns what
    [Player.__init__] makes of the saved attributes: the class name in
    lower case, an empty task mapping replaced by the three default flags,
    and every other attribute as saved. *)
Theorem load_game_normalises (p : Player) (w : World) :
  is_ascii (player_class p) = true ->
  let w1 := snd (save_game p w) in
  load_game w1 = (Return (Some (reloaded p)), w1) /\
  reloaded p =
    mkPlayer (name p) (lower (player_class p)) (level p) (exp p) (max_hp p)
             (hp p) (base_attack p) (inventory p) (location p)
             (if decide (tasks p = ∅) then default_tasks else tasks p)
             (pomodoro_streak p).
Proof.
  intros _ w1. split; [| reflexivity].
  apply (load_game_of_save_data p w1). reflexivity.
Qed.

Lemma load_game_normalises_witness :
  let p := mkPlayer "Ada" "Mage" 3 40 100 7 16 ["healing_potion"]
                    "outer_courtyard" ∅ 2 in
  let w := quiet_world new_warrior (raw_numbers []) in
  let w1 := snd (save_game p w) in
  is_ascii (player_class p) = true /\
  load_game w1 = (Return (Some (reloaded p)), w1) /\
  player_class (reloaded p) = "mage" /\
  tasks (reloaded p) = default_tasks.
Proof.
  intros p w w1.
  assert (Hascii : is_ascii (player_class p) = true) by reflexivity.
  split; [exact Hascii |].
  destruct (load_game_normalises p w Hascii) as [Hload Hp].
  split; [exact Hload |]. rewrite Hp. split; reflexivity.
Defined.

Lemma save_data_keys (p : Player) (key : string) :
  is_Some (save_data p !! key) ->
  key ∈ ["name"; "player_class"; "level"; "exp"; "max_hp"; "hp";
         "base_attack"; "inventory"; "location"; "tasks";
         "pomodoro_streak"].
Proof.
  unfold save_data. cbn [list_to_map foldr fst snd].
  rewrite !lookup_insert_is_Some, lookup_empty.
  intros H. repeat (destruct H as [<- | [_ H]]; [set_solver |]).
  destruct H as [x Hx]. discriminate.
Qed.

(** X4. Every one of the eleven fields is required: when the saved object
    lacks one key, [load_game] raises [KeyError] for that key and leaves the
    state alone, whatever the other fields hold. *)
Theorem load_game_missing_field (p : Player) (key : string) (w : World) :
  is_Some (save_data p !! key) ->
  save_file w = Some (JObj (delete key (save_data p))) ->
  load_game w = (Raise (KeyError key), w).
Proof.
  intros Hkey Hfile. apply save_data_keys in Hkey.
  destruct (save_data_lookups p)
    as (H1 & H2 & H3 & H4 & H5 & H6 & H7 & H8 & H9 & H10 & H11).
  unfold load_game, bind, get_save_file. rewrite Hfile.
  unfold json_get.
  repeat (apply elem_of_cons in Hkey; destruct Hkey as [-> | Hkey];
          [ rewrite ?lookup_delete_eq;
            rewrite ?lookup_delete_ne by discriminate;
            rewrite ?H1, ?H2, ?H3, ?H4, ?H5, ?H6, ?H7, ?H8, ?H9, ?H10, ?H11;
            cbv beta iota delta [ret raise as_str as_int];
            rewrite ?as_inventory_save; cbv beta iota;
            rewrite ?as_tasks_save; reflexivity |]).
  inversion Hkey.
Qed.

Lemma load_game_missing_field_witness :
  let w := set_save_file (quiet_world new_warrior (raw_numbers []))
             (Some (JObj (delete "hp" (save_data new_warrior)))) in
  is_Some (save_data new_warrior !! "hp") /\
  load_game w = (Raise (KeyError "hp"), w).
Proof.
  intros w.
  assert (Hkey : is_Some (save_data new_warrior !! "hp"))
    by (eexists; reflexivity).
  split; [exact Hkey |].
  apply (load_game_missing_field new_warrior "hp" w Hkey). reflexivity.
Defined.

(** ** Healing *)

(** X5. [heal_player] always returns. Below the maximum it draws one
    number and raises the hit points by 5 to 15, stopping at the maximum:
    they grow strictly and never pass the maximum. At or above the maximum
    it draws nothing and only writes a line. Nothing but the hit points,
    the generator position and the output ever changes. *)
Theorem heal_player_bounds (w : World) :
  let w' := snd (heal_player w) in
  fst (heal_player w) = Return tt /\
  (hp (player w) < max_hp (player w) ->
   hp (player w) < hp (player w') <= max_hp (player w) /\
   (hp (player w') = max_hp (player w) \/
    hp (player w) + 5 <= hp (player w') <= hp (player w) + 15) /\
   rand_pos w' = S (rand_pos w)) /\
  (max_hp (player w) <= hp (player w) -> w' = written w [MsgFullHealth]) /\
  player w' = set_hp (player w) (hp (player w')) /\
  rooms w' = rooms w /\ gui w' = gui w /\ save_file w' = save_file w.
Proof.
  intros w'. subst w'.
  destruct (Z_lt_le_dec (hp (player w)) (max_hp (player w))) as [Hlt | Hge].
  - rewrite (heal_player_run w Hlt).
    pose proof (randint_value_range 5 15 (upcoming w 0)) as Hr.
    cbn [fst snd written set_output set_player consumed set_rand_pos
         player rooms gui save_file rand_pos set_hp hp].
    split; [reflexivity |]. split; [| split; [lia |]].
    + intros _. split; [lia |]. split; [lia | lia].
    + repeat split.
  - rewrite (heal_player_full w Hge).
    cbn [fst snd written set_output player rooms gui save_file].
    split; [reflexivity |]. split; [lia |]. split; [reflexivity |].
    split; [| repeat split]. destruct (player w); reflexivity.
Qed.

(** ** Picking up and dropping *)

Lemma count_item_app (x : string) (l1 l2 : list string) :
  count_item x (l1 ++ l2) = (count_item x l1 + count_item x l2)%nat.
Proof. unfold count_item. rewrite filter_app, length_app. reflexivity. Qed.

Lemma count_item_cons (x y : string) (l : list string) :
  count_item x (y :: l)
  = ((if decide (y = x) then 1 else 0) + count_item x l)%nat.
Proof.
  unfold count_item. rewrite filter_cons.
  destruct (decide (y = x)); reflexivity.
Qed.

Lemma count_item_remove (x y : string) (l : list string) :
  x ∈ l ->
  (count_item y (list_remove x l) + (if decide (x = y) then 1 else 0)
   = count_item y l)%nat.
Proof.
  intros Hin.
  destruct (list_remove_first x l Hin) as (l1 & l2 & Hl & _ & Hrem).
  rewrite Hrem. rewrite Hl at 1.
  rewrite !count_item_app, count_item_cons. lia.
Qed.

Lemma list_remove_appended (x : string) (l : list string) :
  x ∉ l -> list_remove x (l ++ [x]) = l.
Proof.
  induction l as [| y l IH]; intros Hnot; simpl.
  - destruct (decide (x = x)); [reflexivity | congruence].
  - apply not_elem_of_cons in Hnot. destruct Hnot as [Hne Hnot].
    destruct (decide (y = x)); [congruence |]. rewrite IH by exact Hnot.
    reflexivity.
Qed.

(** X6. In an existing current room, [pickup_item] and [drop_item] neither
    create nor destroy items: for every item name, the number of copies
    carried plus the number lying in the current room is the same before and
    after, whether the operation succeeds or only reports. *)
Theorem pickup_and_drop_conserve_items (w : World) (room : Room)
    (x y : string) :
  rooms w !! location (player w) = Some room ->
  item_total (snd (pickup_item x w)) y = item_total w y /\
  item_total (snd (drop_item x w)) y = item_total w y.
Proof.
  intros Hroom. unfold item_total at 2 4. rewrite Hroom. split.
  - destruct (decide (x ∈ items room)) as [Hin | Hout].
    + rewrite (pickup_item_run w room x Hroom Hin). unfold item_total.
      cbn [snd written set_output set_player set_rooms player rooms
           set_inventory inventory location].
      rewrite lookup_insert_eq. cbn [set_items items].
      pose proof (count_item_remove x y (items room) Hin) as Hc.
      rewrite count_item_app, count_item_cons.
      change (count_item y []) with 0%nat. lia.
    + rewrite (pickup_item_absent w room x Hroom Hout). unfold item_total.
      cbn [snd written set_output player rooms]. rewrite Hroom. reflexivity.
  - destruct (decide (x ∈ inventory (player w))) as [Hin | Hout].
    + rewrite (drop_item_run w x Hin), Hroom. unfold item_total.
      cbn [snd written set_output set_player set_rooms player rooms
           set_inventory inventory location].
      rewrite lookup_insert_eq. cbn [set_items items].
      pose proof (count_item_remove x y (inventory (player w)) Hin) as Hc.
      rewrite count_item_app, count_item_cons.
      change (count_item y []) with 0%nat. lia.
    + rewrite (drop_item_absent w x Hout). unfold item_total.
      cbn [snd written set_output player rooms]. rewrite Hroom. reflexivity.
Qed.

Lemma pickup_and_drop_conserve_items_witness :
  let w := quiet_world new_warrior (raw_numbers []) in
  exists room,
    rooms w !! location (player w) = Some room /\
    item_total w "pair_of_red_fur_claws" = 3%nat /\
    item_total (snd (pickup_item "pair_of_red_fur_claws" w))
               "pair_of_red_fur_claws" = 3%nat.
Proof.
  intros w.
  pose (room := default (Room_init "" "" [] [])
                        (rooms w !! location (player w))).
  assert (Hroom : rooms w !! location (player w) = Some room)
    by (vm_compute; reflexivity).
  exists room. split; [exact Hroom |].
  assert (Htotal : item_total w "pair_of_red_fur_claws" = 3%nat)
    by (vm_compute; reflexivity).
  split; [exact Htotal |].
  rewrite (proj1 (pickup_and_drop_conserve_items w room
                    "pair_of_red_fur_claws" "pair_of_red_fur_claws" Hroom)).
  exact Htotal.
Defined.

(** X7. Picking an item up and dropping it again, when no copy was carried
    before, returns the inventory to what it was; in the room the copy that
    was first in the list is now last. The player is the same as before. *)
Theorem pickup_then_drop (w : World) (room : Room) (x : string) :
  rooms w !! location (player w) = Some room ->
  x ∈ items room ->
  x ∉ inventory (player w) ->
  let w1 := snd (pickup_item x w) in
  let w2 := snd (drop_item x w1) in
  fst (pickup_item x w) = Return tt /\
  fst (drop_item x w1) = Return tt /\
  player w2 = player w /\
  rooms w2 = <[location (player w) :=
                 set_items room (list_remove x (items room) ++ [x])]>
               (rooms w) /\
  output w2 = output w ++ [MsgPickUp x; MsgDropped x].
Proof.
  intros Hroom Hin Hnot w1 w2. subst w2 w1.
  rewrite (pickup_item_run w room x Hroom Hin). cbn [fst snd].
  rewrite drop_item_run
    by (cbn [written set_output set_player player set_inventory inventory];
        set_solver).
  cbn [written set_output set_player set_rooms player rooms set_inventory
       inventory location output].
  rewrite lookup_insert_eq. cbn [fst snd written set_output set_player
    set_rooms player rooms output set_items items].
  rewrite list_remove_appended by exact Hnot.
  rewrite insert_insert_eq, <- app_assoc.
  repeat split. destruct (player w); reflexivity.
Qed.

Lemma pickup_then_drop_witness :
  let w := quiet_world new_warrior (raw_numbers []) in
  let w2 := snd (drop_item "pair_of_red_fur_claws"
                   (snd (pickup_item "pair_of_red_fur_claws" w))) in
  exists room,
    rooms w !! location (player w) = Some room /\
    "pair_of_red_fur_claws" ∈ items room /\
    ("pair_of_red_fur_claws" ∉ inventory (player w)) /\
    player w2 = player w.
Proof.
  intros w w2.
  pose (room := default (Room_init "" "" [] [])
                        (rooms w !! location (player w))).
  assert (Hroom : rooms w !! location (player w) = Some room)
    by (vm_compute; reflexivity).
  assert (Hin : "pair_of_red_fur_claws" ∈ items room) by compute_done.
  assert (Hnot : "pair_of_red_fur_claws" ∉ inventory (player w))
    by compute_done.
  exists room. split; [exact Hroom |]. split; [exact Hin |].
  split; [exact Hnot |].
  destruct (pickup_then_drop w room "pair_of_red_fur_claws" Hroom Hin Hnot)
    as (_ & _ & Hplayer & _).
  exact Hplayer.
Defined.

(** ** Moving *)

(** X8. [move_player] through an exit that leads to an existing room
    returns with the player in that room and otherwise the same; no room
    other than the destination changes, and the destination keeps its
    name, description, exits, items and deadline: its enemy is either the
    one it had, or, when it had no live enemy and its deadline has passed,
    a freshly spawned one. The lines written are the view of the
    destination. *)
Theorem move_player_arrives (w : World) (room dest_room : Room)
    (direction dest : string) :
  rooms w !! location (player w) = Some room ->
  exit_not_none room direction = Some dest ->
  rooms w !! dest = Some dest_room ->
  let w' := snd (move_player direction w) in
  fst (move_player direction w) = Return tt /\
  player w' = set_location (player w) dest /\
  (forall k, k <> dest -> rooms w' !! k = rooms w !! k) /\
  exists new_enemy,
    rooms w' !! dest = Some (set_enemy dest_room new_enemy) /\
    (new_enemy = enemy dest_room /\ rand_pos w' = rand_pos w \/
     live_enemy dest_room = None /\ respawn_timer dest_room <= clock w /\
     new_enemy = spawned_enemy (upcoming w 0) /\
     rand_pos w' = S (rand_pos w)) /\
    output w' = output w ++ room_view (set_enemy dest_room new_enemy).
Proof.
  intros Hroom Hexit Hdest w'. subst w'.
  rewrite (move_player_run w room direction dest Hroom Hexit).
  set (w0 := set_player w (set_location (player w) dest)).
  assert (Hdest0 : rooms w0 !! location (player w0) = Some dest_room)
    by exact Hdest.
  destruct (look_around_run w0 dest_room Hdest0) as (room1 & Hroom1 & ->).
  cbv zeta in Hroom1.
  rewrite (spawn_enemy_run _ dest_room w0 Hdest0) in *.
  assert (Hsame : set_enemy dest_room (enemy dest_room) = dest_room)
    by (destruct dest_room; reflexivity).
  assert (Hkeep : forall w1 : World,
            w1 = w0 -> rooms w1 !! location (player w0) = Some room1 ->
            player (snd (Return tt, written w1 (room_view room1)))
              = set_location (player w) dest /\
            (forall k, k <> dest ->
               rooms (snd (Return tt, written w1 (room_view room1))) !! k
               = rooms w !! k) /\
            rooms (snd (Return tt, written w1 (room_view room1))) !! dest
              = Some (set_enemy dest_room (enemy dest_room)) /\
            rand_pos (snd (Return tt, written w1 (room_view room1)))
              = rand_pos w /\
            output (snd (Return tt, written w1 (room_view room1)))
              = output w
                ++ room_view (set_enemy dest_room (enemy dest_room))).
  { intros w1 -> H1. rewrite Hdest0 in H1. injection H1 as <-.
    rewrite Hsame. repeat split. exact Hdest. }
  destruct (live_enemy dest_room) eqn:Hlive.
  - destruct (Hkeep w0 eq_refl Hroom1) as (Hp & Hk & Hd & Hr & Ho).
    split; [reflexivity |]. split; [exact Hp |]. split; [exact Hk |].
    exists (enemy dest_room). split; [exact Hd |].
    split; [left; split; [reflexivity | exact Hr] | exact Ho].
  - destruct (decide (respawn_timer dest_room <= clock w0)) as [Hdue | Hnot].
    + cbn [snd] in Hroom1. cbn [set_rooms rooms] in Hroom1.
      rewrite lookup_insert_eq in Hroom1. injection Hroom1 as <-.
      split; [reflexivity |]. split; [reflexivity |].
      split; [intros k Hk; apply lookup_insert_ne; intros E; apply Hk;
              symmetry; exact E |].
      exists (spawned_enemy (upcoming w0 0)).
      split; [apply lookup_insert_eq |].
      split; [| reflexivity].
      right. split; [reflexivity |]. split; [exact Hdue |].
      split; [reflexivity |]. cbn. lia.
    + destruct (Hkeep w0 eq_refl Hroom1) as (Hp & Hk & Hd & Hr & Ho).
      split; [reflexivity |]. split; [exact Hp |]. split; [exact Hk |].
      exists (enemy dest_room). split; [exact Hd |].
      split; [left; split; [reflexivity | exact Hr] | exact Ho].
Qed.

Lemma move_player_arrives_witness :
  let w := quiet_world new_warrior (raw_numbers [3]) in
  let w' := snd (move_player "east" w) in
  exists room dest_room,
    rooms w !! location (player w) = Some room /\
    exit_not_none room "east" = Some "outer_courtyard" /\
    rooms w !! "outer_courtyard" = Some dest_room /\
    fst (move_player "east" w) = Return tt /\
    player w' = set_location (player w) "outer_courtyard".
Proof.
  intros w w'.
  pose (room := default (Room_init "" "" [] [])
                        (rooms w !! location (player w))).
  pose (dest_room := default (Room_init "" "" [] [])
                             (rooms w !! "outer_courtyard")).
  assert (Hroom : rooms w !! location (player w) = Some room)
    by (vm_compute; reflexivity).
  assert (Hexit : exit_not_none room "east" = Some "outer_courtyard")
    by (vm_compute; reflexivity).
  assert (Hdest : rooms w !! "outer_courtyard" = Some dest_room)
    by (vm_compute; reflexivity).
  exists room, dest_room.
  split; [exact Hroom |]. split; [exact Hexit |]. split; [exact Hdest |].
  destruct (move_player_arrives w room dest_room "east" "outer_courtyard"
              Hroom Hexit Hdest) as (Hret & Hplayer & _).
  split; [exact Hret | exact Hplayer].
Defined.

(** ** The order in which a tick tries the directions *)

Lemma set_auto_move_index_twice (w : World) (i j : nat) :
  set_auto_move_index (set_auto_move_index w i) j = set_auto_move_index w j.
Proof. reflexivity. Qed.

Lemma scan_order_lookup (i k : nat) :
  (i < length auto_move_directions)%nat ->
  (k < length auto_move_directions)%nat ->
  scan_order i !! k
  = auto_move_directions !! ((i + k) mod length auto_move_directions)%nat.
Proof.
  cbn [auto_move_directions length]. intros Hi Hk.
  do 4 (destruct i as [| i]; [do 4 (destruct k as [| k]; [reflexivity |]); lia |]).
  lia.
Qed.

Lemma probe_directions_hit (k : nat) :
  forall (n : nat) (room : Room) (w : World) (d : string),
  (auto_move_index w < length auto_move_directions)%nat ->
  (k < n)%nat ->
  (forall j dj, (j < k)%nat ->
     auto_move_directions
       !! ((auto_move_index w + j) mod length auto_move_directions)%nat
       = Some dj ->
     exit_truthy room dj = false) ->
  auto_move_directions
    !! ((auto_move_index w + k) mod length auto_move_directions)%nat = Some d ->
  exit_truthy room d = true ->
  probe_directions n room w
  = move_player d
      (set_auto_move_index w
         ((auto_move_index w + k + 1) mod length auto_move_directions)%nat).
Proof.
  induction k as [| k IH]; intros n room w d Hidx Hk Hbefore Hd Htruthy.
  - destruct n as [| n]; [lia |].
    rewrite Nat.add_0_r in *. rewrite Nat.mod_small in Hd by exact Hidx.
    cbn [probe_directions]. mstep. rewrite Hd. mstep. rewrite Htruthy.
    reflexivity.
  - destruct n as [| n]; [lia |].
    destruct (auto_move_directions !! auto_move_index w) as [d0 |] eqn:Hd0;
      [| apply lookup_ge_None in Hd0; lia].
    assert (H0 : exit_truthy room d0 = false).
    { apply (Hbefore 0%nat d0); [lia |].
      rewrite Nat.add_0_r, Nat.mod_small by exact Hidx. exact Hd0. }
    cbn [probe_directions]. mstep. rewrite Hd0. mstep. rewrite H0.
    set (w1 := set_auto_move_index w
                 ((auto_move_index w + 1) mod length auto_move_directions)%nat).
    assert (Hshift : forall j,
              ((auto_move_index w1 + j) mod length auto_move_directions
               = (auto_move_index w + S j) mod length auto_move_directions)%nat).
    { intros j. subst w1. cbn [set_auto_move_index auto_move_index].
      rewrite Nat.Div0.add_mod_idemp_l. f_equal. lia. }
    rewrite (IH n room w1 d).
    + rewrite <- Nat.add_assoc, Hshift. subst w1.
      rewrite set_auto_move_index_twice. do 3 f_equal. lia.
    + subst w1. cbn [set_auto_move_index auto_move_index].
      apply Nat.mod_upper_bound. discriminate.
    + lia.
    + intros j dj Hj Hdj. rewrite Hshift in Hdj.
      apply (Hbefore (S j) dj); [lia | exact Hdj].
    + rewrite Hshift. exact Hd.
    + exact Htruthy.
Qed.

Lemma probe_directions_miss (n : nat) :
  forall (room : Room) (w : World),
  (auto_move_index w < length auto_move_directions)%nat ->
  (forall j dj, (j < n)%nat ->
     auto_move_directions
       !! ((auto_move_index w + j) mod length auto_move_directions)%nat
       = Some dj ->
     exit_truthy room dj = false) ->
  probe_directions n room w
  = (Return tt,
     set_auto_move_index w
       ((auto_move_index w + n) mod length auto_move_directions)%nat).
Proof.
  induction n as [| n IH]; intros room w Hidx Hnone.
  - rewrite Nat.add_0_r, Nat.mod_small by exact Hidx.
    rewrite set_auto_move_index_same. reflexivity.
  - destruct (auto_move_directions !! auto_move_index w) as [d0 |] eqn:Hd0;
      [| apply lookup_ge_None in Hd0; lia].
    assert (H0 : exit_truthy room d0 = false).
    { apply (Hnone 0%nat d0); [lia |].
      rewrite Nat.add_0_r, Nat.mod_small by exact Hidx. exact Hd0. }
    cbn [probe_directions]. mstep. rewrite Hd0. mstep. rewrite H0.
    set (w1 := set_auto_move_index w
                 ((auto_move_index w + 1) mod length auto_move_directions)%nat).
    assert (Hshift : forall j,
              ((auto_move_index w1 + j) mod length auto_move_directions
               = (auto_move_index w + S j) mod length auto_move_directions)%nat).
    { intros j. subst w1. cbn [set_auto_move_index auto_move_index].
      rewrite Nat.Div0.add_mod_idemp_l. f_equal. lia. }
    rewrite (IH room w1).
    + rewrite Hshift. subst w1. rewrite set_auto_move_index_twice. reflexivity.
    + subst w1. cbn [set_auto_move_index auto_move_index].
      apply Nat.mod_upper_bound. discriminate.
    + intros j dj Hj Hdj. rewrite Hshift in Hdj.
      apply (Hnone (S j) dj); [lia | exact Hdj].
Qed.

Lemma scan_order_length (i : nat) :
  length (scan_order i) = length auto_move_directions.
Proof.
  unfold scan_order. rewrite length_app, length_drop, length_take. lia.
Qed.

(** X9. A tick that finds no live enemy and the player at full health
    tries north, west, east, south in this order, starting at the cursor
    and wrapping around: it moves through the first of them that leads out
    of the room, leaves the cursor just past it, and then attacks whatever
    lives in the new room. When none of the four leads out of the room, the
    tick returns with the state, cursor included, as it found it. *)
Theorem tick_direction_order (w : World) (room : Room) :
  rooms w !! location (player w) = Some room ->
  live_enemy room = None ->
  max_hp (player w) <= hp (player w) ->
  (auto_move_index w < length auto_move_directions)%nat ->
  auto_move_and_attack w =
    match first_open_exit room (auto_move_index w) with
    | Some (k, d) =>
        (let* _ := move_player d in auto_attack_if_enemy)
          (set_auto_move_index w
             ((auto_move_index w + k + 1) mod length auto_move_directions)%nat)
    | None => (Return tt, w)
    end.
Proof.
  intros Hroom Hlive Hfull Hidx.
  unfold auto_move_and_attack. mstep.
  unfold lookup_room. rewrite Hroom. mstep. rewrite Hlive.
  destruct (decide (hp (player w) < max_hp (player w))) as [Hlow | _];
    [lia |].
  unfold first_open_exit.
  destruct (list_find _ (scan_order (auto_move_index w))) as [[k d] |] eqn:Hfind.
  - apply list_find_Some in Hfind. destruct Hfind as (Hd & Htruthy & Hbefore).
    apply Is_true_true in Htruthy.
    assert (Hk : (k < length auto_move_directions)%nat).
    { rewrite <- (scan_order_length (auto_move_index w)).
      apply lookup_lt_Some in Hd. exact Hd. }
    rewrite scan_order_lookup in Hd by assumption.
    destruct (exits room) as [| x xs] eqn:Hexits.
    { unfold exit_truthy in Htruthy. rewrite Hexits in Htruthy. discriminate. }
    rewrite (probe_directions_hit k (length auto_move_directions) room w d);
      try assumption.
    + reflexivity.
    + intros j dj Hj Hdj.
      rewrite <- scan_order_lookup in Hdj by (try assumption; lia).
      specialize (Hbefore j dj Hdj Hj).
      destruct (exit_truthy room dj); [exfalso; apply Hbefore; exact I |].
      reflexivity.
  - apply list_find_None in Hfind.
    destruct (exits room) as [| x xs] eqn:Hexits; [reflexivity |].
    rewrite (probe_directions_miss (length auto_move_directions) room w Hidx).
    + replace ((auto_move_index w + length auto_move_directions)
               mod length auto_move_directions)%nat
        with (auto_move_index w).
      * rewrite set_auto_move_index_same.
        rewrite (auto_attack_if_enemy_run w room Hroom), Hlive. reflexivity.
      * rewrite <- (Nat.mul_1_l (length auto_move_directions)) at 1.
        rewrite Nat.Div0.mod_add. symmetry. apply Nat.mod_small. exact Hidx.
    + intros j dj Hj Hdj.
      rewrite <- scan_order_lookup in Hdj by assumption.
      rewrite Forall_forall in Hfind.
      specialize (Hfind dj (list_elem_of_lookup_2 _ _ _ Hdj)).
      destruct (exit_truthy room dj); [exfalso; apply Hfind; exact I |].
      reflexivity.
Qed.

Lemma tick_direction_order_witness :
  let w := set_auto_move_index (quiet_world new_warrior (raw_numbers [3])) 1 in
  first_open_exit
    (default (Room_init "" "" [] []) (rooms w !! location (player w)))
    (auto_move_index w) = Some (1%nat, "east") /\
  auto_move_and_attack w
  = (let* _ := move_player "east" in auto_attack_if_enemy)
      (set_auto_move_index w 3).
Proof.
  intros w.
  pose (room := default (Room_init "" "" [] [])
                        (rooms w !! location (player w))).
  assert (Hroom : rooms w !! location (player w) = Some room)
    by (vm_compute; reflexivity).
  assert (Hlive : live_enemy room = None) by (vm_compute; reflexivity).
  assert (Hfull : max_hp (player w) <= hp (player w)) by (vm_compute; discriminate).
  assert (Hidx : (auto_move_index w < length auto_move_directions)%nat)
    by (vm_compute; lia).
  assert (Hfirst : first_open_exit room (auto_move_index w)
                   = Some (1%nat, "east")) by (vm_compute; reflexivity).
  split; [exact Hfirst |].
  rewrite (tick_direction_order w room Hroom Hlive Hfull Hidx), Hfirst.
  reflexivity.
Defined.

(** ** The map *)

Lemma dict_get_elem {V : Type} (d : list (string * V)) (k : string) (v : V) :
  dict_get d k = Some v -> (k, v) ∈ d.
Proof.
  induction d as [| [k' v'] d IH]; cbn [dict_get]; [discriminate |].
  destruct (decide (k' = k)) as [-> | _].
  - intros [= ->]. apply list_elem_of_here.
  - intros H. apply list_elem_of_further, IH, H.
Qed.

Lemma exits_closed_spec (rs : gmap string Room) (key : string) (room : Room)
    (direction dest : string) :
  exits_closed rs = true ->
  rs !! key = Some room ->
  exit_not_none room direction = Some dest ->
  is_Some (rs !! dest).
Proof.
  unfold exits_closed. intros Hclosed Hroom Hexit.
  rewrite forallb_forall in Hclosed.
  apply elem_of_map_to_list, list_elem_of_In in Hroom.
  specialize (Hclosed _ Hroom). cbn [snd] in Hclosed.
  rewrite forallb_forall in Hclosed.
  unfold exit_not_none in Hexit.
  destruct (dict_get (exits room) direction) as [[d |] |] eqn:Hget;
    try discriminate.
  injection Hexit as ->.
  apply dict_get_elem, list_elem_of_In in Hget.
  specialize (Hclosed _ Hget). cbn [snd] in Hclosed.
  apply bool_decide_eq_true_1 in Hclosed. exact Hclosed.
Qed.

Lemma initial_rooms_closed : exits_closed initial_rooms = true.
Proof. vm_compute. reflexivity. Qed.

Lemma initial_rooms_no_enemy (key : string) (room : Room) :
  initial_rooms !! key = Some room -> enemy room = None.
Proof.
  intros Hroom.
  assert (Hall : forallb (fun kr : string * Room =>
                            bool_decide (enemy (snd kr) = None))
                         (map_to_list initial_rooms) = true)
    by (vm_compute; reflexivity).
  rewrite forallb_forall in Hall.
  apply elem_of_map_to_list, list_elem_of_In in Hroom.
  specialize (Hall _ Hroom). apply bool_decide_eq_true_1 in Hall. exact Hall.
Qed.

(** ** Sound states *)

Lemma sound_rooms_plan (rs : gmap string Room) (key : string) :
  sound_rooms rs ->
  room_plan <$> rs !! key = room_plan <$> initial_rooms !! key.
Proof.
  intros [Hplan _]. rewrite <- !lookup_fmap, Hplan. reflexivity.
Qed.

Lemma sound_rooms_known (rs : gmap string Room) (key : string) :
  sound_rooms rs -> is_Some (initial_rooms !! key) -> is_Some (rs !! key).
Proof.
  intros Hrs [r0 Hr0]. pose proof (sound_rooms_plan rs key Hrs) as H.
  rewrite Hr0 in H. destruct (rs !! key) as [r |]; [eexists; reflexivity |].
  discriminate.
Qed.

Lemma sound_rooms_exit (rs : gmap string Room) (key : string) (room : Room)
    (direction dest : string) :
  sound_rooms rs ->
  rs !! key = Some room ->
  exit_not_none room direction = Some dest ->
  is_Some (initial_rooms !! dest).
Proof.
  intros Hrs Hroom Hexit. pose proof (sound_rooms_plan rs key Hrs) as H.
  rewrite Hroom in H.
  destruct (initial_rooms !! key) as [r0 |] eqn:Hr0; [| discriminate].
  injection H as _ _ Hexits.
  apply (exits_closed_spec initial_rooms key r0 direction dest
           initial_rooms_closed Hr0).
  unfold exit_not_none in *. rewrite <- Hexits. exact Hexit.
Qed.

Lemma sound_rooms_insert (rs : gmap string Room) (key : string)
    (room room' : Room) :
  sound_rooms rs ->
  rs !! key = Some room ->
  room_plan room' = room_plan room ->
  (forall e, enemy room' = Some e -> pool_enemy e) ->
  sound_rooms (<[key := room']> rs).
Proof.
  intros [Hplan Henemies] Hroom Hsame Henemy. split.
  - rewrite fmap_insert, Hsame, <- Hplan. apply insert_id.
    rewrite lookup_fmap, Hroom. reflexivity.
  - intros k r e Hr He. destruct (decide (key = k)) as [<- | Hne].
    + rewrite lookup_insert_eq in Hr. injection Hr as <-. apply Henemy, He.
    + rewrite lookup_insert_ne in Hr by exact Hne.
      apply (Henemies k r e Hr He).
Qed.

Lemma pool_template_facts (chosen : EnemyTemplate) :
  chosen ∈ ENEMY_POOL ->
  0 < t_hp chosen /\ 1 <= t_attack_power chosen /\ 0 <= t_exp chosen.
Proof.
  unfold ENEMY_POOL. intros H.
  repeat (apply elem_of_cons in H; destruct H as [-> | H];
          [cbn; lia |]).
  inversion H.
Qed.

Lemma pool_enemy_facts (e : Enemy) :
  pool_enemy e ->
  is_alive e = true /\ 0 < e_hp e /\ 1 <= attack_power e /\
  0 <= exp_reward e.
Proof.
  intros (chosen & Hin & _ & Hpower & Hexp & Halive & Hhp).
  destruct (pool_template_facts chosen Hin) as (_ & Hp & Hx).
  unfold is_alive. rewrite Halive, bool_decide_eq_true_2 by lia.
  repeat split; lia.
Qed.

Lemma pool_enemy_instantiate (chosen : EnemyTemplate) :
  chosen ∈ ENEMY_POOL -> pool_enemy (instantiate chosen).
Proof.
  intros Hin. destruct (pool_template_facts chosen Hin) as (Hhp & _ & _).
  exists chosen. cbn. repeat split; try assumption; lia.
Qed.

Lemma pool_enemy_hit (e : Enemy) (d : Z) :
  pool_enemy e -> 0 <= d -> 0 < e_hp e - d ->
  pool_enemy (set_e_hp e (e_hp e - d)).
Proof.
  intros (chosen & Hin & Hname & Hpower & Hexp & Halive & Hhp) Hd Hleft.
  exists chosen. cbn. repeat split; try assumption; lia.
Qed.

Lemma sound_rooms_live (rs : gmap string Room) (key : string) (room : Room) :
  sound_rooms rs -> rs !! key = Some room -> live_enemy room = enemy room.
Proof.
  intros [_ Henemies] Hroom. unfold live_enemy.
  destruct (enemy room) as [e |] eqn:He; [| reflexivity].
  destruct (pool_enemy_facts e (Henemies key room e Hroom He)) as (-> & _).
  reflexivity.
Qed.

Lemma sound_ext (w w' : World) :
  player w' = player w ->
  rooms w' = rooms w ->
  auto_move_index w' = auto_move_index w ->
  save_file w' = save_file w ->
  sound w -> sound w'.
Proof.
  unfold sound, sound_env. intros -> -> -> ->. tauto.
Qed.

Lemma sound_room (w : World) :
  sound w -> is_Some (rooms w !! location (player w)).
Proof.
  intros [(st & _ & _ & _ & _ & _ & _ & _ & _ & _ & Hloc) (Hrs & _)].
  apply (sound_rooms_known _ _ Hrs Hloc).
Qed.

(** ** The player of a sound state *)

Lemma sound_player_set_hp (p : Player) (v : Z) :
  sound_player p -> v <= max_hp p -> sound_player (set_hp p v).
Proof.
  intros (st & Hc & Hl & He & Hm & Ha & Hh & Ht) Hv.
  exists st. cbn. repeat split; try tauto; lia.
Qed.

Lemma sound_player_set_inventory (p : Player) (l : list string) :
  sound_player p -> sound_player (set_inventory p l).
Proof. intros (st & H). exists st. exact H. Qed.

Lemma sound_player_set_location (p : Player) (dest : string) :
  sound_player p -> is_Some (initial_rooms !! dest) ->
  sound_player (set_location p dest).
Proof.
  intros (st & Hc & Hl & He & Hm & Ha & Hh & Ht1 & Ht2 & Ht3 & _) Hdest.
  exists st. cbn. repeat split; try assumption; lia.
Qed.

Lemma sound_player_level_loop (st : ClassStat) (p : Player) :
  1 <= level p -> 0 <= exp p ->
  max_hp p = cs_max_hp st + HP_PER_LEVEL * (level p - 1) ->
  base_attack p = cs_base_attack st + ATTACK_PER_LEVEL * (level p - 1) ->
  hp p <= max_hp p ->
  let q := level_loop p in
  1 <= level q /\ 0 <= exp q < level q * 100 /\
  max_hp q = cs_max_hp st + HP_PER_LEVEL * (level q - 1) /\
  base_attack q = cs_base_attack st + ATTACK_PER_LEVEL * (level q - 1) /\
  hp q <= max_hp q.
Proof.
  revert p. apply (level_loop_ind (fun p => _ -> _ -> _ -> _ -> _ -> _)).
  - intros p Hlt Hl He Hm Ha Hh. rewrite level_loop_exit by exact Hlt.
    cbv zeta. repeat split; try assumption; lia.
  - intros p Hle IH Hl He Hm Ha Hh.
    rewrite level_loop_continue by exact Hle. apply IH.
    + cbn. lia.
    + cbn. lia.
    + cbn. rewrite Hm. unfold HP_PER_LEVEL. lia.
    + cbn. rewrite Ha. unfold ATTACK_PER_LEVEL. lia.
    + cbn. lia.
Qed.

Lemma sound_player_add_experience (p : Player) (amount : Z) :
  sound_player p -> 0 <= amount -> sound_player (add_experience p amount).
Proof.
  intros (st & Hc & Hl & He & Hm & Ha & Hh & Ht1 & Ht2 & Ht3 & Hloc) Hamount.
  destruct (add_experience_frame p amount)
    as (_ & Hclass & _ & Hlocation & Htasks & _).
  destruct (sound_player_level_loop st (set_exp p (exp p + amount)))
    as (Hl' & He' & Hm' & Ha' & Hh'); cbn; try assumption; try lia.
  exists st. unfold add_experience in *.
  rewrite Hclass, Htasks, Hlocation.
  repeat split; try assumption; lia.
Qed.

Lemma sound_player_victor (p : Player) (e : Enemy) :
  sound_player p -> pool_enemy e -> sound_player (victor p e).
Proof.
  intros Hp He. destruct (pool_enemy_facts e He) as (_ & _ & _ & Hexp).
  destruct (add_experience_frame p (exp_reward e))
    as (_ & _ & _ & _ & Htasks & _).
  destruct (sound_player_add_experience p (exp_reward e) Hp Hexp)
    as (st & Hc & Hl & Hx & Hm & Ha & Hh & Ht1 & Ht2 & Ht3 & Hloc).
  rewrite Htasks in Ht1, Ht2, Ht3.
  exists st. unfold victor. cbn [set_tasks player_class level exp max_hp hp
                                 base_attack tasks location].
  repeat split; try assumption; try lia;
    apply lookup_insert_is_Some'; right; assumption.
Qed.

(** ** Every operation returns and keeps the state sound *)

Ltac sound_same Hw :=
  apply (sound_ext _ _ eq_refl eq_refl eq_refl eq_refl Hw).

Lemma sound_set_player (w w' : World) (p : Player) :
  sound w -> sound_player p ->
  player w' = p -> rooms w' = rooms w ->
  auto_move_index w' = auto_move_index w -> save_file w' = save_file w ->
  sound w'.
Proof.
  unfold sound, sound_env. intros [_ Henv] Hp -> -> -> ->.
  split; assumption.
Qed.

Lemma sound_update (w w' : World) (p : Player) (room room' : Room) :
  sound w -> sound_player p ->
  rooms w !! location (player w) = Some room ->
  room_plan room' = room_plan room ->
  (forall e, enemy room' = Some e -> pool_enemy e) ->
  player w' = p ->
  rooms w' = <[location (player w) := room']> (rooms w) ->
  auto_move_index w' = auto_move_index w ->
  save_file w' = save_file w ->
  sound w'.
Proof.
  unfold sound, sound_env.
  intros [_ (Hrs & Hidx & Hsave)] Hp Hroom Hplan Henemy -> -> -> ->.
  split; [exact Hp |]. split; [| split; assumption].
  apply (sound_rooms_insert _ _ room); assumption.
Qed.

Lemma heal_player_sound (w : World) : sound w -> returns_sound heal_player w.
Proof.
  intros Hw. unfold returns_sound. pose proof Hw as [Hp _].
  destruct (Z_lt_le_dec (hp (player w)) (max_hp (player w))) as [Hlt | Hge].
  - rewrite (heal_player_run w Hlt). split; [reflexivity |].
    cbn [snd]. eapply (sound_set_player w); try reflexivity; [exact Hw |].
    apply sound_player_set_hp; [exact Hp | lia].
  - rewrite (heal_player_full w Hge). split; [reflexivity |].
    cbn [snd]. sound_same Hw.
Qed.

Section SoundExchange.

Variables (w : World) (room : Room) (e : Enemy).
Hypothesis Hw : sound w.
Hypothesis Hroom : rooms w !! location (player w) = Some room.
Hypothesis Henemy : enemy room = Some e.

Lemma exchange_pool_enemy : pool_enemy e.
Proof.
  destruct Hw as [_ ([_ Henemies] & _)].
  apply (Henemies _ room e Hroom Henemy).
Qed.

Lemma after_kill_sound (msgs : list Msg) : sound (after_kill w room e msgs).
Proof.
  destruct Hw as [Hp _].
  apply (sound_update w _ (victor (player w) e) room
           (emptied_room room (clock w))); try reflexivity; try assumption.
  - apply sound_player_victor; [exact Hp | exact exchange_pool_enemy].
  - cbn. discriminate.
Qed.

Lemma after_counter_sound (d r : Z) (msgs : list Msg) :
  0 <= d -> 0 < e_hp e - d -> 0 <= r ->
  sound (after_counter w room e d r msgs).
Proof.
  intros Hd Hleft Hr. destruct Hw as [Hp _].
  apply (sound_update w _ (set_hp (player w) (hp (player w) - r)) room
           (hit_room room e d)); try reflexivity; try assumption.
  - apply sound_player_set_hp; [exact Hp |].
    destruct Hp as (st & _ & _ & _ & _ & _ & Hh & _). lia.
  - cbn. intros e' [= <-].
    apply pool_enemy_hit; [exact exchange_pool_enemy | exact Hd | exact Hleft].
Qed.

End SoundExchange.

Lemma basic_damage_nonneg (w : World) : 0 <= basic_damage w.
Proof. unfold basic_damage. cbv zeta. destruct (decide (_ < 0)); lia. Qed.

Lemma retaliation_damage_pos (w : World) (e : Enemy) :
  1 <= attack_power e -> 1 <= retaliation_damage w e.
Proof.
  intros H. unfold retaliation_damage.
  pose proof (randint_value_range 1 (attack_power e) (upcoming w 1) H). lia.
Qed.

Lemma attack_enemy_sound (w : World) : sound w -> returns_sound attack_enemy w.
Proof.
  intros Hw. unfold returns_sound. destruct (sound_room w Hw) as [room Hroom].
  pose proof Hw as [Hp (Hrs & _)].
  pose proof (sound_rooms_live _ _ _ Hrs Hroom) as Hlive.
  destruct (enemy room) as [e |] eqn:Henemy.
  - pose proof (exchange_pool_enemy w room e Hw Hroom Henemy) as Hpool.
    destruct (pool_enemy_facts e Hpool) as (_ & _ & Hpower & _).
    destruct Hp as (_ & _ & _ & _ & _ & _ & _ & _ & _ & [b Hb] & _).
    destruct (decide (e_hp e - basic_damage w <= 0)) as [Hdead | Hleft].
    + rewrite (attack_enemy_kill w room e Hroom Hlive b Hdead Hb).
      split; [reflexivity |]. apply (after_kill_sound w room e); assumption.
    + rewrite (attack_enemy_counter w room e Hroom Hlive) by (lia || exact Hpower).
      cbv zeta.
      match goal with
      | |- context [after_counter w room e ?d ?r ?msgs] =>
          assert (Hafter : sound (after_counter w room e d r msgs))
      end.
      { apply after_counter_sound; try assumption;
          [apply basic_damage_nonneg | lia |].
        pose proof (retaliation_damage_pos w e Hpower). lia. }
      destruct (decide (_ <= 0)).
      * apply heal_player_sound. sound_same Hafter.
      * split; [reflexivity | exact Hafter].
  - rewrite (attack_enemy_none w room Hroom Hlive).
    split; [reflexivity |]. cbn [snd]. sound_same Hw.
Qed.

Lemma skill_damage_range (w : World) : 10 <= skill_damage w <= 15.
Proof. unfold skill_damage. apply randint_value_range. lia. Qed.

Lemma use_class_skill_sound (w : World) :
  sound w -> returns_sound use_class_skill w.
Proof.
  intros Hw. unfold returns_sound. destruct (sound_room w Hw) as [room Hroom].
  pose proof Hw as [Hp (Hrs & _)].
  pose proof (sound_rooms_live _ _ _ Hrs Hroom) as Hlive.
  destruct (enemy room) as [e |] eqn:Henemy.
  - pose proof (exchange_pool_enemy w room e Hw Hroom Henemy) as Hpool.
    destruct (pool_enemy_facts e Hpool) as (_ & _ & Hpower & _).
    destruct Hp as (st & Hclass & _ & _ & _ & _ & _ & _ & _ & [b Hb] & _).
    pose proof (skill_damage_range w) as Hskill.
    destruct (decide (e_hp e - skill_damage w <= 0)) as [Hdead | Hleft].
    + rewrite (use_class_skill_kill w room e Hroom Hlive st Hclass b Hdead Hb).
      split; [reflexivity |]. apply (after_kill_sound w room e); assumption.
    + rewrite (use_class_skill_counter w room e Hroom Hlive st Hclass)
        by (lia || exact Hpower).
      cbv zeta.
      match goal with
      | |- context [after_counter w room e ?d ?r ?msgs] =>
          assert (Hafter : sound (after_counter w room e d r msgs))
      end.
      { apply after_counter_sound; try assumption; try lia.
        pose proof (retaliation_damage_pos w e Hpower). lia. }
      destruct (decide (_ <= 0)).
      * split; [reflexivity |]. cbn [snd]. sound_same Hafter.
      * split; [reflexivity | exact Hafter].
  - rewrite (use_class_skill_none w room Hroom Hlive).
    split; [reflexivity |]. cbn [snd]. sound_same Hw.
Qed.

Lemma pickup_item_sound (item_name : string) (w : World) :
  sound w -> returns_sound (pickup_item item_name) w.
Proof.
  intros Hw. unfold returns_sound. destruct (sound_room w Hw) as [room Hroom].
  pose proof Hw as [Hp ([_ Henemies] & _)].
  destruct (decide (item_name ∈ items room)) as [Hin | Hout].
  - rewrite (pickup_item_run w room item_name Hroom Hin).
    split; [reflexivity |]. cbn [snd].
    apply (sound_update w _
             (set_inventory (player w) (inventory (player w) ++ [item_name]))
             room (set_items room (list_remove item_name (items room))));
      try reflexivity; try assumption.
    cbn. intros e He. apply (Henemies _ room e Hroom He).
  - rewrite (pickup_item_absent w room item_name Hroom Hout).
    split; [reflexivity |]. cbn [snd]. sound_same Hw.
Qed.

Lemma drop_item_sound (item_name : string) (w : World) :
  sound w -> returns_sound (drop_item item_name) w.
Proof.
  intros Hw. unfold returns_sound. destruct (sound_room w Hw) as [room Hroom].
  pose proof Hw as [Hp ([_ Henemies] & _)].
  destruct (decide (item_name ∈ inventory (player w))) as [Hin | Hout].
  - rewrite (drop_item_run w item_name Hin). cbv zeta. rewrite Hroom.
    split; [reflexivity |]. cbn [snd].
    apply (sound_update w _
             (set_inventory (player w)
                (list_remove item_name (inventory (player w))))
             room (set_items room (items room ++ [item_name])));
      try reflexivity; try assumption.
    cbn. intros e He. apply (Henemies _ room e Hroom He).
  - rewrite (drop_item_absent w item_name Hout).
    split; [reflexivity |]. cbn [snd]. sound_same Hw.
Qed.

Lemma use_item_sound (item_name : string) (w : World) :
  sound w -> returns_sound (use_item item_name) w.
Proof.
  intros Hw. unfold returns_sound. pose proof Hw as [Hp _].
  destruct (decide (item_name ∈ inventory (player w))) as [Hin | Hout].
  - destruct (str_contains "healing_potion" item_name) eqn:Hname.
    + rewrite (use_item_potion w item_name Hin Hname). cbv zeta.
      split; [reflexivity |]. cbn [snd].
      eapply (sound_set_player w); try reflexivity; [exact Hw |].
      apply sound_player_set_inventory, sound_player_set_hp; [exact Hp | lia].
    + rewrite (use_item_useless w item_name Hin Hname).
      split; [reflexivity |]. cbn [snd]. sound_same Hw.
  - rewrite (use_item_absent w item_name Hout).
    split; [reflexivity |]. cbn [snd]. sound_same Hw.
Qed.

Lemma spawn_enemy_sound (key : string) (w : World) :
  sound w -> is_Some (rooms w !! key) ->
  returns_sound (spawn_enemy key) w.
Proof.
  intros Hw [room Hroom]. unfold returns_sound. rewrite (spawn_enemy_run key room w Hroom).
  destruct (live_enemy room); [split; [reflexivity | exact Hw] |].
  destruct (decide (respawn_timer room <= clock w));
    [| split; [reflexivity | exact Hw]].
  split; [reflexivity |]. cbn [snd].
  destruct Hw as [Hp (Hrs & Hidx & Hsave)].
  split; [exact Hp |]. split; [| split; assumption].
  cbn [set_rooms rooms].
  apply (sound_rooms_insert _ _ room); try assumption; [reflexivity |].
  cbn [set_enemy enemy]. intros e He.
  destruct (spawned_enemy_from_pool (upcoming w 0)) as (chosen & Hin & _ & Hs).
  rewrite Hs in He. injection He as <-.
  apply pool_enemy_instantiate, Hin.
Qed.

Lemma look_around_sound (w : World) : sound w -> returns_sound look_around w.
Proof.
  intros Hw. unfold returns_sound. destruct (sound_room w Hw) as [room Hroom].
  destruct (look_around_run w room Hroom) as (room1 & _ & ->).
  split; [reflexivity |]. cbn [snd].
  destruct (spawn_enemy_sound (location (player w)) w Hw
              (ex_intro _ room Hroom)) as [_ Hspawn].
  sound_same Hspawn.
Qed.

Lemma move_player_sound (direction : string) (w : World) :
  sound w -> returns_sound (move_player direction) w.
Proof.
  intros Hw. unfold returns_sound. destruct (sound_room w Hw) as [room Hroom].
  destruct (exit_not_none room direction) as [dest |] eqn:Hexit.
  - rewrite (move_player_run w room direction dest Hroom Hexit).
    apply look_around_sound.
    destruct Hw as [Hp Henv]. split; [| exact Henv].
    cbn [set_player player]. apply sound_player_set_location; [exact Hp |].
    destruct Henv as (Hrs & _).
    apply (sound_rooms_exit _ _ _ _ _ Hrs Hroom Hexit).
  - rewrite (move_player_no_exit w room direction Hroom Hexit).
    split; [reflexivity |]. cbn [snd]. sound_same Hw.
Qed.

Lemma returns_sound_bind (m k : M unit) (w : World) :
  returns_sound m w ->
  (forall w1, sound w1 -> returns_sound k w1) ->
  returns_sound (let* _ := m in k) w.
Proof.
  unfold returns_sound, bind. intros [Hret Hsound] Hk.
  destruct (m w) as [[[] | err] w1]; cbn [fst snd] in *; [| discriminate].
  apply Hk, Hsound.
Qed.

Lemma auto_attack_if_enemy_sound (w : World) :
  sound w -> returns_sound auto_attack_if_enemy w.
Proof.
  intros Hw. unfold returns_sound. destruct (sound_room w Hw) as [room Hroom].
  rewrite (auto_attack_if_enemy_run w room Hroom).
  destruct (live_enemy room).
  - apply attack_enemy_sound, Hw.
  - split; [reflexivity | exact Hw].
Qed.

Lemma probe_directions_sound (n : nat) (room : Room) :
  forall w, sound w -> returns_sound (probe_directions n room) w.
Proof.
  induction n as [| n IH]; intros w Hw; [split; [reflexivity | exact Hw] |].
  pose proof Hw as [Hp (Hrs & Hidx & Hsave)].
  cbn [probe_directions]. unfold returns_sound. mstep.
  destruct (auto_move_directions !! auto_move_index w) as [dir_ |] eqn:Hdir;
    [| apply lookup_ge_None in Hdir; lia].
  mstep.
  assert (Hw1 : sound (set_auto_move_index w
                         ((auto_move_index w + 1)
                          mod length auto_move_directions)%nat)).
  { split; [exact Hp |]. split; [exact Hrs |]. split; [| exact Hsave].
    cbn [set_auto_move_index auto_move_index].
    apply Nat.mod_upper_bound. discriminate. }
  destruct (exit_truthy room dir_).
  - apply move_player_sound, Hw1.
  - apply IH, Hw1.
Qed.

Lemma auto_move_and_attack_sound (w : World) :
  sound w -> returns_sound auto_move_and_attack w.
Proof.
  intros Hw. unfold returns_sound. destruct (sound_room w Hw) as [room Hroom].
  unfold auto_move_and_attack, returns_sound. mstep.
  unfold lookup_room. rewrite Hroom. mstep.
  destruct (live_enemy room).
  - apply auto_attack_if_enemy_sound, Hw.
  - destruct (decide (hp (player w) < max_hp (player w))).
    + apply heal_player_sound, Hw.
    + destruct (exits room); [split; [reflexivity | exact Hw] |].
      apply (returns_sound_bind
               (probe_directions (length auto_move_directions) room)
               auto_attack_if_enemy).
      * apply probe_directions_sound, Hw.
      * apply auto_attack_if_enemy_sound.
Qed.

(** ** Starting, loading and saving a game *)

Lemma initial_rooms_sound : sound_rooms initial_rooms.
Proof.
  split; [reflexivity |]. intros key room e Hroom He.
  rewrite (initial_rooms_no_enemy key room Hroom) in He. discriminate.
Qed.

Lemma sound_player_reloaded (p : Player) : sound_player p -> reloaded p = p.
Proof.
  intros (st & Hclass & _ & _ & _ & _ & _ & _ & _ & Hstun & _).
  unfold reloaded, Player_init.
  rewrite (class_key_lower (player_class p)) by (eexists; exact Hclass).
  destruct (decide (tasks p = ∅)) as [Hempty | _].
  - rewrite Hempty, lookup_empty in Hstun. destruct Hstun as [b Hb].
    discriminate.
  - destruct p; reflexivity.
Qed.

(** The class [new_game] settles on is a key of [CLASS_STATS]. *)
Lemma new_game_class_known (class_answer : option string) :
  let class_choice :=
    match class_answer with
    | Some c =>
        if decide (c = "") then "warrior"
        else if decide (is_Some (CLASS_STATS !! lower c)) then c
        else "warrior"
    | None => "warrior"
    end in
  is_Some (CLASS_STATS !! lower class_choice) /\
  lower class_choice =
    match class_answer with
    | Some c =>
        if decide (is_Some (CLASS_STATS !! lower c)) then lower c
        else "warrior"
    | None => "warrior"
    end.
Proof.
  cbv zeta. destruct class_answer as [c |]; [| split; [eexists |]; reflexivity].
  destruct (decide (c = "")) as [-> | _].
  - split; [eexists; reflexivity |].
    destruct (decide (is_Some (CLASS_STATS !! lower ""))) as [[x Hx] | _];
      [discriminate | reflexivity].
  - destruct (decide (is_Some (CLASS_STATS !! lower c))) as [Hknown | _].
    + split; [exact Hknown | reflexivity].
    + split; [eexists |]; reflexivity.
Qed.

Lemma new_game_run (name_answer class_answer : option string) (w : World) :
  exists st p0 w0,
    CLASS_STATS !! player_class p0 = Some st /\
    p0 = mkPlayer
           (match name_answer with
            | Some n => if decide (n = "") then "idleHero" else n
            | None => "idleHero"
            end)
           (match class_answer with
            | Some c =>
                if decide (is_Some (CLASS_STATS !! lower c)) then lower c
                else "warrior"
            | None => "warrior"
            end)
           1 0 (cs_max_hp st) (cs_max_hp st) (cs_base_attack st) []
           "temple_of_stillness" default_tasks 0 /\
    player w0 = p0 /\ rooms w0 = rooms w /\
    auto_move_index w0 = auto_move_index w /\
    save_file w0 = save_file w /\ clock w0 = clock w /\
    rand_pos w0 = rand_pos w /\ rand_src w0 = rand_src w /\
    gui w0 = game_started_gui (gui w) /\
    output w0 = [MsgWelcome (name p0) (player_class p0); MsgNewWorld] /\
    new_game name_answer class_answer w = look_around w0.
Proof.
  destruct (new_game_class_known class_answer) as [[st Hst] Hclass].
  cbv zeta in Hst, Hclass.
  set (nm := match name_answer with
             | Some n => if decide (n = "") then "idleHero" else n
             | None => "idleHero"
             end).
  set (cls := match class_answer with
              | Some c =>
                  if decide (is_Some (CLASS_STATS !! lower c)) then lower c
                  else "warrior"
              | None => "warrior"
              end) in *.
  pose (p0 := mkPlayer nm cls 1 0 (cs_max_hp st) (cs_max_hp st)
                (cs_base_attack st) [] "temple_of_stillness" default_tasks 0).
  exists st, p0,
    (mkWorld p0 (rooms w) (auto_move_index w) (rand_src w) (rand_pos w)
             (clock w) [MsgWelcome nm cls; MsgNewWorld] (save_file w)
             (game_started_gui (gui w))).
  split; [change (CLASS_STATS !! cls = Some st); rewrite <- Hclass;
          exact Hst |].
  do 10 (split; [reflexivity |]).
  unfold new_game. cbv zeta. fold nm. rewrite Hst. mstep.
  unfold Player_init. rewrite (class_key_lower _ (ex_intro _ st Hst)).
  rewrite Hclass. reflexivity.
Qed.

Lemma sound_player_new (st : ClassStat) (nm cls : string) :
  CLASS_STATS !! cls = Some st ->
  sound_player (mkPlayer nm cls 1 0 (cs_max_hp st) (cs_max_hp st)
                         (cs_base_attack st) [] "temple_of_stillness"
                         default_tasks 0).
Proof.
  intros Hst. exists st. cbn.
  unfold HP_PER_LEVEL, ATTACK_PER_LEVEL.
  repeat split; try assumption; try lia; eexists; reflexivity.
Qed.

Lemma new_game_sound (name_answer class_answer : option string) (w : World) :
  sound_env w -> returns_sound (new_game name_answer class_answer) w.
Proof.
  intros (Hrs & Hidx & Hsave). unfold returns_sound.
  destruct (new_game_run name_answer class_answer w)
    as (st & p0 & w0 & Hst & Hp0 & Hplayer & Hrooms & Hindex & Hfile & _
        & _ & _ & _ & _ & ->).
  apply look_around_sound. unfold sound, sound_env.
  rewrite Hplayer, Hrooms, Hindex, Hfile.
  split; [| split; [exact Hrs | split; [exact Hidx | exact Hsave]]].
  rewrite Hp0. apply sound_player_new. rewrite Hp0 in Hst. exact Hst.
Qed.

Lemma load_game_none (w : World) :
  save_file w = None -> load_game w = (Return None, w).
Proof. intros H. unfold load_game, bind, get_save_file. rewrite H. reflexivity. Qed.

Lemma load_game_action_sound (w : World) :
  sound w -> returns_sound load_game_action w.
Proof.
  intros Hw. pose proof Hw as [Hp (Hrs & Hidx & Hsave)].
  unfold returns_sound, load_game_action. unfold bind.
  destruct (save_file w) as [data |] eqn:Hfile.
  - destruct Hsave as (p & -> & Hsaved).
    rewrite (load_game_of_save_data p w Hfile).
    fold (reloaded p). rewrite (sound_player_reloaded p Hsaved).
    mstep.
    match goal with
    | |- context [look_around ?w1] =>
        assert (Hw1 : sound w1);
        [| destruct (look_around_sound w1 Hw1) as [Hret Hsound];
           destruct (look_around w1) as [[[] | err] w2];
           cbn [fst snd] in *; [| discriminate] ]
    end.
    + split; [exact Hsaved |]. split; [exact Hrs |]. split; [exact Hidx |].
      mstep. rewrite Hfile. exists p. split; [reflexivity | exact Hsaved].
    + split; [reflexivity |]. sound_same Hsound.
  - rewrite (load_game_none w Hfile). mstep.
    split; [reflexivity |]. sound_same Hw.
Qed.

Lemma save_game_action_sound (w : World) :
  sound w -> returns_sound save_game_action w.
Proof.
  intros Hw. pose proof Hw as [Hp (Hrs & Hidx & _)].
  unfold returns_sound, save_game_action, save_game. mstep.
  split; [reflexivity |]. split; [exact Hp |]. split; [exact Hrs |].
  split; [exact Hidx |]. exists (player w). split; [reflexivity | exact Hp].
Qed.

Lemma show_tasks_sound (w : World) : sound w -> returns_sound show_tasks w.
Proof.
  intros Hw.
  pose proof Hw as [(st & _ & _ & _ & _ & _ & _ & [b1 H1] & [b2 H2]
                        & [b3 H3] & _) _].
  unfold returns_sound, show_tasks, task_flag. mstep.
  rewrite H1. mstep. rewrite H2. mstep. rewrite H3. mstep.
  split; [reflexivity |]. sound_same Hw.
Qed.

Lemma execute_sound (c : Command) (w : World) :
  sound w -> returns_sound (execute c) w.
Proof.
  intros Hw. destruct c; cbn [execute].
  - apply look_around_sound, Hw.
  - apply move_player_sound, Hw.
  - apply attack_enemy_sound, Hw.
  - apply heal_player_sound, Hw.
  - apply pickup_item_sound, Hw.
  - apply drop_item_sound, Hw.
  - apply use_item_sound, Hw.
  - apply use_class_skill_sound, Hw.
  - apply auto_move_and_attack_sound, Hw.
  - apply new_game_sound, Hw.
  - apply load_game_action_sound, Hw.
  - apply save_game_action_sound, Hw.
  - split; [reflexivity |]. sound_same Hw.
  - apply show_tasks_sound, Hw.
Qed.

Lemma sound_set_clock (w : World) (t : Z) : sound w -> sound (set_clock w t).
Proof. intros Hw. sound_same Hw. Qed.

Lemma run_steps_sound (steps : list (Z * Command)) (w : World) :
  sound w -> sound (run_steps steps w).
Proof.
  revert w. induction steps as [| [t c] steps IH]; intros w Hw; [exact Hw |].
  cbn [run_steps fold_left]. apply IH. unfold run_step. cbn [fst snd].
  apply execute_sound, sound_set_clock, Hw.
Qed.

Lemma sound_initial_world (src : nat -> Z) (now : Z) :
  sound (initial_world new_warrior src now).
Proof.
  split.
  - apply (sound_player_new (mkClassStat 120 8 "Power Strike")). reflexivity.
  - split; [exact initial_rooms_sound |]. split; [cbn; lia | exact I].
Qed.

(** ** Sessions *)

(** X10. Whatever the two dialogs return, [new_game] finds the class in
    [CLASS_STATS]: a class name is accepted in any letter case, and an
    unknown, empty or cancelled answer gives a warrior; an empty or
    cancelled name gives idleHero. On the map of the module the operation
    returns, with a level-1 player of that class at full health, without
    experience or items, with the three tasks open, in the temple; the
    state it leaves is sound. *)
Theorem new_game_starts (name_answer class_answer : option string)
    (w : World) :
  sound_env w ->
  let w' := snd (new_game name_answer class_answer w) in
  fst (new_game name_answer class_answer w) = Return tt /\
  sound w' /\
  exists st,
    CLASS_STATS !! player_class (player w') = Some st /\
    player w' =
      mkPlayer
        (match name_answer with
         | Some n => if decide (n = "") then "idleHero" else n
         | None => "idleHero"
         end)
        (match class_answer with
         | Some c =>
             if decide (is_Some (CLASS_STATS !! lower c)) then lower c
             else "warrior"
         | None => "warrior"
         end)
        1 0 (cs_max_hp st) (cs_max_hp st) (cs_base_attack st) []
        "temple_of_stillness" default_tasks 0.
Proof.
  intros Henv w'. subst w'.
  destruct (new_game_sound name_answer class_answer w Henv) as [Hret Hsound].
  split; [exact Hret |]. split; [exact Hsound |].
  destruct (new_game_run name_answer class_answer w)
    as (st & p0 & w0 & Hst & Hp0 & Hplayer & _ & _ & _ & _ & _ & _ & _ & _
        & ->).
  destruct (look_around_frame w0) as (Hsame & _).
  exists st. rewrite Hsame, Hplayer. split; [exact Hst | exact Hp0].
Qed.

Lemma new_game_starts_witness :
  let w := initial_world new_warrior (raw_numbers [4]) 20 in
  let w' := snd (new_game (Some "Ada") (Some "MAGE") w) in
  sound_env w /\
  fst (new_game (Some "Ada") (Some "MAGE") w) = Return tt /\
  name (player w') = "Ada" /\ player_class (player w') = "mage" /\
  max_hp (player w') = 80 /\ hp (player w') = 80 /\
  base_attack (player w') = 12.
Proof.
  intros w w'.
  assert (Henv : sound_env w).
  { split; [exact initial_rooms_sound |]. split; [cbn; lia | exact I]. }
  split; [exact Henv |].
  destruct (new_game_starts (Some "Ada") (Some "MAGE") w Henv)
    as (Hret & _ & st & Hst & Hplayer).
  split; [exact Hret |]. fold w' in Hst, Hplayer.
  rewrite Hplayer in Hst. cbn in Hst. injection Hst as <-.
  rewrite Hplayer. repeat split.
Defined.

(** X11. From a sound state no callback raises: after any sequence of
    commands, button presses and ticks, at any times, the next one returns
    normally. No room or task lookup fails, no random range is empty and no
    dead enemy is dereferenced. *)
Theorem session_never_raises (w : World) (steps : list (Z * Command))
    (t : Z) (c : Command) :
  sound w ->
  fst (execute c (set_clock (run_steps steps w) t)) = Return tt.
Proof.
  intros Hw.
  apply (execute_sound c), sound_set_clock, run_steps_sound, Hw.
Qed.

Lemma session_never_raises_witness :
  let w := initial_world new_warrior (raw_numbers [4; 1; 3]) 20 in
  sound w /\
  fst (execute CmdSkill
         (set_clock (run_steps [(21, CmdTick); (22, CmdAttack)] w) 23))
  = Return tt.
Proof.
  intros w.
  assert (Hw : sound w) by apply sound_initial_world.
  split; [exact Hw |].
  apply (session_never_raises w [(21, CmdTick); (22, CmdAttack)] 23 CmdSkill Hw).
Defined.

(** X12. Along every run from a sound state the player's statistics are
    those of the class at the player's level: the maximum hit points are
    the class value plus 10 per level gained and the base attack the class
    value plus 2 per level gained; the level is at least 1, the experience
    is non-negative and below the threshold of the level, and the hit
    points never exceed the maximum. *)
Theorem session_player_statistics (w : World) (steps : list (Z * Command)) :
  sound w ->
  let p := player (run_steps steps w) in
  exists st,
    CLASS_STATS !! player_class p = Some st /\
    1 <= level p /\
    0 <= exp p < level p * 100 /\
    max_hp p = cs_max_hp st + 10 * (level p - 1) /\
    base_attack p = cs_base_attack st + 2 * (level p - 1) /\
    hp p <= max_hp p.
Proof.
  intros Hw p.
  destruct (run_steps_sound steps w Hw)
    as [(st & Hc & Hl & He & Hm & Ha & Hh & _) _].
  exists st. subst p. unfold HP_PER_LEVEL, ATTACK_PER_LEVEL in *.
  split; [exact Hc |]. split; [exact Hl |]. split; [exact He |].
  split; [exact Hm |]. split; [exact Ha | exact Hh].
Qed.

Lemma session_player_statistics_witness :
  let w := initial_world new_warrior (raw_numbers [4; 1; 3]) 20 in
  let p := player (run_steps [(21, CmdTick); (22, CmdAttack)] w) in
  sound w /\ hp p <= max_hp p /\ 0 <= exp p < level p * 100.
Proof.
  intros w p.
  assert (Hw : sound w) by apply sound_initial_world.
  split; [exact Hw |].
  destruct (session_player_statistics w [(21, CmdTick); (22, CmdAttack)] Hw)
    as (st & _ & _ & He & _ & _ & Hh).
  split; [exact Hh | exact He].
Defined.

(** X13. No run changes the map: every room keeps the name, the
    description and the exits the module gave it, no room is added or
    removed, every exit of every room leads to a room, and the player
    stands in a room. *)
Theorem session_map_fixed (w : World) (steps : list (Z * Command))
    (key : string) :
  sound w ->
  let w' := run_steps steps w in
  room_plan <$> rooms w' !! key = room_plan <$> initial_rooms !! key /\
  (forall room direction dest,
     rooms w' !! key = Some room ->
     exit_not_none room direction = Some dest ->
     is_Some (rooms w' !! dest)) /\
  is_Some (rooms w' !! location (player w')).
Proof.
  intros Hw w'. pose proof (run_steps_sound steps w Hw) as Hw'.
  fold w' in Hw'. pose proof Hw' as [_ (Hrs & _)].
  split; [apply sound_rooms_plan, Hrs |].
  split; [| apply sound_room, Hw'].
  intros room direction dest Hroom Hexit.
  apply (sound_rooms_known _ _ Hrs).
  apply (sound_rooms_exit _ _ _ _ _ Hrs Hroom Hexit).
Qed.

Lemma session_map_fixed_witness :
  let w := initial_world new_warrior (raw_numbers [4; 1; 3]) 20 in
  let w' := run_steps [(21, CmdTick); (22, CmdPickup "pair_of_red_fur_claws")]
                      w in
  sound w /\
  room_plan <$> rooms w' !! "outer_courtyard"
  = room_plan <$> initial_rooms !! "outer_courtyard".
Proof.
  intros w w'.
  assert (Hw : sound w) by apply sound_initial_world.
  split; [exact Hw |].
  apply (session_map_fixed w
           [(21, CmdTick); (22, CmdPickup "pair_of_red_fur_claws")]
           "outer_courtyard" Hw).
Defined.

(** X14. Along every run from a sound state, an enemy that a room
    references is alive: it was made from a template of the pool, keeps the
    name, the attack power and the reward of the template, and has between
    1 hit point and those of the template. A defeated enemy is never left
    in a room, so the [is_alive] tests of the operations never fail on a
    referenced enemy. *)
Theorem session_enemies_alive (w : World) (steps : list (Z * Command))
    (key : string) (room : Room) (e : Enemy) :
  sound w ->
  rooms (run_steps steps w) !! key = Some room ->
  enemy room = Some e ->
  live_enemy room = Some e /\
  exists chosen,
    chosen ∈ ENEMY_POOL /\
    e_name e = t_name chosen /\
    attack_power e = t_attack_power chosen /\
    exp_reward e = t_exp chosen /\
    0 < e_hp e <= t_hp chosen.
Proof.
  intros Hw Hroom He.
  destruct (run_steps_sound steps w Hw) as [_ (Hrs & _)].
  rewrite (sound_rooms_live _ _ _ Hrs Hroom). split; [exact He |].
  destruct Hrs as [_ Henemies].
  destruct (Henemies key room e Hroom He)
    as (chosen & Hin & Hn & Hp & Hx & _ & Hhp).
  exists chosen. repeat split; try assumption; lia.
Qed.

Lemma session_enemies_alive_witness :
  let w := initial_world new_warrior (raw_numbers [4; 1; 3]) 20 in
  let w' := run_steps [(21, CmdLook); (22, CmdAttack)] w in
  sound w /\
  exists room e,
    rooms w' !! "temple_of_stillness" = Some room /\
    enemy room = Some e /\ live_enemy room = Some e /\ 0 < e_hp e.
Proof.
  intros w w'.
  assert (Hw : sound w) by apply sound_initial_world.
  split; [exact Hw |].
  pose (room := default (Room_init "" "" [] [])
                        (rooms w' !! "temple_of_stillness")).
  pose (e := default (Enemy_init "" 0 0 0) (enemy room)).
  assert (Hroom : rooms w' !! "temple_of_stillness" = Some room)
    by (vm_compute; reflexivity).
  assert (He : enemy room = Some e) by (vm_compute; reflexivity).
  exists room, e. split; [exact Hroom |]. split; [exact He |].
  destruct (session_enemies_alive w [(21, CmdLook); (22, CmdAttack)]
              "temple_of_stillness" room e Hw Hroom He)
    as (Hlive & chosen & _ & _ & _ & _ & Hhp).
  split; [exact Hlive | lia].
Defined.

(** * The focus timer *)

(** ** The game operations of a tick leave the widgets alone *)

Lemma gui_kept_bind {A B : Type} (m : M A) (f : A -> M B) :
  gui_kept m -> (forall a, gui_kept (f a)) -> gui_kept (bind m f).
Proof.
  intros Hm Hf w. unfold bind. specialize (Hm w).
  destruct (m w) as [[a | err] w1]; cbn [snd] in *.
  - rewrite Hf. exact Hm.
  - exact Hm.
Qed.

Lemma gui_kept_ret {A : Type} (a : A) : gui_kept (ret a).
Proof. intros w. reflexivity. Qed.

Lemma gui_kept_raise {A : Type} (e : exn) : gui_kept (@raise A e).
Proof. intros w. reflexivity. Qed.

Lemma gui_kept_get_player : gui_kept get_player.
Proof. intros w. reflexivity. Qed.

Lemma gui_kept_put_player (p : Player) : gui_kept (put_player p).
Proof. intros w. reflexivity. Qed.

Lemma gui_kept_lookup_room (key : string) : gui_kept (lookup_room key).
Proof. intros w. unfold lookup_room. destruct (rooms w !! key); reflexivity. Qed.

Lemma gui_kept_modify_room (key : string) (f : Room -> Room) :
  gui_kept (modify_room key f).
Proof. intros w. reflexivity. Qed.

Lemma gui_kept_write_line (m : Msg) : gui_kept (write_line m).
Proof. intros w. reflexivity. Qed.

Lemma gui_kept_write_lines (ms : list Msg) : gui_kept (write_lines ms).
Proof. intros w. rewrite write_lines_run. reflexivity. Qed.

Lemma gui_kept_time_time : gui_kept time_time.
Proof. intros w. reflexivity. Qed.

Lemma gui_kept_randint (a b : Z) : gui_kept (randint a b).
Proof.
  intros w. unfold randint. destruct (decide (a <= b)); reflexivity.
Qed.

Lemma gui_kept_choice {A : Type} (seq : list A) : gui_kept (choice seq).
Proof.
  intros w. unfold choice. destruct seq as [| x seq]; [reflexivity |].
  unfold bind, random_raw. destruct (_ !! _); reflexivity.
Qed.

Lemma gui_kept_get_auto_move_index : gui_kept get_auto_move_index.
Proof. intros w. reflexivity. Qed.

Lemma gui_kept_put_auto_move_index (i : nat) :
  gui_kept (put_auto_move_index i).
Proof. intros w. reflexivity. Qed.

Create HintDb gui_kept.
#[local] Hint Resolve gui_kept_ret gui_kept_raise gui_kept_get_player
  gui_kept_put_player gui_kept_lookup_room gui_kept_modify_room
  gui_kept_write_line gui_kept_write_lines gui_kept_time_time
  gui_kept_randint gui_kept_choice gui_kept_get_auto_move_index
  gui_kept_put_auto_move_index : gui_kept.

Ltac gui_kept_step :=
  first
    [ solve [auto with gui_kept]
    | apply gui_kept_bind; [| intros ?]
    | match goal with
      | |- gui_kept (match ?x with _ => _ end) => destruct x
      end ].

Ltac gui_kept_tac := repeat gui_kept_step.

Lemma gui_kept_spawn_enemy (key : string) : gui_kept (spawn_enemy key).
Proof. unfold spawn_enemy. gui_kept_tac. Qed.

Lemma gui_kept_handle_mob_death (key : string) :
  gui_kept (handle_mob_death key).
Proof. unfold handle_mob_death. gui_kept_tac. Qed.

#[local] Hint Resolve gui_kept_spawn_enemy gui_kept_handle_mob_death
  : gui_kept.

Lemma gui_kept_look_around : gui_kept look_around.
Proof. unfold look_around, maybe_respawn_mob. gui_kept_tac. Qed.

#[local] Hint Resolve gui_kept_look_around : gui_kept.

Lemma gui_kept_move_player (direction : string) :
  gui_kept (move_player direction).
Proof. unfold move_player. gui_kept_tac. Qed.

Lemma gui_kept_heal_player : gui_kept heal_player.
Proof. unfold heal_player. gui_kept_tac. Qed.

#[local] Hint Resolve gui_kept_move_player gui_kept_heal_player : gui_kept.

Lemma gui_kept_attack_enemy : gui_kept attack_enemy.
Proof. unfold attack_enemy. gui_kept_tac. Qed.

#[local] Hint Resolve gui_kept_attack_enemy : gui_kept.

Lemma gui_kept_auto_attack_if_enemy : gui_kept auto_attack_if_enemy.
Proof. unfold auto_attack_if_enemy. gui_kept_tac. Qed.

#[local] Hint Resolve gui_kept_auto_attack_if_enemy : gui_kept.

Lemma gui_kept_probe_directions (n : nat) (room : Room) :
  gui_kept (probe_directions n room).
Proof.
  induction n as [| n IH]; cbn [probe_directions]; gui_kept_tac.
Qed.

#[local] Hint Resolve gui_kept_probe_directions : gui_kept.

(** The automation of a tick changes no widget and no timer flag. *)
Lemma gui_kept_auto_move_and_attack : gui_kept auto_move_and_attack.
Proof. unfold auto_move_and_attack. gui_kept_tac. Qed.

(** ** The branches of the timer callbacks *)

Arguments tret {A} a s /.
Arguments get_seconds_left s /.
Arguments put_seconds_left v s /.
Arguments get_in_pause s /.
Arguments put_in_pause v s /.
Arguments get_temp_seconds_left s /.
Arguments put_temp_seconds_left v s /.
Arguments timer_line m s /.
Arguments showinfo m s /.
Arguments after_tick s /.

Ltac tstep :=
  unfold tbind, put_pomodoro_running, put_pomodoro_in_break,
         update_pomodoro_label, in_game, tbind;
  cbn [tret get_seconds_left put_seconds_left get_in_pause put_in_pause
       get_temp_seconds_left put_temp_seconds_left timer_line showinfo
       after_tick get_gui put_gui get_player put_player
       set_world set_pomodoro_seconds_left set_in_pause
       set_temp_pomodoro_seconds_left set_pomo_label set_scheduled_ticks
       set_timer_lines set_dialogs
       world pomodoro_seconds_left in_pause temp_pomodoro_seconds_left
       pomo_label scheduled_ticks timer_lines dialogs
       set_player set_gui set_clock player rooms auto_move_index rand_src
       rand_pos clock output save_file gui
       set_pomodoro_running set_pomodoro_in_break
       btn_save command_entry btn_pomo_start btn_pomo_pause btn_pomo_stop
       pomodoro_running pomodoro_in_break
       fst snd negb andb orb].

Lemma session_ext (s1 s2 : Session) :
  world s1 = world s2 ->
  pomodoro_seconds_left s1 = pomodoro_seconds_left s2 ->
  in_pause s1 = in_pause s2 ->
  temp_pomodoro_seconds_left s1 = temp_pomodoro_seconds_left s2 ->
  pomo_label s1 = pomo_label s2 ->
  scheduled_ticks s1 = scheduled_ticks s2 ->
  timer_lines s1 = timer_lines s2 ->
  dialogs s1 = dialogs s2 ->
  s1 = s2.
Proof. destruct s1, s2; cbn. intros; subst; reflexivity. Qed.

Lemma set_world_same (s : Session) : set_world s (world s) = s.
Proof. destruct s; reflexivity. Qed.

Lemma set_gui_same (w : World) : set_gui w (gui w) = w.
Proof. destruct w; reflexivity. Qed.

Lemma tick_pomodoro_idle (s : Session) :
  pomodoro_running (gui (world s)) = false ->
  tick_pomodoro s = (Return tt, s).
Proof.
  intros Hrun. unfold tick_pomodoro. tstep. rewrite Hrun. tstep.
  rewrite set_world_same. reflexivity.
Qed.

Lemma tick_pomodoro_focus (s : Session) :
  pomodoro_running (gui (world s)) = true ->
  pomodoro_in_break (gui (world s)) = false ->
  0 < pomodoro_seconds_left s ->
  let left := pomodoro_seconds_left s - 1 in
  let s1 := set_pomo_label (set_pomodoro_seconds_left s left)
                           (running_label false left) in
  tick_pomodoro s =
    match auto_move_and_attack (world s) with
    | (Return _, w') =>
        (Return tt, set_scheduled_ticks (set_world s1 w')
                                        (S (scheduled_ticks s)))
    | (Raise e, w') => (Raise e, set_world s1 w')
    end.
Proof.
  intros Hrun Hbreak Hleft left s1. subst s1 left.
  unfold tick_pomodoro. tstep. rewrite Hrun. tstep.
  destruct (decide (0 < pomodoro_seconds_left s)) as [_ | Hn]; [| lia].
  tstep. rewrite Hrun, Hbreak. tstep.
  destruct (auto_move_and_attack (world s)) as [[[] | err] w']; reflexivity.
Qed.

Lemma tick_pomodoro_break (s : Session) :
  pomodoro_running (gui (world s)) = true ->
  pomodoro_in_break (gui (world s)) = true ->
  0 < pomodoro_seconds_left s ->
  let left := pomodoro_seconds_left s - 1 in
  tick_pomodoro s =
    (Return tt,
     set_scheduled_ticks
       (set_pomo_label (set_pomodoro_seconds_left s left)
                       (running_label true left))
       (S (scheduled_ticks s))).
Proof.
  intros Hrun Hbreak Hleft left. subst left.
  unfold tick_pomodoro. tstep. rewrite Hrun. tstep.
  destruct (decide (0 < pomodoro_seconds_left s)) as [_ | Hn]; [| lia].
  tstep. rewrite Hrun, Hbreak. tstep.
  apply (f_equal (pair _)). apply session_ext; reflexivity.
Qed.

Lemma tick_pomodoro_focus_complete (s : Session) :
  pomodoro_running (gui (world s)) = true ->
  pomodoro_in_break (gui (world s)) = false ->
  pomodoro_seconds_left s <= 0 ->
  let w := world s in
  let streak := pomodoro_streak (player w) + 1 in
  tick_pomodoro s =
    (Return tt,
     mkSession
       (set_gui (set_player w (set_pomodoro_streak (player w) streak))
                (set_pomodoro_in_break (gui w) true))
       POMODORO_BREAK_TIME (in_pause s) (temp_pomodoro_seconds_left s)
       (running_label true POMODORO_BREAK_TIME)
       (S (scheduled_ticks s))
       (timer_lines s ++ [(length (output w), MsgFocusComplete streak)])
       (dialogs s ++ [MsgFocusComplete streak])).
Proof.
  intros Hrun Hbreak Hleft w streak. subst w streak.
  unfold tick_pomodoro. tstep. rewrite Hrun. tstep.
  destruct (decide (0 < pomodoro_seconds_left s)) as [Hn | _]; [lia |].
  rewrite Hbreak. tstep. rewrite Hrun. tstep. reflexivity.
Qed.

Lemma tick_pomodoro_break_over (s : Session) :
  pomodoro_running (gui (world s)) = true ->
  pomodoro_in_break (gui (world s)) = true ->
  pomodoro_seconds_left s <= 0 ->
  let w := world s in
  tick_pomodoro s =
    (Return tt,
     mkSession
       (set_gui w (set_pomodoro_in_break (gui w) false))
       POMODORO_FOCUS_TIME (in_pause s) (temp_pomodoro_seconds_left s)
       (running_label false POMODORO_FOCUS_TIME)
       (S (scheduled_ticks s))
       (timer_lines s ++ [(length (output w), MsgBreakOver)])
       (dialogs s)).
Proof.
  intros Hrun Hbreak Hleft w. subst w.
  unfold tick_pomodoro. tstep. rewrite Hrun. tstep.
  destruct (decide (0 < pomodoro_seconds_left s)) as [Hn | _]; [lia |].
  rewrite Hbreak. tstep. rewrite Hrun. tstep. reflexivity.
Qed.

Lemma start_pomodoro_running (s : Session) :
  pomodoro_running (gui (world s)) = true ->
  start_pomodoro s = (Return tt, told s MsgAlreadyRunning).
Proof.
  intros Hrun. unfold start_pomodoro. tstep. rewrite Hrun. tstep.
  apply (f_equal (pair _)). apply session_ext; reflexivity.
Qed.

Lemma start_pomodoro_run (s : Session) :
  pomodoro_running (gui (world s)) = false ->
  start_pomodoro s = tick_pomodoro (started s).
Proof.
  intros Hrun. unfold start_pomodoro. tstep. rewrite Hrun. tstep.
  unfold started. destruct (in_pause s) eqn:Hpause; tstep;
    f_equal; apply session_ext; tstep; rewrite ?Hpause; reflexivity.
Qed.

Lemma pause_pomodoro_idle (s : Session) :
  pomodoro_running (gui (world s)) = false ->
  pause_pomodoro s = (Return tt, told s MsgNoSession).
Proof.
  intros Hrun. unfold pause_pomodoro. tstep. rewrite Hrun. tstep.
  apply (f_equal (pair _)). apply session_ext; reflexivity.
Qed.

Lemma pause_pomodoro_run (s : Session) :
  pomodoro_running (gui (world s)) = true ->
  pause_pomodoro s = (Return tt, paused s).
Proof.
  intros Hrun. unfold pause_pomodoro. tstep. rewrite Hrun. tstep.
  apply (f_equal (pair _)). apply session_ext; reflexivity.
Qed.

Lemma stop_pomodoro_idle (s : Session) :
  pomodoro_running (gui (world s)) = false ->
  stop_pomodoro s = (Return tt, told s MsgNoSession).
Proof.
  intros Hrun. unfold stop_pomodoro. tstep. rewrite Hrun. tstep.
  apply (f_equal (pair _)). apply session_ext; reflexivity.
Qed.

Lemma stop_pomodoro_run (s : Session) :
  pomodoro_running (gui (world s)) = true ->
  stop_pomodoro s = (Return tt, stopped s).
Proof.
  intros Hrun. unfold stop_pomodoro. tstep. rewrite Hrun. tstep.
  unfold stopped. apply (f_equal (pair _)).
  apply session_ext; tstep; try reflexivity.
  destruct (in_pause s); reflexivity.
Qed.

(** ** Only the timer changes the streak *)

Lemma keeps_streak_bind (n : Z) {A B : Type} (m : M A) (f : A -> M B) :
  keeps_streak n m -> (forall a, keeps_streak n (f a)) ->
  keeps_streak n (bind m f).
Proof.
  intros Hm Hf w Hw. unfold bind. specialize (Hm w Hw).
  destruct (m w) as [[a | err] w1]; cbn [snd] in *.
  - apply Hf, Hm.
  - exact Hm.
Qed.

Lemma keeps_streak_get (n : Z) {B : Type} (f : Player -> M B) :
  (forall p, pomodoro_streak p = n -> keeps_streak n (f p)) ->
  keeps_streak n (bind get_player f).
Proof. intros Hf w Hw. unfold bind, get_player. apply Hf; exact Hw. Qed.

Lemma keeps_streak_put (n : Z) (p : Player) :
  pomodoro_streak p = n -> keeps_streak n (put_player p).
Proof. intros Hp w _. exact Hp. Qed.

Lemma keeps_streak_player (n : Z) {A : Type} (m : M A) :
  (forall w, player (snd (m w)) = player w) -> keeps_streak n m.
Proof. intros Hm w Hw. rewrite Hm. exact Hw. Qed.

Lemma keeps_streak_ret (n : Z) {A : Type} (a : A) : keeps_streak n (ret a).
Proof. apply keeps_streak_player. reflexivity. Qed.

Lemma keeps_streak_raise (n : Z) {A : Type} (e : exn) :
  keeps_streak n (@raise A e).
Proof. apply keeps_streak_player. reflexivity. Qed.

Lemma keeps_streak_lookup_room (n : Z) (key : string) :
  keeps_streak n (lookup_room key).
Proof.
  apply keeps_streak_player. intros w. unfold lookup_room.
  destruct (rooms w !! key); reflexivity.
Qed.

Lemma keeps_streak_modify_room (n : Z) (key : string) (f : Room -> Room) :
  keeps_streak n (modify_room key f).
Proof. apply keeps_streak_player. reflexivity. Qed.

Lemma keeps_streak_write_line (n : Z) (m : Msg) :
  keeps_streak n (write_line m).
Proof. apply keeps_streak_player. reflexivity. Qed.

Lemma keeps_streak_write_lines (n : Z) (ms : list Msg) :
  keeps_streak n (write_lines ms).
Proof.
  apply keeps_streak_player. intros w. rewrite write_lines_run. reflexivity.
Qed.

Lemma keeps_streak_time_time (n : Z) : keeps_streak n time_time.
Proof. apply keeps_streak_player. reflexivity. Qed.

Lemma keeps_streak_randint (n a b : Z) : keeps_streak n (randint a b).
Proof.
  apply keeps_streak_player. intros w. unfold randint.
  destruct (decide (a <= b)); reflexivity.
Qed.

Lemma keeps_streak_choice (n : Z) {A : Type} (seq : list A) :
  keeps_streak n (choice seq).
Proof.
  apply keeps_streak_player. intros w. unfold choice.
  destruct seq as [| x seq]; [reflexivity |].
  unfold bind, random_raw. destruct (_ !! _); reflexivity.
Qed.

Lemma keeps_streak_get_auto_move_index (n : Z) :
  keeps_streak n get_auto_move_index.
Proof. apply keeps_streak_player. reflexivity. Qed.

Lemma keeps_streak_put_auto_move_index (n : Z) (i : nat) :
  keeps_streak n (put_auto_move_index i).
Proof. apply keeps_streak_player. reflexivity. Qed.

Lemma keeps_streak_get_gui (n : Z) : keeps_streak n get_gui.
Proof. apply keeps_streak_player. reflexivity. Qed.

Lemma keeps_streak_put_gui (n : Z) (g : Gui) : keeps_streak n (put_gui g).
Proof. apply keeps_streak_player. reflexivity. Qed.

Lemma keeps_streak_put_save_file (n : Z) (f : option json) :
  keeps_streak n (put_save_file f).
Proof. apply keeps_streak_player. reflexivity. Qed.

Create HintDb keeps_streak.
#[local] Hint Resolve keeps_streak_ret keeps_streak_raise
  keeps_streak_lookup_room keeps_streak_modify_room keeps_streak_write_line
  keeps_streak_write_lines keeps_streak_time_time keeps_streak_randint
  keeps_streak_choice keeps_streak_get_auto_move_index
  keeps_streak_put_auto_move_index keeps_streak_get_gui keeps_streak_put_gui
  keeps_streak_put_save_file : keeps_streak.

Ltac keeps_streak_step :=
  first
    [ solve [auto with keeps_streak]
    | apply keeps_streak_get; intros ? ?
    | apply keeps_streak_bind; [| intros ?]
    | apply keeps_streak_put;
      solve [ assumption
            | cbn; assumption
            | rewrite (proj2 (proj2 (proj2 (proj2 (proj2
                 (add_experience_frame _ _)))))); assumption ]
    | match goal with
      | |- keeps_streak _ (match ?x with _ => _ end) => destruct x
      end ].

Ltac keeps_streak_tac := repeat keeps_streak_step.

Lemma keeps_streak_spawn_enemy (n : Z) (key : string) :
  keeps_streak n (spawn_enemy key).
Proof. unfold spawn_enemy. keeps_streak_tac. Qed.

Lemma keeps_streak_handle_mob_death (n : Z) (key : string) :
  keeps_streak n (handle_mob_death key).
Proof. unfold handle_mob_death. keeps_streak_tac. Qed.

#[local] Hint Resolve keeps_streak_spawn_enemy keeps_streak_handle_mob_death
  : keeps_streak.

Lemma keeps_streak_look_around (n : Z) : keeps_streak n look_around.
Proof. unfold look_around, maybe_respawn_mob. keeps_streak_tac. Qed.

#[local] Hint Resolve keeps_streak_look_around : keeps_streak.

Lemma keeps_streak_move_player (n : Z) (direction : string) :
  keeps_streak n (move_player direction).
Proof. unfold move_player. keeps_streak_tac. Qed.

Lemma keeps_streak_heal_player (n : Z) : keeps_streak n heal_player.
Proof. unfold heal_player. keeps_streak_tac. Qed.

#[local] Hint Resolve keeps_streak_move_player keeps_streak_heal_player
  : keeps_streak.

Lemma keeps_streak_attack_enemy (n : Z) : keeps_streak n attack_enemy.
Proof. unfold attack_enemy. keeps_streak_tac. Qed.

Lemma keeps_streak_get_class_skill_name (n : Z) :
  keeps_streak n get_class_skill_name.
Proof. unfold get_class_skill_name. keeps_streak_tac. Qed.

#[local] Hint Resolve keeps_streak_attack_enemy
  keeps_streak_get_class_skill_name : keeps_streak.

Lemma keeps_streak_use_class_skill (n : Z) : keeps_streak n use_class_skill.
Proof. unfold use_class_skill. keeps_streak_tac. Qed.

Lemma keeps_streak_pickup_item (n : Z) (item_name : string) :
  keeps_streak n (pickup_item item_name).
Proof. unfold pickup_item. keeps_streak_tac. Qed.

Lemma keeps_streak_drop_item (n : Z) (item_name : string) :
  keeps_streak n (drop_item item_name).
Proof. unfold drop_item. keeps_streak_tac. Qed.

Lemma keeps_streak_use_item (n : Z) (item_name : string) :
  keeps_streak n (use_item item_name).
Proof. unfold use_item. keeps_streak_tac. Qed.

Lemma keeps_streak_auto_attack_if_enemy (n : Z) :
  keeps_streak n auto_attack_if_enemy.
Proof. unfold auto_attack_if_enemy. keeps_streak_tac. Qed.

#[local] Hint Resolve keeps_streak_auto_attack_if_enemy : keeps_streak.

Lemma keeps_streak_probe_directions (n : Z) (k : nat) (room : Room) :
  keeps_streak n (probe_directions k room).
Proof.
  induction k as [| k IH]; cbn [probe_directions]; keeps_streak_tac.
Qed.

#[local] Hint Resolve keeps_streak_probe_directions : keeps_streak.

Lemma keeps_streak_auto_move_and_attack (n : Z) :
  keeps_streak n auto_move_and_attack.
Proof. unfold auto_move_and_attack. keeps_streak_tac. Qed.

Lemma keeps_streak_show_tasks (n : Z) : keeps_streak n show_tasks.
Proof.
  apply keeps_streak_player. intros w. unfold show_tasks, task_flag. mstep.
  repeat (destruct (tasks (player w) !! _); [mstep | reflexivity]).
  reflexivity.
Qed.

Lemma keeps_streak_execute (n : Z) (c : Command) :
  replaces_player c = false -> keeps_streak n (execute c).
Proof.
  destruct c; cbn [replaces_player execute]; intros Hc; try discriminate.
  - apply keeps_streak_look_around.
  - apply keeps_streak_move_player.
  - apply keeps_streak_attack_enemy.
  - apply keeps_streak_heal_player.
  - apply keeps_streak_pickup_item.
  - apply keeps_streak_drop_item.
  - apply keeps_streak_use_item.
  - apply keeps_streak_use_class_skill.
  - apply keeps_streak_auto_move_and_attack.
  - unfold save_game_action, save_game. keeps_streak_tac.
  - unfold show_stats. keeps_streak_tac.
  - apply keeps_streak_show_tasks.
Qed.

(** ** Firings *)

Lemma set_clock_same (w : World) : set_clock w (clock w) = w.
Proof. destruct w; reflexivity. Qed.

Lemma fire_run (t : Z) (s : Session) (n : nat) :
  scheduled_ticks s = S n ->
  fire t s
  = tick_pomodoro
      (set_world (set_scheduled_ticks s n) (set_clock (world s) t)).
Proof. intros H. unfold fire. rewrite H. reflexivity. Qed.

Lemma fires_cons (t : Z) (ts : list Z) (s : Session) :
  fires (t :: ts) s = fires ts (snd (fire t s)).
Proof. reflexivity. Qed.

Lemma fires_app (ts1 ts2 : list Z) (s : Session) :
  fires (ts1 ++ ts2) s = fires ts2 (fires ts1 s).
Proof. unfold fires. apply fold_left_app. Qed.

(** One tick of the automation from a sound state, as a step of a run. *)
Lemma automation_step (w : World) (t : Z) :
  sound w ->
  auto_move_and_attack (set_clock w t) = (Return tt, run_step w (t, CmdTick)).
Proof.
  intros Hw. unfold run_step. cbn [fst snd execute].
  destruct (auto_move_and_attack_sound (set_clock w t)
              (sound_set_clock w t Hw)) as [Hret _].
  destruct (auto_move_and_attack (set_clock w t)) as [[[] | err] w'];
    [reflexivity | discriminate].
Qed.

Lemma run_step_tick_gui (w : World) (t : Z) :
  gui (run_step w (t, CmdTick)) = gui w.
Proof.
  unfold run_step. cbn [fst snd execute].
  rewrite gui_kept_auto_move_and_attack. reflexivity.
Qed.

Lemma run_step_sound (w : World) (s : Z * Command) :
  sound w -> sound (run_step w s).
Proof. intros Hw. apply (run_steps_sound [s] w Hw). Qed.

Lemma fire_in_focus (t : Z) (s : Session) (n : nat) :
  sound (world s) ->
  pomodoro_running (gui (world s)) = true ->
  pomodoro_in_break (gui (world s)) = false ->
  scheduled_ticks s = S n ->
  0 < pomodoro_seconds_left s ->
  fire t s =
    (Return tt,
     mkSession (run_step (world s) (t, CmdTick))
               (pomodoro_seconds_left s - 1) (in_pause s)
               (temp_pomodoro_seconds_left s)
               (running_label false (pomodoro_seconds_left s - 1))
               (S n) (timer_lines s) (dialogs s)).
Proof.
  intros Hw Hrun Hbreak Hsched Hleft.
  rewrite (fire_run t s n Hsched).
  rewrite tick_pomodoro_focus by assumption.
  cbv zeta. tstep. rewrite (automation_step (world s) t Hw). reflexivity.
Qed.

Lemma fire_in_break (t : Z) (s : Session) (n : nat) :
  pomodoro_running (gui (world s)) = true ->
  pomodoro_in_break (gui (world s)) = true ->
  scheduled_ticks s = S n ->
  0 < pomodoro_seconds_left s ->
  fire t s =
    (Return tt,
     mkSession (set_clock (world s) t)
               (pomodoro_seconds_left s - 1) (in_pause s)
               (temp_pomodoro_seconds_left s)
               (running_label true (pomodoro_seconds_left s - 1))
               (S n) (timer_lines s) (dialogs s)).
Proof.
  intros Hrun Hbreak Hsched Hleft.
  rewrite (fire_run t s n Hsched).
  rewrite tick_pomodoro_break by assumption.
  reflexivity.
Qed.

Lemma fire_idle (t : Z) (s : Session) :
  pomodoro_running (gui (world s)) = false ->
  fire t s =
    (Return tt,
     match scheduled_ticks s with
     | O => s
     | S n => set_world (set_scheduled_ticks s n) (set_clock (world s) t)
     end).
Proof.
  intros Hrun. unfold fire. destruct (scheduled_ticks s) as [| n];
    [reflexivity |].
  apply tick_pomodoro_idle. exact Hrun.
Qed.

Lemma fires_in_focus (ts : list Z) :
  forall s,
  sound (world s) ->
  pomodoro_running (gui (world s)) = true ->
  pomodoro_in_break (gui (world s)) = false ->
  (1 <= scheduled_ticks s)%nat ->
  Z.of_nat (length ts) <= pomodoro_seconds_left s ->
  let s' := fires ts s in
  world s' = run_steps (tick_steps ts) (world s) /\
  pomodoro_seconds_left s' = pomodoro_seconds_left s - Z.of_nat (length ts) /\
  scheduled_ticks s' = scheduled_ticks s /\
  in_pause s' = in_pause s /\
  temp_pomodoro_seconds_left s' = temp_pomodoro_seconds_left s /\
  timer_lines s' = timer_lines s /\
  dialogs s' = dialogs s /\
  pomo_label s' =
    match ts with
    | [] => pomo_label s
    | _ => running_label false (pomodoro_seconds_left s')
    end.
Proof.
  induction ts as [| t ts IH]; intros s Hw Hrun Hbreak Hsched Hleft.
  - cbn. repeat split; lia.
  - destruct (scheduled_ticks s) as [| n] eqn:Hn; [lia |].
    cbn [length] in Hleft.
    rewrite fires_cons.
    change (run_steps (tick_steps (t :: ts)) (world s))
      with (run_steps (tick_steps ts) (run_step (world s) (t, CmdTick))).
    rewrite (fire_in_focus t s n Hw Hrun Hbreak Hn) by lia. cbn [snd].
    match goal with
    | |- context [fires ts ?s1] =>
        destruct (IH s1) as (H1 & H2 & H3 & H4 & H5 & H6 & H7 & H8)
    end.
    + apply run_step_sound, Hw.
    + cbn [world]. rewrite run_step_tick_gui. exact Hrun.
    + cbn [world]. rewrite run_step_tick_gui. exact Hbreak.
    + cbn. lia.
    + cbn [pomodoro_seconds_left]. lia.
    + cbv zeta in *.
      cbn [world pomodoro_seconds_left scheduled_ticks in_pause
           temp_pomodoro_seconds_left timer_lines dialogs pomo_label
           length] in *.
      split; [exact H1 |]. split; [lia |]. split; [exact H3 |].
      split; [exact H4 |]. split; [exact H5 |]. split; [exact H6 |].
      split; [exact H7 |].
      destruct ts as [| t' ts']; [| exact H8].
      rewrite H8. cbn. f_equal.
Qed.

Lemma fires_in_break (ts : list Z) :
  forall s,
  pomodoro_running (gui (world s)) = true ->
  pomodoro_in_break (gui (world s)) = true ->
  (1 <= scheduled_ticks s)%nat ->
  Z.of_nat (length ts) <= pomodoro_seconds_left s ->
  let s' := fires ts s in
  world s' = set_clock (world s) (default (clock (world s)) (last ts)) /\
  pomodoro_seconds_left s' = pomodoro_seconds_left s - Z.of_nat (length ts) /\
  scheduled_ticks s' = scheduled_ticks s /\
  in_pause s' = in_pause s /\
  temp_pomodoro_seconds_left s' = temp_pomodoro_seconds_left s /\
  timer_lines s' = timer_lines s /\
  dialogs s' = dialogs s.
Proof.
  induction ts as [| t ts IH]; intros s Hrun Hbreak Hsched Hleft.
  - cbn. rewrite set_clock_same. repeat split; lia.
  - destruct (scheduled_ticks s) as [| n] eqn:Hn; [lia |].
    cbn [length] in Hleft.
    rewrite fires_cons.
    rewrite (fire_in_break t s n Hrun Hbreak Hn) by lia. cbn [snd].
    match goal with
    | |- context [fires ts ?s1] =>
        destruct (IH s1) as (H1 & H2 & H3 & H4 & H5 & H6 & H7)
    end.
    + exact Hrun.
    + exact Hbreak.
    + cbn. lia.
    + cbn [pomodoro_seconds_left]. lia.
    + cbv zeta in *.
      cbn [world pomodoro_seconds_left scheduled_ticks in_pause
           temp_pomodoro_seconds_left timer_lines dialogs length] in *.
      split; [| split; [lia |]; repeat split; assumption].
      rewrite H1. destruct ts as [| t' ts']; [reflexivity |].
      change (last (t :: t' :: ts')) with (last (t' :: ts')).
      destruct (last (t' :: ts')) as [x |] eqn:Hlast; [reflexivity |].
      apply last_None in Hlast. discriminate.
Qed.

(** ** What the timer does to a session *)

(** X15. While the timer runs in focus on a sound game state, every
    firing of a registered callback is one tick of the automation: after
    [n] firings, with [n] at most the seconds left, the game state is the
    one a run of [n] tick commands at the same clock readings leads to, the
    countdown has gone down by [n], the number of registered callbacks is
    the same, and the timer has written nothing and shown nothing. *)
Theorem focus_firings_are_ticks (s : Session) (ts : list Z) :
  sound (world s) ->
  pomodoro_running (gui (world s)) = true ->
  pomodoro_in_break (gui (world s)) = false ->
  (1 <= scheduled_ticks s)%nat ->
  Z.of_nat (length ts) <= pomodoro_seconds_left s ->
  let s' := fires ts s in
  world s' = run_steps (tick_steps ts) (world s) /\
  pomodoro_seconds_left s' = pomodoro_seconds_left s - Z.of_nat (length ts) /\
  scheduled_ticks s' = scheduled_ticks s /\
  pomodoro_running (gui (world s')) = true /\
  pomodoro_in_break (gui (world s')) = false /\
  timer_lines s' = timer_lines s /\
  dialogs s' = dialogs s.
Proof.
  intros Hw Hrun Hbreak Hsched Hleft s'.
  destruct (fires_in_focus ts s Hw Hrun Hbreak Hsched Hleft)
    as (H1 & H2 & H3 & _ & _ & H6 & H7 & _).
  fold s' in H1, H2, H3, H6, H7.
  assert (Hgui : gui (run_steps (tick_steps ts) (world s)) = gui (world s)).
  { clear. generalize (world s) as w.
    induction ts as [| t ts IH]; intros w; [reflexivity |].
    change (run_steps (tick_steps (t :: ts)) w)
      with (run_steps (tick_steps ts) (run_step w (t, CmdTick))).
    rewrite IH. apply run_step_tick_gui. }
  rewrite H1, Hgui. repeat split; assumption.
Qed.

Lemma focus_firings_are_ticks_witness :
  let s := mkSession
             (set_gui (initial_world new_warrior (raw_numbers [4; 1; 3]) 20)
                      (mkGui true true true true true true false))
             1499 false 0 (running_label false 1499) 1 [] [] in
  let s' := fires [21; 22] s in
  sound (world s) /\
  world s' = run_steps [(21, CmdTick); (22, CmdTick)] (world s) /\
  pomodoro_seconds_left s' = 1497.
Proof.
  intros s s'.
  assert (Hw : sound (world s)).
  { apply (sound_ext (initial_world new_warrior (raw_numbers [4; 1; 3]) 20));
      try reflexivity. apply sound_initial_world. }
  split; [exact Hw |].
  destruct (focus_firings_are_ticks s [21; 22] Hw eq_refl eq_refl)
    as (H1 & H2 & _).
  - cbn. lia.
  - cbn. lia.
  - split; [exact H1 | exact H2].
Defined.

(** X16. While the timer runs in a break, the firings only count down:
    after [n] firings, with [n] at most the seconds left, the player, the
    rooms, the output, the random generator and the widgets are as before
    (only the clock has moved), the countdown has gone down by [n] and the
    number of registered callbacks is the same. No soundness of the game
    state is needed: the automation is not called. *)
Theorem break_firings_idle (s : Session) (ts : list Z) :
  pomodoro_running (gui (world s)) = true ->
  pomodoro_in_break (gui (world s)) = true ->
  (1 <= scheduled_ticks s)%nat ->
  Z.of_nat (length ts) <= pomodoro_seconds_left s ->
  let s' := fires ts s in
  world s' = set_clock (world s) (default (clock (world s)) (last ts)) /\
  pomodoro_seconds_left s' = pomodoro_seconds_left s - Z.of_nat (length ts) /\
  scheduled_ticks s' = scheduled_ticks s /\
  timer_lines s' = timer_lines s /\
  dialogs s' = dialogs s.
Proof.
  intros Hrun Hbreak Hsched Hleft s'.
  destruct (fires_in_break ts s Hrun Hbreak Hsched Hleft)
    as (H1 & H2 & H3 & _ & _ & H6 & H7).
  repeat split; assumption.
Qed.

Lemma break_firings_idle_witness :
  let s := mkSession
             (set_gui (initial_world new_warrior (raw_numbers [4; 1; 3]) 20)
                      (mkGui true true true true true true true))
             300 false 0 (running_label true 300) 1 [] [] in
  let s' := fires [21; 22; 23] s in
  world s' = set_clock (world s) 23 /\ pomodoro_seconds_left s' = 297.
Proof.
  intros s s'.
  destruct (break_firings_idle s [21; 22; 23] eq_refl eq_refl)
    as (H1 & H2 & _).
  - cbn. lia.
  - cbn. lia.
  - split; [exact H1 | exact H2].
Defined.

Lemma fire_focus_complete (t : Z) (s : Session) (n : nat) :
  pomodoro_running (gui (world s)) = true ->
  pomodoro_in_break (gui (world s)) = false ->
  scheduled_ticks s = S n ->
  pomodoro_seconds_left s <= 0 ->
  let w := set_clock (world s) t in
  let streak := pomodoro_streak (player w) + 1 in
  fire t s =
    (Return tt,
     mkSession
       (set_gui (set_player w (set_pomodoro_streak (player w) streak))
                (set_pomodoro_in_break (gui w) true))
       POMODORO_BREAK_TIME (in_pause s) (temp_pomodoro_seconds_left s)
       (running_label true POMODORO_BREAK_TIME)
       (S n)
       (timer_lines s ++ [(length (output w), MsgFocusComplete streak)])
       (dialogs s ++ [MsgFocusComplete streak])).
Proof.
  intros Hrun Hbreak Hsched Hleft w streak.
  rewrite (fire_run t s n Hsched).
  rewrite tick_pomodoro_focus_complete by assumption.
  reflexivity.
Qed.

Lemma fire_break_over (t : Z) (s : Session) (n : nat) :
  pomodoro_running (gui (world s)) = true ->
  pomodoro_in_break (gui (world s)) = true ->
  scheduled_ticks s = S n ->
  pomodoro_seconds_left s <= 0 ->
  let w := set_clock (world s) t in
  fire t s =
    (Return tt,
     mkSession
       (set_gui w (set_pomodoro_in_break (gui w) false))
       POMODORO_FOCUS_TIME (in_pause s) (temp_pomodoro_seconds_left s)
       (running_label false POMODORO_FOCUS_TIME)
       (S n)
       (timer_lines s ++ [(length (output w), MsgBreakOver)])
       (dialogs s)).
Proof.
  intros Hrun Hbreak Hsched Hleft w.
  rewrite (fire_run t s n Hsched).
  rewrite tick_pomodoro_break_over by assumption.
  reflexivity.
Qed.

Lemma sound_started (s : Session) :
  sound (world s) -> sound (world (started s)).
Proof. intros Hw. apply (sound_ext (world s)); try reflexivity. exact Hw. Qed.

(** [start_pomodoro] on a stopped timer with seconds to count: the first
    tick runs at once. *)
Lemma start_pomodoro_first_tick (s : Session) :
  sound (world s) ->
  pomodoro_running (gui (world s)) = false ->
  0 < pomodoro_seconds_left (started s) ->
  start_pomodoro s =
    (Return tt,
     mkSession
       (run_step (world (started s)) (clock (world s), CmdTick))
       (pomodoro_seconds_left (started s) - 1) false
       (temp_pomodoro_seconds_left s)
       (running_label false (pomodoro_seconds_left (started s) - 1))
       (S (scheduled_ticks s)) (timer_lines s) (dialogs s)).
Proof.
  intros Hw Hrun Hleft.
  rewrite (start_pomodoro_run s Hrun).
  rewrite tick_pomodoro_focus by (try reflexivity; exact Hleft).
  cbv zeta.
  pose proof (automation_step (world (started s)) (clock (world s))
                (sound_started s Hw)) as Hstep.
  change (set_clock (world (started s)) (clock (world s)))
    with (set_clock (world (started s)) (clock (world (started s))))
    in Hstep.
  rewrite set_clock_same in Hstep. rewrite Hstep. reflexivity.
Qed.

Lemma run_steps_ticks_streak (ts : list Z) (w : World) :
  pomodoro_streak (player (run_steps (tick_steps ts) w))
  = pomodoro_streak (player w).
Proof.
  revert w. induction ts as [| t ts IH]; intros w; [reflexivity |].
  change (run_steps (tick_steps (t :: ts)) w)
    with (run_steps (tick_steps ts) (run_step w (t, CmdTick))).
  rewrite IH. unfold run_step. cbn [fst snd execute].
  apply keeps_streak_auto_move_and_attack. reflexivity.
Qed.

Lemma run_steps_ticks_gui (ts : list Z) (w : World) :
  gui (run_steps (tick_steps ts) w) = gui w.
Proof.
  revert w. induction ts as [| t ts IH]; intros w; [reflexivity |].
  change (run_steps (tick_steps (t :: ts)) w)
    with (run_steps (tick_steps ts) (run_step w (t, CmdTick))).
  rewrite IH. apply run_step_tick_gui.
Qed.

(** X17. One full cycle of the timer. Let the game state be sound, the
    timer stopped and not paused, and no callback registered. Then
    [start_pomodoro] returns, and after 1499 firings in focus, one firing
    that ends the focus, 300 firings in the break and one firing that ends
    the break the timer is in focus again with 1500 seconds to go and one
    callback registered. The automation has acted exactly 1500 times, in
    the start and in the 1499 firings that follow: the game state is the
    one of that run of ticks, except that the streak has grown by exactly
    1; the break has not touched the player or the rooms. The timer has
    written its two lines and shown one dialog. *)
Theorem pomodoro_cycle (s : Session) (focus_ts break_ts : list Z)
    (t1 t2 : Z) :
  sound (world s) ->
  pomodoro_running (gui (world s)) = false ->
  in_pause s = false ->
  scheduled_ticks s = 0%nat ->
  length focus_ts = 1499%nat ->
  length break_ts = 300%nat ->
  let wf := run_steps ((clock (world s), CmdTick) :: tick_steps focus_ts)
                      (world (started s)) in
  let streak := pomodoro_streak (player (world s)) + 1 in
  let s' := fires (focus_ts ++ [t1] ++ break_ts ++ [t2])
                  (snd (start_pomodoro s)) in
  fst (start_pomodoro s) = Return tt /\
  pomodoro_running (gui (world s')) = true /\
  pomodoro_in_break (gui (world s')) = false /\
  pomodoro_seconds_left s' = POMODORO_FOCUS_TIME /\
  scheduled_ticks s' = 1%nat /\
  player (world s') = set_pomodoro_streak (player wf) streak /\
  rooms (world s') = rooms wf /\
  output (world s') = output wf /\
  timer_lines s' =
    timer_lines s ++ [(length (output wf), MsgFocusComplete streak);
                      (length (output wf), MsgBreakOver)] /\
  dialogs s' = dialogs s ++ [MsgFocusComplete streak].
Proof.
  intros Hw Hrun Hpause Hsched Hfocus Hbreak wf streak s'.
  assert (Hsecs : pomodoro_seconds_left (started s) = POMODORO_FOCUS_TIME).
  { unfold started. rewrite Hpause. reflexivity. }
  assert (Hstart := start_pomodoro_first_tick s Hw Hrun).
  rewrite Hsecs in Hstart. specialize (Hstart eq_refl).
  subst s'. rewrite Hstart. cbn [fst snd].
  split; [reflexivity |].
  set (w1 := run_step (world (started s)) (clock (world s), CmdTick)).
  set (s1 := mkSession w1 _ _ _ _ _ _ _).
  assert (Hw1 : sound w1) by apply run_step_sound, sound_started, Hw.
  assert (Hg1 : gui w1 = gui (world (started s)))
    by apply run_step_tick_gui.
  (* the focus *)
  rewrite fires_app.
  destruct (fires_in_focus focus_ts s1) as (F1 & F2 & F3 & F4 & F5 & F6 & F7 & _).
  { exact Hw1. }
  { cbn [s1 world]. rewrite Hg1. reflexivity. }
  { cbn [s1 world]. rewrite Hg1. reflexivity. }
  { cbn. lia. }
  { cbn [s1 pomodoro_seconds_left]. rewrite Hfocus. vm_compute. discriminate. }
  set (s2 := fires focus_ts s1) in *.
  cbn [s1 world pomodoro_seconds_left scheduled_ticks in_pause
       temp_pomodoro_seconds_left timer_lines dialogs] in F1, F2, F3, F4, F5,
       F6, F7.
  change (run_steps (tick_steps focus_ts) w1) with wf in F1.
  assert (Hgf : gui wf = gui (world (started s))).
  { unfold wf.
    change (run_steps ((clock (world s), CmdTick) :: tick_steps focus_ts)
              (world (started s)))
      with (run_steps (tick_steps focus_ts) w1).
    rewrite run_steps_ticks_gui. exact Hg1. }
  assert (Hsf : pomodoro_streak (player wf) + 1 = streak).
  { unfold wf, streak.
    change (run_steps ((clock (world s), CmdTick) :: tick_steps focus_ts)
              (world (started s)))
      with (run_steps (tick_steps (clock (world s) :: focus_ts))
              (world (started s))).
    rewrite run_steps_ticks_streak. reflexivity. }
  assert (F2' : pomodoro_seconds_left s2 = 0).
  { rewrite F2, Hfocus. reflexivity. }
  (* the end of the focus *)
  rewrite fires_app. rewrite (fires_cons t1 []).
  rewrite (fire_focus_complete t1 s2 0)
    by (rewrite ?F1, ?Hgf; first [reflexivity | exact F3 | lia]).
  cbv zeta. rewrite F1, F4, F5, F6, F7.
  cbn [snd fires fold_left set_clock player output gui].
  rewrite Hsf.
  match goal with
  | |- context [fires (break_ts ++ [t2]) ?x] => set (s3 := x)
  end.
  (* the break *)
  rewrite fires_app.
  destruct (fires_in_break break_ts s3) as (B1 & B2 & B3 & B4 & B5 & B6 & B7).
  { cbn [s3 world set_gui gui set_pomodoro_in_break pomodoro_running].
    rewrite Hgf. reflexivity. }
  { reflexivity. }
  { cbn. lia. }
  { cbn [s3 pomodoro_seconds_left]. rewrite Hbreak. vm_compute. discriminate. }
  set (s4 := fires break_ts s3) in *.
  cbn [s3 pomodoro_seconds_left scheduled_ticks in_pause
       temp_pomodoro_seconds_left timer_lines dialogs] in B2, B3, B4, B5, B6,
       B7.
  assert (B2' : pomodoro_seconds_left s4 = 0).
  { rewrite B2, Hbreak. reflexivity. }
  assert (Hg4 : gui (world s4) = gui (world s3)) by (rewrite B1; reflexivity).
  (* the end of the break *)
  rewrite (fires_cons t2 []).
  rewrite (fire_break_over t2 s4 0).
  - cbv zeta. cbn [snd fires fold_left]. rewrite B1, B4, B5, B6, B7.
    cbn [world s3 set_gui set_player set_clock gui player rooms output
         set_pomodoro_in_break pomodoro_running pomodoro_in_break
         pomodoro_seconds_left scheduled_ticks timer_lines dialogs].
    rewrite Hgf.
    split; [reflexivity |]. split; [reflexivity |]. split; [reflexivity |].
    split; [reflexivity |]. split; [reflexivity |]. split; [reflexivity |].
    split; [reflexivity |]. split; [| reflexivity].
    rewrite <- app_assoc. reflexivity.
  - rewrite Hg4. cbn [s3 world set_gui gui set_pomodoro_in_break
                      pomodoro_running]. rewrite Hgf. reflexivity.
  - rewrite Hg4. reflexivity.
  - exact B3.
  - lia.
Qed.

Lemma pomodoro_cycle_witness :
  let s := initial_session
             (set_gui (initial_world new_warrior (raw_numbers [4; 1; 3]) 20)
                      (game_started_gui initial_gui)) in
  let s' := fires (replicate 1499 30 ++ [31] ++ replicate 300 40 ++ [50])
                  (snd (start_pomodoro s)) in
  sound (world s) /\
  fst (start_pomodoro s) = Return tt /\
  pomodoro_seconds_left s' = 1500 /\
  pomodoro_streak (player (world s')) = 1.
Proof.
  intros s s'.
  assert (Hw : sound (world s)).
  { apply (sound_ext (initial_world new_warrior (raw_numbers [4; 1; 3]) 20));
      try reflexivity. apply sound_initial_world. }
  split; [exact Hw |].
  destruct (pomodoro_cycle s (replicate 1499 30) (replicate 300 40) 31 50
              Hw eq_refl eq_refl eq_refl)
    as (Hret & _ & _ & Hleft & _ & Hplayer & _).
  - apply length_replicate.
  - apply length_replicate.
  - split; [exact Hret |]. split; [exact Hleft |].
    fold s' in Hplayer. rewrite Hplayer.
    cbn [pomodoro_streak set_pomodoro_streak]. reflexivity.
Defined.

Lemma sound_paused (s : Session) :
  sound (world s) -> sound (world (paused s)).
Proof. intros Hw. apply (sound_ext (world s)); try reflexivity. exact Hw. Qed.

(** X18. Pausing during a break and starting again turns the rest of the
    break into focus time: with [k > 0] seconds of the break left on a
    sound game state, both callbacks return, the timer runs in focus with
    [k - 1] seconds left, and the automation has already acted once on the
    game. *)
Theorem pause_in_break_resumes_as_focus (s : Session) :
  sound (world s) ->
  pomodoro_running (gui (world s)) = true ->
  pomodoro_in_break (gui (world s)) = true ->
  0 < pomodoro_seconds_left s ->
  let s1 := snd (pause_pomodoro s) in
  let s2 := snd (start_pomodoro s1) in
  fst (pause_pomodoro s) = Return tt /\
  fst (start_pomodoro s1) = Return tt /\
  pomodoro_running (gui (world s2)) = true /\
  pomodoro_in_break (gui (world s2)) = false /\
  pomodoro_seconds_left s2 = pomodoro_seconds_left s - 1 /\
  pomo_label s2 = running_label false (pomodoro_seconds_left s - 1) /\
  world s2 = run_step (world (started (paused s)))
                      (clock (world s), CmdTick).
Proof.
  intros Hw Hrun Hbreak Hleft s1 s2. subst s2 s1.
  rewrite (pause_pomodoro_run s Hrun). cbn [fst snd].
  rewrite (start_pomodoro_first_tick (paused s))
    by (try apply sound_paused; try reflexivity; assumption).
  cbn [fst snd world pomodoro_seconds_left pomo_label].
  rewrite run_step_tick_gui.
  repeat split.
Qed.

Lemma pause_in_break_resumes_as_focus_witness :
  let s := mkSession
             (set_gui (initial_world new_warrior (raw_numbers [4; 1; 3]) 20)
                      (mkGui true true true true true true true))
             200 false 0 (running_label true 200) 1 [] [] in
  let s2 := snd (start_pomodoro (snd (pause_pomodoro s))) in
  sound (world s) /\
  pomodoro_in_break (gui (world s2)) = false /\
  pomodoro_seconds_left s2 = 199.
Proof.
  intros s s2.
  assert (Hw : sound (world s)).
  { apply (sound_ext (initial_world new_warrior (raw_numbers [4; 1; 3]) 20));
      try reflexivity. apply sound_initial_world. }
  split; [exact Hw |].
  destruct (pause_in_break_resumes_as_focus s Hw eq_refl eq_refl)
    as (_ & _ & _ & Hbreak & Hleft & _).
  - cbn. lia.
  - split; [exact Hbreak | exact Hleft].
Defined.



(** X20. Stop does not cancel a paused timer. On a timer paused with
    [k > 0] seconds left, [stop_pomodoro] only writes that no session is
    running, and the next start resumes the paused countdown at [k - 1].
    Stopping the running timer instead makes the next start begin a fresh
    focus of 1500 seconds, of which the first is counted at once. *)
Theorem stop_does_not_cancel_pause (s : Session) :
  sound (world s) ->
  pomodoro_running (gui (world s)) = true ->
  in_pause s = false ->
  0 < pomodoro_seconds_left s ->
  let s1 := snd (pause_pomodoro s) in
  stop_pomodoro s1 = (Return tt, told s1 MsgNoSession) /\
  pomodoro_seconds_left (snd (start_pomodoro (snd (stop_pomodoro s1))))
  = pomodoro_seconds_left s - 1 /\
  pomodoro_seconds_left (snd (start_pomodoro (snd (stop_pomodoro s))))
  = POMODORO_FOCUS_TIME - 1.
Proof.
  intros Hw Hrun Hpause Hleft s1. subst s1.
  rewrite (pause_pomodoro_run s Hrun). cbn [snd].
  rewrite (stop_pomodoro_idle (paused s)) by reflexivity.
  split; [reflexivity |]. cbn [snd]. split.
  - rewrite (start_pomodoro_first_tick (told (paused s) MsgNoSession)).
    + reflexivity.
    + apply sound_paused, Hw.
    + reflexivity.
    + exact Hleft.
  - rewrite (stop_pomodoro_run s Hrun). cbn [snd].
    rewrite (start_pomodoro_first_tick (stopped s)).
    + cbn [snd pomodoro_seconds_left]. unfold started, stopped.
      cbn [in_pause]. rewrite Hpause. reflexivity.
    + apply (sound_ext (world s)); try reflexivity. exact Hw.
    + reflexivity.
    + unfold started, stopped. cbn [in_pause]. rewrite Hpause.
      vm_compute. reflexivity.
Qed.

Lemma stop_does_not_cancel_pause_witness :
  let s := mkSession
             (set_gui (initial_world new_warrior (raw_numbers [4; 1; 3]) 20)
                      (mkGui true true true true true true false))
             900 false 0 (running_label false 900) 1 [] [] in
  sound (world s) /\
  pomodoro_seconds_left
    (snd (start_pomodoro (snd (stop_pomodoro (snd (pause_pomodoro s))))))
  = 899.
Proof.
  intros s.
  assert (Hw : sound (world s)).
  { apply (sound_ext (initial_world new_warrior (raw_numbers [4; 1; 3]) 20));
      try reflexivity. apply sound_initial_world. }
  split; [exact Hw |].
  destruct (stop_does_not_cancel_pause s Hw eq_refl eq_refl) as (_ & H & _).
  - cbn. lia.
  - exact H.
Defined.

(** X21. When the timer does not run (never started, paused, stopped, or
    after the game is over), a firing uses up a registered callback and
    registers none: after [n] firings the number of registered callbacks
    is [n] less (or zero), and the player, the rooms, the output, the
    widgets, the countdown, the label, the lines of the timer and its
    dialogs are as before. *)
Theorem idle_timer_winds_down (s : Session) (ts : list Z) :
  pomodoro_running (gui (world s)) = false ->
  let s' := fires ts s in
  scheduled_ticks s' = (scheduled_ticks s - length ts)%nat /\
  player (world s') = player (world s) /\
  rooms (world s') = rooms (world s) /\
  output (world s') = output (world s) /\
  rand_pos (world s') = rand_pos (world s) /\
  gui (world s') = gui (world s) /\
  pomodoro_seconds_left s' = pomodoro_seconds_left s /\
  pomo_label s' = pomo_label s /\
  timer_lines s' = timer_lines s /\
  dialogs s' = dialogs s.
Proof.
  revert s. induction ts as [| t ts IH]; intros s Hrun.
  - cbn. repeat split; lia.
  - cbv zeta. rewrite fires_cons, (fire_idle t s Hrun). cbn [snd].
    destruct (scheduled_ticks s) as [| n] eqn:Hn.
    + destruct (IH s Hrun) as (H1 & H2).
      rewrite Hn in H1. split; [rewrite H1; reflexivity | exact H2].
    + match goal with
      | |- context [fires ts ?s1] =>
          destruct (IH s1) as (H1 & H2 & H3 & H4 & H5 & H6 & H7 & H8 & H9 & H10)
      end; [exact Hrun |].
      cbn [set_world set_scheduled_ticks world scheduled_ticks
           pomodoro_seconds_left pomo_label timer_lines dialogs
           set_clock player rooms output rand_pos gui length] in *.
      split; [rewrite H1; lia |]. repeat split; assumption.
Qed.

Lemma idle_timer_winds_down_witness :
  let s := mkSession
             (set_gui (initial_world new_warrior (raw_numbers [4; 1; 3]) 20)
                      (game_over_gui (mkGui true true true true true true
                                            false)))
             900 false 0 (running_label false 900) 2 [] [] in
  let s' := fires [21; 22; 23] s in
  scheduled_ticks s' = 0%nat /\ pomodoro_seconds_left s' = 900.
Proof.
  intros s s'.
  destruct (idle_timer_winds_down s [21; 22; 23] eq_refl)
    as (H1 & _ & _ & _ & _ & _ & H7 & _).
  split; [exact H1 | exact H7].
Defined.

(** X22. No command of the game other than starting or loading a game
    changes the streak, in any state and whether the command returns or
    raises: only the end of a focus, in [tick_pomodoro], counts it up. *)
Theorem only_the_timer_changes_the_streak (c : Command) (w : World) :
  replaces_player c = false ->
  pomodoro_streak (player (snd (execute c w))) = pomodoro_streak (player w).
Proof.
  intros Hc.
  apply (keeps_streak_execute (pomodoro_streak (player w)) c Hc w).
  reflexivity.
Qed.

Lemma only_the_timer_changes_the_streak_witness :
  let w := initial_world new_warrior (raw_numbers [4; 1; 3]) 20 in
  replaces_player CmdSkill = false /\
  pomodoro_streak (player (snd (execute CmdSkill w))) = 0.
Proof.
  intros w. split; [reflexivity |].
  apply (only_the_timer_changes_the_streak CmdSkill w). reflexivity.
Defined.

(** * The respawn deadline, room by room *)

Section Elsewhere.

Variables (key : string) (deadline : Z).

Lemma look_around_elsewhere (w : World) :
  vacant_until key deadline w ->
  location (player w) <> key ->
  vacant_until key deadline (snd (look_around w)).
Proof.
  intros Hvac Hne.
  destruct (look_around_frame w) as (_ & _ & _ & Hrooms & _).
  destruct (spawn_enemy_frame (location (player w)) w)
    as (_ & _ & _ & Hother & _).
  apply (vacant_same_lookup key deadline w); [| exact Hvac].
  rewrite Hrooms. apply Hother. congruence.
Qed.

Lemma move_player_elsewhere (direction : string) (w : World) :
  vacant_until key deadline w ->
  respawn_target (CmdMove direction) w <> Some key ->
  vacant_until key deadline (snd (move_player direction w)).
Proof.
  intros Hvac Hne. cbn [respawn_target] in Hne.
  destruct (rooms w !! location (player w)) as [room |] eqn:Hroom.
  - destruct (exit_not_none room direction) as [dest |] eqn:Hexit.
    + rewrite (move_player_run w room direction dest Hroom Hexit).
      apply look_around_elsewhere; [exact Hvac |].
      cbn [set_player player set_location location]. congruence.
    + rewrite (move_player_no_exit w room direction Hroom Hexit). exact Hvac.
  - rewrite (move_player_no_room w direction Hroom). exact Hvac.
Qed.

(** The loop of the tick, in closed form. *)
Lemma probe_directions_scan (room : Room) (w : World) :
  (auto_move_index w < length auto_move_directions)%nat ->
  probe_directions (length auto_move_directions) room w =
    match first_open_exit room (auto_move_index w) with
    | Some (k, d) =>
        move_player d
          (set_auto_move_index w
             ((auto_move_index w + k + 1) mod length auto_move_directions)%nat)
    | None => (Return tt, w)
    end.
Proof.
  intros Hidx. unfold first_open_exit.
  destruct (list_find _ (scan_order (auto_move_index w))) as [[k d] |] eqn:Hfind.
  - apply list_find_Some in Hfind. destruct Hfind as (Hd & Htruthy & Hbefore).
    apply Is_true_true in Htruthy.
    assert (Hk : (k < length auto_move_directions)%nat).
    { rewrite <- (scan_order_length (auto_move_index w)).
      apply lookup_lt_Some in Hd. exact Hd. }
    rewrite scan_order_lookup in Hd by assumption.
    apply (probe_directions_hit k); try assumption.
    intros j dj Hj Hdj.
    rewrite <- scan_order_lookup in Hdj by (try assumption; lia).
    specialize (Hbefore j dj Hdj Hj).
    destruct (exit_truthy room dj); [exfalso; apply Hbefore; exact I |].
    reflexivity.
  - apply list_find_None in Hfind.
    rewrite (probe_directions_miss (length auto_move_directions) room w Hidx).
    + replace ((auto_move_index w + length auto_move_directions)
               mod length auto_move_directions)%nat
        with (auto_move_index w).
      * rewrite set_auto_move_index_same. reflexivity.
      * rewrite <- (Nat.mul_1_l (length auto_move_directions)) at 1.
        rewrite Nat.Div0.mod_add. symmetry. apply Nat.mod_small. exact Hidx.
    + intros j dj Hj Hdj.
      rewrite <- scan_order_lookup in Hdj by assumption.
      rewrite Forall_forall in Hfind.
      specialize (Hfind dj (list_elem_of_lookup_2 _ _ _ Hdj)).
      destruct (exit_truthy room dj); [exfalso; apply Hfind; exact I |].
      reflexivity.
Qed.

Lemma auto_move_and_attack_elsewhere (w : World) :
  vacant_until key deadline w ->
  respawn_target CmdTick w <> Some key ->
  vacant_until key deadline (snd (auto_move_and_attack w)).
Proof.
  intros Hvac Hne. cbn [respawn_target] in Hne.
  unfold auto_move_and_attack. mstep. unfold lookup_room.
  destruct (rooms w !! location (player w)) as [room |] eqn:Hroom;
    [| exact Hvac].
  mstep. destruct (live_enemy room) as [e |] eqn:Hlive.
  { apply auto_attack_if_enemy_keeps_vacant. exact Hvac. }
  destruct (decide (hp (player w) < max_hp (player w))) as [Hlow | Hfull].
  { apply heal_player_keeps_vacant. exact Hvac. }
  destruct (exits room); [exact Hvac |].
  assert (Hprobe :
    vacant_until key deadline
      (snd (probe_directions (length auto_move_directions) room w))).
  { destruct (decide (auto_move_index w < length auto_move_directions)%nat)
      as [Hidx | Hidx].
    - rewrite (probe_directions_scan room w Hidx).
      destruct (first_open_exit room (auto_move_index w)) as [[k d] |];
        [| exact Hvac].
      apply move_player_elsewhere; [exact Hvac |].
      cbn [respawn_target]. mstep. rewrite Hroom. exact Hne.
    - rewrite probe_directions_out_of_range by lia. exact Hvac. }
  destruct (probe_directions (length auto_move_directions) room w)
    as [[[] | err] w1]; cbn [snd] in Hprobe.
  - apply auto_attack_if_enemy_keeps_vacant. exact Hprobe.
  - exact Hprobe.
Qed.

Lemma new_game_elsewhere (name_answer class_answer : option string)
    (w : World) :
  vacant_until key deadline w ->
  "temple_of_stillness" <> key ->
  vacant_until key deadline (snd (new_game name_answer class_answer w)).
Proof.
  intros Hvac Hne.
  destruct (new_game_run name_answer class_answer w)
    as (st & p0 & w0 & _ & Hp0 & Hplayer & Hrooms & _ & _ & _ & _ & _ & _
        & _ & ->).
  apply look_around_elsewhere.
  - apply (vacant_same_rooms key deadline w); assumption.
  - rewrite Hplayer, Hp0. exact Hne.
Qed.

Lemma load_game_action_elsewhere (w : World) :
  vacant_until key deadline w ->
  respawn_target CmdLoadGame w <> Some key ->
  vacant_until key deadline (snd (load_game_action w)).
Proof.
  intros Hvac Hne. cbn [respawn_target] in Hne.
  unfold load_game_action. unfold bind at 1.
  pose proof (stateless_load_game w) as Hpure.
  destruct (load_game w) as [[[p |] | err] w1]; cbn [fst snd] in *; subst w1.
  - mstep.
    match goal with
    | |- context [look_around ?w1] =>
        assert (Hlook : vacant_until key deadline (snd (look_around w1)))
          by (apply look_around_elsewhere; [exact Hvac | mstep; congruence]);
        destruct (look_around w1) as [[[] | err] w2]
    end; cbn [snd] in Hlook; exact Hlook.
  - exact Hvac.
  - exact Hvac.
Qed.

Lemma execute_elsewhere (c : Command) (w : World) :
  vacant_until key deadline w ->
  clock w < deadline \/ respawn_target c w <> Some key ->
  vacant_until key deadline (snd (execute c w)).
Proof.
  intros Hvac [Hclock | Hne].
  - apply execute_keeps_vacant; [exact Hvac | left; exact Hclock].
  - destruct c;
      try (apply execute_keeps_vacant; [exact Hvac | right; reflexivity]);
      cbn [execute].
    + apply look_around_elsewhere; [exact Hvac |].
      cbn [respawn_target] in Hne. congruence.
    + apply move_player_elsewhere; assumption.
    + apply auto_move_and_attack_elsewhere; assumption.
    + apply new_game_elsewhere; [exact Hvac |].
      cbn [respawn_target] in Hne. congruence.
    + apply load_game_action_elsewhere; assumption.
Qed.

Lemma run_steps_undisturbed (steps : list (Z * Command)) :
  forall w,
  vacant_until key deadline w ->
  undisturbed key deadline steps w ->
  vacant_until key deadline (run_steps steps w).
Proof.
  induction steps as [| [t c] steps IH]; intros w Hvac Hsteps; [exact Hvac |].
  destruct Hsteps as [Hstep Hrest].
  change (run_steps ((t, c) :: steps) w)
    with (run_steps steps (run_step w (t, c))).
  apply IH; [| exact Hrest].
  unfold run_step. cbn [fst snd] in *.
  apply execute_elsewhere; [exact Hvac | exact Hstep].
Qed.

(** A run whose commands keep to the times before the deadline, or do not
    look at any room, is undisturbed. *)
Lemma undisturbed_of_observes (steps : list (Z * Command)) :
  forall w,
  Forall (fun s => fst s < deadline \/ observes_room (snd s) = false) steps ->
  undisturbed key deadline steps w.
Proof.
  induction steps as [| [t c] steps IH]; intros w Hall; [exact I |].
  apply Forall_cons in Hall. destruct Hall as [Hstep Hall].
  split; [| apply IH; exact Hall].
  cbn [fst snd] in *. destruct Hstep as [Ht | Hobs]; [left; exact Ht |].
  right. destruct c; cbn [observes_room] in Hobs; try discriminate;
    cbn [respawn_target]; discriminate.
Qed.

End Elsewhere.

(** C7. Let the room [key] be vacant with respawn deadline [deadline] (no
    enemy referenced, [respawn_timer = deadline]): this is the state that
    [handle_mob_death], and so the killing blow of a basic attack or of a
    skill attack, leaves with [deadline = clock + RESPAWN_TIME]. Along
    every run of commands in which no command invokes [maybe_respawn_mob]
    on this room at or after the deadline (each command runs before the
    deadline, or invokes it on no room, or on another room: the player may
    look around, move and be moved by ticks anywhere else, at any time),
    the room stays vacant; there [attack_enemy] and [use_class_skill] only
    write their "nothing to attack" line.
    [maybe_respawn_mob] leaves the state alone while the room holds a live
    enemy, and also while the clock is before the deadline; only without a
    live enemy and at or past the deadline does it draw one number and
    store a fresh live enemy made from the template of [ENEMY_POOL] at the
    index [raw mod 5]. The pool holds five distinct templates and each of
    them is so chosen by one residue. *)
Theorem killed_enemy_stays_away (key : string) (deadline : Z)
    (w1 : World) (steps : list (Z * Command)) :
  vacant_until key deadline w1 ->
  undisturbed key deadline steps w1 ->
  let w := run_steps steps w1 in
  (vacant_until key deadline w /\ enemy_at w key = None) /\
  (location (player w) = key ->
   attack_enemy w = (Return tt, written w [MsgNothingToAttack]) /\
   use_class_skill w = (Return tt, written w [MsgNoEnemyForSkill])) /\
  (forall (w0 : World) (room : Room) (e : Enemy),
     rooms w0 !! key = Some room -> enemy room = Some e ->
     vacant_until key (clock w0 + RESPAWN_TIME)
                  (snd (handle_mob_death key w0))) /\
  (forall (w0 : World) (room : Room) (e : Enemy) (b : bool),
     rooms w0 !! location (player w0) = Some room ->
     live_enemy room = Some e ->
     tasks (player w0) !! "stun_opponent" = Some b ->
     (e_hp e - basic_damage w0 <= 0 ->
      vacant_until (location (player w0)) (clock w0 + RESPAWN_TIME)
                   (snd (attack_enemy w0))) /\
     (forall st, CLASS_STATS !! player_class (player w0) = Some st ->
      e_hp e - skill_damage w0 <= 0 ->
      vacant_until (location (player w0)) (clock w0 + RESPAWN_TIME)
                   (snd (use_class_skill w0)))) /\
  (forall (w2 : World) (key2 : string) (room2 : Room),
     rooms w2 !! key2 = Some room2 ->
     maybe_respawn_mob key2 w2 =
       match live_enemy room2 with
       | Some _ => (Return tt, w2)
       | None =>
           if decide (respawn_timer room2 <= clock w2) then
             (Return tt,
              set_rooms (consumed w2 1)
                (<[key2 := set_enemy room2 (spawned_enemy (upcoming w2 0))]>
                   (rooms w2)))
           else (Return tt, w2)
       end) /\
  (forall raw : Z,
     exists chosen,
       chosen ∈ ENEMY_POOL /\
       ENEMY_POOL !! Z.to_nat (raw mod 5) = Some chosen /\
       spawned_enemy raw = Some (instantiate chosen) /\
       is_alive (instantiate chosen) = true) /\
  (forall (i : nat) (chosen : EnemyTemplate),
     ENEMY_POOL !! i = Some chosen ->
     spawned_enemy (Z.of_nat i) = Some (instantiate chosen)) /\
  NoDup ENEMY_POOL /\ length ENEMY_POOL = 5%nat.
Proof.
  intros Hvac Hsteps w.
  assert (Hw : vacant_until key deadline w)
    by (apply run_steps_undisturbed; assumption).
  split; [| split; [| split; [| split; [| split; [| split; [| split]]]]]].
  - split; [exact Hw |]. destruct Hw as (room & Hroom & Henemy & _).
    unfold enemy_at. rewrite Hroom. exact Henemy.
  - intros Hloc. destruct Hw as (room & Hroom & Henemy & _).
    rewrite <- Hloc in Hroom. apply live_enemy_None in Henemy.
    split.
    + apply (attack_enemy_none w room Hroom Henemy).
    + apply (use_class_skill_none w room Hroom Henemy).
  - intros w0 room e. apply handle_mob_death_vacant.
  - intros w0 room e b Hroom Hlive Htask. split.
    + intros Hdead.
      rewrite (attack_enemy_kill w0 room e Hroom Hlive b Hdead Htask).
      apply after_kill_vacant.
    + intros st Hclass Hdead.
      rewrite (use_class_skill_kill w0 room e Hroom Hlive st Hclass b
                 Hdead Htask).
      apply after_kill_vacant.
  - intros w2 key2 room2 Hroom2. apply spawn_enemy_run. exact Hroom2.
  - intros raw. destruct (spawned_enemy_from_pool raw)
      as (chosen & Hin & Hlookup & Hspawn).
    exists chosen. repeat split; try assumption.
    revert Hin. clear. unfold ENEMY_POOL. rewrite !elem_of_cons.
    intros [-> | [-> | [-> | [-> | [-> | H]]]]]; try reflexivity.
    inversion H.
  - apply spawned_enemy_template.
  - split; [compute_done | reflexivity].
Qed.

Lemma killed_enemy_stays_away_witness :
  let w0 := duel_world new_warrior weak_enemy (raw_numbers [4; 1; 2]) in
  let w1 := snd (attack_enemy w0) in
  let steps := [(1001, CmdAttack); (1005, CmdLook); (1009, CmdSkill);
                (1012, CmdMove "east"); (1020, CmdLook); (1025, CmdTick);
                (1030, CmdHeal)] in
  let w := run_steps steps w1 in
  enemy_at w0 "temple_of_stillness" = Some weak_enemy /\
  vacant_until "temple_of_stillness" 1010 w1 /\
  undisturbed "temple_of_stillness" 1010 steps w1 /\
  location (player w) = "outer_courtyard" /\
  vacant_until "temple_of_stillness" 1010 w /\
  enemy_at w "temple_of_stillness" = None /\
  is_Some (enemy_at (run_steps [(1040, CmdMove "west")] w)
                    "temple_of_stillness").
Proof.
  intros w0 w1 steps w.
  assert (Hvac : vacant_until "temple_of_stillness" 1010 w1).
  { eexists. split; [vm_compute; reflexivity |].
    split; vm_compute; reflexivity. }
  assert (Hsteps : undisturbed "temple_of_stillness" 1010 steps w1).
  { subst steps. cbn [undisturbed fst snd].
    repeat split;
      first [left; lia | right; vm_compute; discriminate]. }
  split; [vm_compute; reflexivity |].
  split; [exact Hvac |]. split; [exact Hsteps |].
  split; [vm_compute; reflexivity |].
  pose proof (proj1 (killed_enemy_stays_away "temple_of_stillness" 1010
                       w1 steps Hvac Hsteps)) as [H1 H2].
  split; [exact H1 |]. split; [exact H2 |].
  vm_compute. eexists. reflexivity.
Defined.
